(** * Polymarket indexer: trade decoding, CTF id derivation, indexing pipeline

    A shallow embedding of the Python sources

      - [stage2/src/ctf/derive.py]          (module [Derive])
      - [stage2/src/ctf/trade_decoder.py]   (module [TradeDecoder])
      - [stage1/src/trade_decoder.py]       (module [Stage1])
      - [stage2/src/db/schema.py], [stage2/src/db/store.py]  (module [Store])
      - [stage2/src/indexer/run.py]         (modules [Indexer], [SingleTx])
      - [stage2/src/indexer/discovery.py]   (module [Discovery])
      - [stage2/src/db/store.py], the queries and upserts
                                            (modules [Queries], [Catalog])
      - [stage2/src/api/server.py]          (module [Api])
      - [stage2/src/ctf/derive.py], the rest (module [Positions])
      - [stage1/src/indexer/gamma.py]       (module [Gamma])
      - [stage1/src/market_decoder.py]      (module [MarketDecoder])

    Python values are modelled as follows: [int] is [Z]; [str] is [string]
    (one [ascii] per character, so the model covers ASCII text); [bytes] is
    [list byte]; a raised exception is the [Raise] constructor of [result].
    Library functions that are not part of the repository (keccak-256,
    [Web3.to_checksum_address], [json.loads], [strftime], the RPC node) are
    Section variables. *)

From Stdlib Require Import ZArith NArith List String Ascii Lia Bool.
From Stdlib Require Import Strings.Byte.
From Stdlib Require Import Sorting.Sorted.
From stdpp Require Import gmap strings list fin_maps.
Import ListNotations.
Local Open Scope string_scope.
Local Open Scope Z_scope.

(** ** Python primitives *)

Module Py.

(** Exceptions the modelled code can raise. *)
Inductive exn : Type :=
  | IndexError
  | ValueError
  | OverflowError
  | IntegrityError
  | RpcError.

Inductive result (A : Type) : Type :=
  | Ok (a : A)
  | Raise (e : exn).
Arguments Ok {A} a.
Arguments Raise {A} e.

Definition bind {A B} (r : result A) (k : A -> result B) : result B :=
  match r with
  | Ok a => k a
  | Raise e => Raise e
  end.

Definition of_option {A} (e : exn) (o : option A) : result A :=
  match o with
  | Some a => Ok a
  | None => Raise e
  end.

(** *** str *)

(** [s[n:]] *)
Fixpoint str_drop (n : nat) (s : string) : string :=
  match n, s with
  | O, _ => s
  | S _, EmptyString => EmptyString
  | S n', String _ s' => str_drop n' s'
  end.

(** [s[:n]] *)
Fixpoint str_take (n : nat) (s : string) : string :=
  match n, s with
  | O, _ => EmptyString
  | S _, EmptyString => EmptyString
  | S n', String c s' => String c (str_take n' s')
  end.

(** [s[-n:]] for [n > 0] *)
Definition str_last (n : nat) (s : string) : string :=
  str_drop (String.length s - n) s.

(** [c * n] *)
Fixpoint str_repeat (c : ascii) (n : nat) : string :=
  match n with
  | O => EmptyString
  | S n' => String c (str_repeat c n')
  end.

(** [s.startswith(p)] *)
Fixpoint startswith (p s : string) : bool :=
  match p with
  | EmptyString => true
  | String a p' =>
      match s with
      | EmptyString => false
      | String b s' => Ascii.eqb a b && startswith p' s'
      end
  end.

Definition is_upper (c : ascii) : bool :=
  let n := N_of_ascii c in ((65 <=? n) && (n <=? 90))%N.

Definition lower_char (c : ascii) : ascii :=
  if is_upper c then ascii_of_N (N_of_ascii c + 32) else c.

(** [s.lower()] on ASCII text: the letters A to Z change, nothing else
    does. *)
Fixpoint lower (s : string) : string :=
  match s with
  | EmptyString => EmptyString
  | String c s' => String (lower_char c) (lower s')
  end.

(** [s.rstrip(c)] for a single character [c] *)
Fixpoint rstrip (c : ascii) (s : string) : string :=
  match s with
  | EmptyString => EmptyString
  | String a s' =>
      match rstrip c s' with
      | EmptyString => if Ascii.eqb a c then EmptyString else String a EmptyString
      | r => String a r
      end
  end.

(** [s.zfill(width)]: a leading sign stays in front of the padding. *)
Definition zfill (width : nat) (s : string) : string :=
  let fill := str_repeat "0" (width - String.length s) in
  match s with
  | String c s' =>
      if Ascii.eqb c "+" || Ascii.eqb c "-" then String c (fill +:+ s')
      else fill +:+ s
  | EmptyString => fill
  end.

Definition is_digit (c : ascii) : bool :=
  let n := N_of_ascii c in ((48 <=? n) && (n <=? 57))%N.

Fixpoint all_digits (s : string) : bool :=
  match s with
  | EmptyString => true
  | String c s' => is_digit c && all_digits s'
  end.

(** [s.isdigit()]: false on the empty string. *)
Definition isdigit (s : string) : bool :=
  match s with
  | EmptyString => false
  | _ => all_digits s
  end.

(** *** int *)

(** Digits of [n] in [base], most significant first; the digits of 0 are [0]. *)
Fixpoint digits_aux (base : N) (fuel : nat) (n : N) (acc : list N) : list N :=
  match fuel with
  | O => acc
  | S f =>
      if (n <? base)%N then n :: acc
      else digits_aux base f (n / base)%N ((n mod base)%N :: acc)
  end.

Definition digits (base : N) (n : N) : list N :=
  digits_aux base (S (N.size_nat n)) n [].

Definition digit_char (d : N) : ascii :=
  if (d <? 10)%N then ascii_of_N (48 + d) else ascii_of_N (87 + d).

Definition string_of_digits (ds : list N) : string :=
  fold_right (fun d s => String (digit_char d) s) EmptyString ds.

(** [str(n)] *)
Definition str_of_int (n : Z) : string :=
  if n <? 0 then String "-" (string_of_digits (digits 10 (Z.to_N (- n))))
  else string_of_digits (digits 10 (Z.to_N n)).

(** [len(str(n))] for [n >= 0] *)
Definition ndigits (n : Z) : Z := Z.of_nat (List.length (digits 10 (Z.to_N n))).

(** [f"{n:x}"] *)
Definition format_x (n : Z) : string :=
  if n <? 0 then String "-" (string_of_digits (digits 16 (Z.to_N (- n))))
  else string_of_digits (digits 16 (Z.to_N n)).

(** [f"{n:064x}"]: zero padding goes between the sign and the digits. *)
Definition format_064x (n : Z) : string := zfill 64 (format_x n).

(** [int(s)] on a string of decimal digits, of which there are no more
    than 4300: [int] raises [ValueError] on a longer string. *)
Definition int_of_digits (s : string) : Z :=
  fold_left (fun acc c => acc * 10 + (Z.of_N (N_of_ascii c) - 48))
            (list_ascii_of_string s) 0.

(** *** bytes *)

Definition hexval (c : ascii) : option N :=
  let n := N_of_ascii c in
  if ((48 <=? n) && (n <=? 57))%N then Some (n - 48)%N
  else if ((97 <=? n) && (n <=? 102))%N then Some (n - 87)%N
  else if ((65 <=? n) && (n <=? 70))%N then Some (n - 55)%N
  else None.

Definition byte_of_N (n : N) : byte :=
  match Byte.of_N (n mod 256) with
  | Some b => b
  | None => x00
  end.

(** [b.hex()] *)
Fixpoint bytes_hex (bs : list byte) : string :=
  match bs with
  | [] => EmptyString
  | b :: bs' =>
      String (digit_char (Byte.to_N b / 16))
        (String (digit_char (Byte.to_N b mod 16)) (bytes_hex bs'))
  end.

Definition is_space (c : ascii) : bool :=
  let n := N_of_ascii c in ((9 <=? n) && (n <=? 13) || (n =? 32))%N.

(** [bytes.fromhex(s)]: ASCII whitespace between bytes is skipped; [None]
    stands for the [ValueError] on any other malformed input. *)
Fixpoint bytes_fromhex (s : string) : option (list byte) :=
  match s with
  | EmptyString => Some []
  | String c s' =>
      if is_space c then bytes_fromhex s'
      else
        match s' with
        | EmptyString => None
        | String d s'' =>
            match hexval c, hexval d with
            | Some h, Some l =>
                option_map (cons (byte_of_N (16 * h + l))) (bytes_fromhex s'')
            | _, _ => None
            end
        end
  end.

(** [int.from_bytes(bs, 'big')] *)
Definition int_from_bytes (bs : list byte) : Z :=
  fold_left (fun acc b => acc * 256 + Z.of_N (Byte.to_N b)) bs 0.

(** [bs[i:j]] for [0 <= i <= j]; out-of-range bounds are clipped. *)
Definition slice (i j : nat) (bs : list byte) : list byte :=
  firstn (j - i) (skipn i bs).

Fixpoint to_bytes_aux (len : nat) (n : Z) (acc : list byte) : list byte :=
  match len with
  | O => acc
  | S len' => to_bytes_aux len' (n / 256) (byte_of_N (Z.to_N (n mod 256)) :: acc)
  end.

(** [n.to_bytes(len, 'big')]: [OverflowError] on a negative [n] or one that
    does not fit. *)
Definition int_to_bytes (len : nat) (n : Z) : result (list byte) :=
  if (n <? 0) || (256 ^ Z.of_nat len <=? n) then Raise OverflowError
  else Ok (to_bytes_aux len n []).

(** *** decimal.Decimal

    Non-negative finite decimals under the default context (precision 28,
    ROUND_HALF_EVEN): the value is [d_int * 10 ^ d_exp]. *)

Record Decimal : Type := mkDecimal { d_int : Z; d_exp : Z }.

Definition prec : Z := 28.

(** [Decimal(n)] for an int [n >= 0] (the constructor does not round). *)
Definition Decimal_of_int (n : Z) : Decimal := mkDecimal n 0.

(** [n / d] rounded to the nearest integer, ties to even. *)
Definition div_half_even (n d : Z) : Z :=
  let q := n / d in
  let r := n mod d in
  if 2 * r <? d then q
  else if d <? 2 * r then q + 1
  else if Z.even q then q else q + 1.

(** Rounding of a coefficient to the context precision. *)
Definition fix_prec (d : Decimal) : Decimal :=
  let nd := ndigits (d_int d) in
  if nd <=? prec then d
  else
    let k := nd - prec in
    let c := div_half_even (d_int d) (10 ^ k) in
    if prec <? ndigits c then mkDecimal (c / 10) (d_exp d + k + 1)
    else mkDecimal c (d_exp d + k).

(** An exact quotient is brought as close to the ideal exponent as its
    trailing zeros allow. *)
Fixpoint strip_to_ideal (fuel : nat) (ideal : Z) (coeff exp : Z) : Z * Z :=
  match fuel with
  | O => (coeff, exp)
  | S f =>
      if (exp <? ideal) && (coeff mod 10 =? 0)
      then strip_to_ideal f ideal (coeff / 10) (exp + 1)
      else (coeff, exp)
  end.

(** [a / b] for [b] non-zero: the quotient correctly rounded to 28
    significant digits. *)
Definition Decimal_div (a b : Decimal) : Decimal :=
  if d_int a =? 0 then mkDecimal 0 (d_exp a - d_exp b)
  else
    let shift := ndigits (d_int b) - ndigits (d_int a) + prec + 1 in
    let exp := d_exp a - d_exp b - shift in
    let num := if 0 <=? shift then d_int a * 10 ^ shift else d_int a in
    let den := if 0 <=? shift then d_int b else d_int b * 10 ^ (- shift) in
    let coeff := num / den in
    let remainder := num mod den in
    let '(coeff, exp) :=
      if negb (remainder =? 0)
      then ((if coeff mod 5 =? 0 then coeff + 1 else coeff), exp)
      else strip_to_ideal (Z.to_nat (d_exp a - d_exp b - exp))
                          (d_exp a - d_exp b) coeff exp in
    fix_prec (mkDecimal coeff exp).

(** The coefficient of [d] rescaled to exponent [-places], ties to even
    (what [f"{d:.6f}"] prints, without its decimal point). *)
Definition rescale (places : Z) (d : Decimal) : Z :=
  if d_int d =? 0 then 0
  else if - places <=? d_exp d then d_int d * 10 ^ (d_exp d + places)
  else div_half_even (d_int d) (10 ^ (- places - d_exp d)).

(** [f"{d:.6f}"] *)
Definition format_6f (d : Decimal) : string :=
  let n := rescale 6 d in
  str_of_int (n / 10 ^ 6) +:+ "." +:+ zfill 6 (str_of_int (n mod 10 ^ 6)).

(** ["%+d" % n] *)
Definition format_signed (n : Z) : string :=
  if n <? 0 then str_of_int n else String "+" (str_of_int n).

(** [str(d)]: the to-scientific-string conversion. *)
Definition Decimal_str (d : Decimal) : string :=
  let ds := str_of_int (d_int d) in
  let len := Z.of_nat (String.length ds) in
  let leftdigits := d_exp d + len in
  let dotplace := if (d_exp d <=? 0) && (-6 <? leftdigits) then leftdigits else 1 in
  let body :=
    if dotplace <=? 0 then "0." +:+ str_repeat "0" (Z.to_nat (- dotplace)) +:+ ds
    else if len <=? dotplace then ds +:+ str_repeat "0" (Z.to_nat (dotplace - len))
    else str_take (Z.to_nat dotplace) ds +:+ "." +:+ str_drop (Z.to_nat dotplace) ds in
  if leftdigits =? dotplace then body
  else body +:+ "E" +:+ format_signed (leftdigits - dotplace).

End Py.

(** Sequencing of computations that may raise. *)
Notation "x <- c1 ;; c2" := (Py.bind c1 (fun x => c2))
  (at level 100, c1 at next level, right associativity).
(** ** stage2/src/ctf/derive.py *)

Module Derive.
Import Py.

Section WithKeccak.

(** [Web3.keccak]: keccak-256 of a byte string. The hex rendering of its
    result carries no prefix of its own (the source prepends "0x"). *)
Variable keccak : list byte -> list byte.

Definition get_collection_id
    (parent_collection_id condition_id : string) (index_set : Z) : result string :=
  let parent_collection_id :=
    if negb (startswith "0x" parent_collection_id)
    then "0x" +:+ parent_collection_id else parent_collection_id in
  let condition_id :=
    if negb (startswith "0x" condition_id)
    then "0x" +:+ condition_id else condition_id in
  parent_bytes <-
    of_option ValueError (bytes_fromhex (zfill 64 (str_drop 2 parent_collection_id))) ;;
  condition_bytes <-
    of_option ValueError (bytes_fromhex (zfill 64 (str_drop 2 condition_id))) ;;
  index_bytes <- int_to_bytes 32 index_set ;;
  let packed := (parent_bytes ++ condition_bytes ++ index_bytes)%list in
  let collection_id := keccak packed in
  Ok ("0x" +:+ bytes_hex collection_id).

Definition get_position_id (collateral_token collection_id : string) : result string :=
  let collateral_token :=
    if negb (startswith "0x" collateral_token)
    then "0x" +:+ collateral_token else collateral_token in
  let collection_id :=
    if negb (startswith "0x" collection_id)
    then "0x" +:+ collection_id else collection_id in
  token_bytes <-
    of_option ValueError (bytes_fromhex (zfill 40 (str_drop 2 collateral_token))) ;;
  collection_bytes <-
    of_option ValueError (bytes_fromhex (zfill 64 (str_drop 2 collection_id))) ;;
  let packed := (token_bytes ++ collection_bytes)%list in
  let position_id := keccak packed in
  Ok ("0x" +:+ bytes_hex position_id).

End WithKeccak.

Definition normalize_hex (value : string) : string :=
  match value with
  | EmptyString => value
  | _ =>
      if startswith "0x" value then "0x" +:+ lower (str_drop 2 value)
      else "0x" +:+ lower value
  end.

End Derive.

(** ** Event logs

    A log as web3 hands it over. [topics], [data] and [transactionHash] are
    [bytes] (HexBytes) or [str]; the decoders test which with [isinstance].
    [address] is a [str]. *)

Module Log.
Import Py.

Inductive hexdata : Type :=
  | HBytes (b : list byte)
  | HStr (s : string).

Record t : Type := mk {
  address : string;
  topics : list hexdata;
  data : hexdata;
  transactionHash : hexdata;
  logIndex : Z;
  blockNumber : Z
}.

(** [x.hex() if isinstance(x, bytes) else x] *)
Definition hex_or_str (x : hexdata) : string :=
  match x with
  | HBytes b => bytes_hex b
  | HStr s => s
  end.

(** [topics[i]] *)
Definition topic (l : t) (i : nat) : result hexdata :=
  of_option IndexError (nth_error (topics l) i).

End Log.

(** ** stage2/src/ctf/trade_decoder.py and stage1/src/trade_decoder.py *)

Module TradeDecoder.
Import Py.

Definition CTF_EXCHANGE : string := "0x4bFb41d5B3570DeFd03C39a9A4D8dE6Bd8B8982E".
Definition NEGRISK_CTF_EXCHANGE : string := "0xC5d563A36AE78145C45a50134d48A1215220f80a".

Definition ORDER_FILLED_SIGNATURE : string :=
  "OrderFilled(bytes32,address,address,uint256,uint256,uint256,uint256,uint256)".

Record Trade : Type := mkTrade {
  tx_hash : string;
  log_index : Z;
  exchange : string;
  order_hash : string;
  maker : string;
  taker : string;
  maker_asset_id : string;
  taker_asset_id : string;
  maker_amount : string;
  taker_amount : string;
  fee : string;
  price : string;
  token_id : string;
  side : string
}.

(** The five [uint256] words of the data payload, read the way both
    decoders do: slices past the end of the payload are short or empty and
    [int.from_bytes] of an empty slice is 0, so no length check is made. *)
Record fill_words : Type := mkWords {
  w_maker_asset_id : Z;
  w_taker_asset_id : Z;
  w_maker_amount_filled : Z;
  w_taker_amount_filled : Z;
  w_fee : Z
}.

Definition read_words (data_bytes : list byte) : fill_words :=
  {| w_maker_asset_id := int_from_bytes (slice 0 32 data_bytes);
     w_taker_asset_id := int_from_bytes (slice 32 64 data_bytes);
     w_maker_amount_filled := int_from_bytes (slice 64 96 data_bytes);
     w_taker_amount_filled := int_from_bytes (slice 96 128 data_bytes);
     w_fee := int_from_bytes (slice 128 160 data_bytes) |}.

(** [f"{price:.6f}".rstrip('0').rstrip('.')] *)
Definition price_str (price : Decimal) : string :=
  rstrip "." (rstrip "0" (format_6f price)).

(** The payload as bytes (stage2 lines 77-82, stage1 lines 88-93). *)
Definition data_bytes_of (log : Log.t) : result (list byte) :=
  match Log.data log with
  | Log.HStr data =>
      let data := if startswith "0x" data then data else "0x" +:+ data in
      of_option ValueError (bytes_fromhex (str_drop 2 data))
  | Log.HBytes data => Ok data
  end.

Section WithWeb3.

(** [Web3.to_checksum_address]; [None] stands for the exception it raises
    on a string that is not an address. *)
Variable to_checksum_address : string -> option string.

(** [Web3.keccak] *)
Variable keccak : list byte -> list byte.

Definition checksum (s : string) : result string :=
  of_option ValueError (to_checksum_address s).

(** The part the two decoders share word for word: topics, data payload,
    side and price rule, and the returned record (stage2 lines 65-132,
    stage1 lines 76-143). *)
Definition decode_fields (log : Log.t) (exchange : string) : result Trade :=
  t1 <- Log.topic log 1 ;;
  let order_hash := Log.hex_or_str t1 in
  t2 <- Log.topic log 2 ;;
  maker <- checksum ("0x" +:+ str_last 40 (Log.hex_or_str t2)) ;;
  t3 <- Log.topic log 3 ;;
  taker <- checksum ("0x" +:+ str_last 40 (Log.hex_or_str t3)) ;;
  data_bytes <- data_bytes_of log ;;
  let maker_asset_id := int_from_bytes (slice 0 32 data_bytes) in
  let taker_asset_id := int_from_bytes (slice 32 64 data_bytes) in
  let maker_amount_filled := int_from_bytes (slice 64 96 data_bytes) in
  let taker_amount_filled := int_from_bytes (slice 96 128 data_bytes) in
  let fee := int_from_bytes (slice 128 160 data_bytes) in
  let '(side, token_id, price) :=
    if maker_asset_id =? 0 then
      ("BUY", "0x" +:+ format_064x taker_asset_id,
       if 0 <? taker_amount_filled
       then Decimal_div (Decimal_of_int maker_amount_filled)
                        (Decimal_of_int taker_amount_filled)
       else Decimal_of_int 0)
    else
      ("SELL", "0x" +:+ format_064x maker_asset_id,
       if 0 <? maker_amount_filled
       then Decimal_div (Decimal_of_int taker_amount_filled)
                        (Decimal_of_int maker_amount_filled)
       else Decimal_of_int 0) in
  let price_str := price_str price in
  Ok {| tx_hash := Log.hex_or_str (Log.transactionHash log);
        log_index := Log.logIndex log;
        exchange := exchange;
        order_hash := order_hash;
        maker := maker;
        taker := taker;
        maker_asset_id := str_of_int maker_asset_id;
        taker_asset_id := str_of_int taker_asset_id;
        maker_amount := str_of_int maker_amount_filled;
        taker_amount := str_of_int taker_amount_filled;
        fee := str_of_int fee;
        price := price_str;
        token_id := token_id;
        side := side |}.

(** stage2 [decode_order_filled]: the exchange is read off the log's
    address; an address of neither exchange is kept as it is. *)
Definition decode_order_filled (log : Log.t) : result Trade :=
  log_address <- checksum (Log.address log) ;;
  ctf <- checksum CTF_EXCHANGE ;;
  exchange <-
    (if String.eqb log_address ctf then Ok CTF_EXCHANGE
     else
       negrisk <- checksum NEGRISK_CTF_EXCHANGE ;;
       if String.eqb log_address negrisk then Ok NEGRISK_CTF_EXCHANGE
       else Ok log_address) ;;
  decode_fields log exchange.

Definition bytes_of_string (s : string) : list byte :=
  List.map byte_of_ascii (list_ascii_of_string s).

(** stage2 [ORDER_FILLED_TOPIC] *)
Definition ORDER_FILLED_TOPIC : string :=
  "0x" +:+ bytes_hex (keccak (bytes_of_string ORDER_FILLED_SIGNATURE)).

End WithWeb3.

End TradeDecoder.

Module Stage1.
Import Py TradeDecoder.

Section WithWeb3.

Variable to_checksum_address : string -> option string.
Variable keccak : list byte -> list byte.

(** [w3.eth.get_transaction_receipt(tx_hash)['logs']] *)
Variable get_transaction_receipt : string -> result (list Log.t).

Definition ORDER_FILLED_TOPIC : string :=
  bytes_hex (keccak (bytes_of_string ORDER_FILLED_SIGNATURE)).

Definition parse_order_filled_log (log : Log.t) (exchange : string) : result Trade :=
  decode_fields to_checksum_address log exchange.

(** One iteration of the loop of [decode_transaction]: the trades list
    after the log has been looked at. An exception outside the [try]
    leaves the loop; one inside it skips the log. *)
Definition decode_transaction_step (trades : list Trade) (log : Log.t)
  : result (list Trade) :=
  log_address <- checksum to_checksum_address (Log.address log) ;;
  ctf <- checksum to_checksum_address CTF_EXCHANGE ;;
  exchange <-
    (if String.eqb log_address ctf then Ok (Some CTF_EXCHANGE)
     else
       negrisk <- checksum to_checksum_address NEGRISK_CTF_EXCHANGE ;;
       if String.eqb log_address negrisk then Ok (Some NEGRISK_CTF_EXCHANGE)
       else Ok None) ;;
  match exchange with
  | None => Ok trades
  | Some exchange =>
      match Log.topics log with
      | [] => Ok trades
      | topic0 :: _ =>
          let topic0_hex := Log.hex_or_str topic0 in
          if negb (String.eqb (lower topic0_hex) (lower ORDER_FILLED_TOPIC))
          then Ok trades
          else
            t3 <- Log.topic log 3 ;;
            taker_address <-
              checksum to_checksum_address
                       ("0x" +:+ str_last 40 (Log.hex_or_str t3)) ;;
            if String.eqb (lower taker_address) (lower exchange) then Ok trades
            else
              match parse_order_filled_log log exchange with
              | Ok trade => Ok (trades ++ [trade])%list
              | Raise _ => Ok trades
              end
      end
  end.

Fixpoint decode_transaction_loop (trades : list Trade) (logs : list Log.t)
  : result (list Trade) :=
  match logs with
  | [] => Ok trades
  | log :: rest =>
      trades' <- decode_transaction_step trades log ;;
      decode_transaction_loop trades' rest
  end.

Definition decode_transaction (tx_hash : string) : result (list Trade) :=
  logs <- get_transaction_receipt tx_hash ;;
  decode_transaction_loop [] logs.

End WithWeb3.

End Stage1.

(** ** stage2/src/db/schema.py and stage2/src/db/store.py

    The tables of [init_db] that the indexer touches. A row carries the
    columns the modelled code writes or reads; the [created_at] and
    [updated_at] columns (filled from the database clock) are left out.
    The columns are declared NOT NULL and the modelled callers always give
    a value, so a column is a plain value. Foreign keys are not enforced
    (the schema never switches them on). *)

Module Store.
Import Py.

Record market_row : Type := mkMarket {
  market_id : Z;
  m_slug : string;
  condition_id : string;
  question_id : string;
  oracle : string;
  collateral_token : string;
  yes_token_id : string;
  no_token_id : string;
  enable_neg_risk : bool;
  status : string
}.

(** The dict [parse_trade_from_log] builds and [insert_trades] reads. *)
Record trade_record : Type := mkTradeRecord {
  r_market_id : Z;
  r_tx_hash : string;
  r_log_index : Z;
  r_block_number : Z;
  r_timestamp : string;
  r_exchange : string;
  r_order_hash : string;
  r_maker : string;
  r_taker : string;
  r_side : string;
  r_outcome : string;
  r_price : string;
  r_size : string;
  r_token_id : string;
  r_maker_asset_id : string;
  r_taker_asset_id : string;
  r_maker_amount : string;
  r_taker_amount : string;
  r_fee : string
}.

(** A row of [trades]: the AUTOINCREMENT [id] and the inserted columns. *)
Record trade_row : Type := mkTradeRow {
  trade_id : Z;
  row : trade_record
}.

Record db : Type := mkDb {
  markets : list market_row;
  trades : list trade_row;
  trades_seq : Z;
  sync_state : gmap string Z
}.

(** A connection: the database as the last commit left it ([committed]),
    the database as this connection sees it, with its open transaction
    ([working]), and, for the statements about durability, the [journal]
    of the states made durable by each commit so far, oldest first. *)
Record conn : Type := mkConn {
  committed : db;
  working : db;
  journal : list db
}.

(** [init_db] on a fresh file: empty tables, committed. *)
Definition empty_db : db := mkDb [] [] 0 ∅.
Definition init_db : conn := mkConn empty_db empty_db [empty_db].

(** [conn.commit()] *)
Definition commit (c : conn) : conn :=
  mkConn (working c) (working c) (journal c ++ [working c]).

(** UNIQUE(tx_hash, log_index) *)
Definition same_key (tx : string) (li : Z) (r : trade_row) : bool :=
  String.eqb (r_tx_hash (row r)) tx && (r_log_index (row r) =? li).

Definition key_taken (d : db) (tx : string) (li : Z) : bool :=
  existsb (same_key tx li) (trades d).

(** [cursor.execute("INSERT INTO trades ...")]: raises [IntegrityError]
    and leaves the table alone when the key is taken. The values are those
    the indexer binds: ints that fit SQLite's 64-bit INTEGER (an int beyond
    it makes [execute] raise [OverflowError]) and a timestamp of the form
    [format_timestamp] prints, which the TIMESTAMP column keeps as text. *)
Definition execute_insert_trade (d : db) (t : trade_record) : result db :=
  if key_taken d (r_tx_hash t) (r_log_index t) then Raise IntegrityError
  else
    Ok (mkDb (markets d)
             (trades d ++ [mkTradeRow (trades_seq d + 1) t])
             (trades_seq d + 1)
             (sync_state d)).

(** The loop of [insert_trades]. *)
Fixpoint insert_trades_loop (d : db) (inserted_count : Z) (ts : list trade_record)
  : db * Z :=
  match ts with
  | [] => (d, inserted_count)
  | trade :: rest =>
      match execute_insert_trade d trade with
      | Ok d' => insert_trades_loop d' (inserted_count + 1) rest
      | Raise _ => insert_trades_loop d inserted_count rest
      end
  end.

Definition insert_trades (c : conn) (ts : list trade_record) : Z * conn :=
  match ts with
  | [] => (0, c)
  | _ =>
      let '(d, inserted_count) := insert_trades_loop (working c) 0 ts in
      (inserted_count, commit (mkConn (committed c) d (journal c)))
  end.

(** [update_sync_state], for a [last_block] that fits SQLite's 64-bit
    INTEGER. *)
Definition update_sync_state (c : conn) (key : string) (last_block : Z) : conn :=
  let d := working c in
  let d' := mkDb (markets d) (trades d) (trades_seq d)
                 (<[key := last_block]> (sync_state d)) in
  commit (mkConn (committed c) d' (journal c)).

Definition get_sync_state (c : conn) (key : string) : option Z :=
  sync_state (working c) !! key.

(** [SELECT ... FROM markets WHERE yes_token_id = ? OR no_token_id = ?]
    followed by [fetchone()]. The columns are text with the default
    (binary) collation, so [=] is equality of strings. The row taken is
    the first match in table order; when several rows match, which of them
    SQLite returns is up to its query plan. *)
Definition fetch_market_by_token_id (c : conn) (token_id : string)
  : option market_row :=
  List.find (fun m => String.eqb (yes_token_id m) token_id
                      || String.eqb (no_token_id m) token_id)
            (markets (working c)).

End Store.

(** ** stage2/src/indexer/run.py *)

Module Indexer.
Import Py TradeDecoder Store.

(** The node behind [w3.eth]. *)
Record Web3 : Type := mkWeb3 {
  (** [get_logs({'fromBlock', 'toBlock', 'address', 'topics'})] *)
  get_logs : Z -> Z -> list string -> list string -> result (list Log.t);
  (** [get_block(n)['timestamp']] *)
  get_block : Z -> result Z
}.

Record index_result : Type := mkResult {
  from_block : Z;
  to_block : Z;
  total_logs : Z;
  parsed_trades : Z;
  inserted_trades : Z;
  skipped_trades : Z;
  sample_trades : list trade_record
}.

Section WithWeb3.

Variable to_checksum_address : string -> option string.
Variable keccak : list byte -> list byte.

(** [datetime.utcfromtimestamp(t).strftime('%Y-%m-%dT%H:%M:%S')]; [None]
    when the timestamp is out of the range of [datetime] and the call
    raises ([OverflowError], [ValueError] or [OSError], by value and
    platform). *)
Variable utc_strftime : Z -> option string.

Definition get_block_timestamp (w3 : Web3) (block_number : Z) (cache : gmap Z Z)
  : result (Z * gmap Z Z) :=
  match cache !! block_number with
  | Some timestamp => Ok (timestamp, cache)
  | None =>
      timestamp <- get_block w3 block_number ;;
      Ok (timestamp, <[block_number := timestamp]> cache)
  end.

(** One exception stands for those [utcfromtimestamp] raises. *)
Definition format_timestamp (unix_timestamp : Z) : result string :=
  of_option OverflowError (utc_strftime unix_timestamp).

(** [str(Decimal(amount) / Decimal(10**6))] for an [amount] written by
    [str] of a non-negative int. *)
Definition size_str (amount : string) : string :=
  Decimal_str (Decimal_div (Decimal_of_int (int_of_digits amount))
                           (Decimal_of_int (10 ^ 6))).

Definition parse_trade_from_log (log : Log.t) (timestamp : string) (c : conn)
  : result (option trade_record) :=
  trade <- decode_order_filled to_checksum_address log ;;
  let token_id := TradeDecoder.token_id trade in
  match fetch_market_by_token_id c token_id with
  | None => Ok None
  | Some market =>
      let outcome :=
        if String.eqb (lower token_id) (lower (yes_token_id market)) then "YES"
        else if String.eqb (lower token_id) (lower (no_token_id market)) then "NO"
        else "UNKNOWN" in
      Ok (Some
        {| r_market_id := market_id market;
           r_tx_hash := tx_hash trade;
           r_log_index := log_index trade;
           r_block_number := Log.blockNumber log;
           r_timestamp := timestamp;
           r_exchange := exchange trade;
           r_order_hash := order_hash trade;
           r_maker := maker trade;
           r_taker := taker trade;
           r_side := side trade;
           r_outcome := outcome;
           r_price := price trade;
           r_size := size_str (if String.eqb (side trade) "BUY"
                               then taker_amount trade else maker_amount trade);
           r_token_id := token_id;
           r_maker_asset_id := maker_asset_id trade;
           r_taker_asset_id := taker_asset_id trade;
           r_maker_amount := maker_amount trade;
           r_taker_amount := taker_amount trade;
           r_fee := fee trade |})
  end.

Definition fetch_logs (w3 : Web3) (from_block to_block : Z)
    (exchange_addresses : list string) : result (list Log.t) :=
  get_logs w3 from_block to_block exchange_addresses [ORDER_FILLED_TOPIC keccak].

(** The [for log in logs] loop of [run_indexer]; nothing in it catches an
    exception. *)
Fixpoint parse_logs (w3 : Web3) (c : conn) (logs : list Log.t)
    (timestamp_cache : gmap Z Z) (trades : list trade_record) (skipped : Z)
  : result (list trade_record * Z) :=
  match logs with
  | [] => Ok (trades, skipped)
  | log :: rest =>
      let block_number := Log.blockNumber log in
      looked_up <- get_block_timestamp w3 block_number timestamp_cache ;;
      let '(unix_timestamp, timestamp_cache) := looked_up in
      timestamp <- format_timestamp unix_timestamp ;;
      trade_record <- parse_trade_from_log log timestamp c ;;
      match trade_record with
      | Some r => parse_logs w3 c rest timestamp_cache (trades ++ [r])%list skipped
      | None => parse_logs w3 c rest timestamp_cache trades (skipped + 1)
      end
  end.

(** [run_indexer]: the outcome and the connection as the call leaves it. *)
Definition run_indexer (w3 : Web3) (c : conn) (from_block to_block : Z)
    (exchange_addresses : option (list string)) (sync_state_key : string)
  : result index_result * conn :=
  let exchange_addresses :=
    match exchange_addresses with
    | None => [CTF_EXCHANGE; NEGRISK_CTF_EXCHANGE]
    | Some l => l
    end in
  match fetch_logs w3 from_block to_block exchange_addresses with
  | Raise e => (Raise e, c)
  | Ok logs =>
      match parse_logs w3 c logs ∅ [] 0 with
      | Raise e => (Raise e, c)
      | Ok (trades, skipped) =>
          let '(inserted_count, c) := insert_trades c trades in
          let c := update_sync_state c sync_state_key to_block in
          (Ok {| from_block := from_block;
                 to_block := to_block;
                 total_logs := Z.of_nat (List.length logs);
                 parsed_trades := Z.of_nat (List.length trades);
                 inserted_trades := inserted_count;
                 skipped_trades := skipped;
                 sample_trades := firstn 5 trades |}, c)
      end
  end.

End WithWeb3.

End Indexer.

(** ** stage2/src/indexer/discovery.py *)

Module Discovery.
Import Py.

(** A decoded JSON value ([float] numbers are left out: no field the
    modelled code converts is one). *)
#[warnings="-register-all"] Inductive json : Type :=
  | JNull
  | JBool (b : bool)
  | JInt (n : Z)
  | JStr (s : string)
  | JList (l : list json)
  | JDict (l : list (string * json)).

(** Python truth value *)
Definition truthy (v : json) : bool :=
  match v with
  | JNull => false
  | JBool b => b
  | JInt n => negb (n =? 0)
  | JStr s => negb (String.eqb s "")
  | JList l => match l with [] => false | _ => true end
  | JDict l => match l with [] => false | _ => true end
  end.

(** [a or b] *)
Definition py_or (a b : json) : json := if truthy a then a else b.

(** [d.get(key, default)] *)
Definition get (d : gmap string json) (key : string) (default : json) : json :=
  match d !! key with
  | Some v => v
  | None => default
  end.

Definition USDC_ADDRESS : string := "0x2791Bca1f2de4661ED88A30C99A7a9449Aa84174".

Record market_info : Type := mkInfo {
  slug : json;
  condition_id : json;
  question_id : json;
  oracle : string;
  collateral_token : string;
  yes_token_id : string;
  no_token_id : string;
  enable_neg_risk : json;
  status : string;
  title : json;
  description : json
}.

(** A token id as the list of [clobTokenIds] holds it, once it has passed
    [isinstance(_, (int, str))]; [bool] is an [int] to Python. *)
Inductive token : Type :=
  | TInt (n : Z)
  | TStr (s : string).

Definition as_token (v : json) : option token :=
  match v with
  | JInt n => Some (TInt n)
  | JBool b => Some (TInt (if b then 1 else 0))
  | JStr s => Some (TStr s)
  | _ => None
  end.

(** Lines 150-159 for one of the two ids: a string of digits is read as a
    decimal number, a number is printed as "0x" and 64 hex digits, any
    other string is kept as it is. *)
Definition convert_token (t : token) : string :=
  let t :=
    match t with
    | TStr s => if isdigit s then TInt (int_of_digits s) else t
    | TInt _ => t
    end in
  match t with
  | TInt n => "0x" +:+ format_064x n
  | TStr s => s
  end.

Section WithJson.

(** [json.loads]; [None] when it raises. *)
Variable json_loads : string -> option json.

Definition parse_market_from_gamma (market_data : gmap string json) : market_info :=
  let condition_id := get market_data "conditionId" (JStr "") in
  let question_id := get market_data "questionID" (JStr "") in
  let clob_token_ids := get market_data "clobTokenIds" (JList []) in
  let clob_token_ids :=
    match clob_token_ids with
    | JStr s =>
        match json_loads s with
        | Some v => v
        | None => JList []
        end
    | _ => clob_token_ids
    end in
  let '(yes_token_id, no_token_id) :=
    match clob_token_ids with
    | JList (yes_token_id :: no_token_id :: _) =>
        match as_token yes_token_id, as_token no_token_id with
        | Some y, Some n => (convert_token y, convert_token n)
        | _, _ => ("", "")
        end
    | _ => ("", "")
    end in
  {| slug := get market_data "slug" (get market_data "id" (JStr ""));
     condition_id := condition_id;
     question_id := question_id;
     oracle := "";
     collateral_token := USDC_ADDRESS;
     yes_token_id := yes_token_id;
     no_token_id := no_token_id;
     enable_neg_risk :=
       py_or (get market_data "negRisk" (JBool false))
             (get market_data "enableNegRisk" (JBool false));
     status :=
       if truthy (get market_data "active" (JBool true))
          && negb (truthy (get market_data "closed" (JBool false)))
       then "active" else "inactive";
     title := get market_data "question" (get market_data "description" (JStr ""));
     description := get market_data "description" (JStr "") |}.

End WithJson.

End Discovery.

(** ** The vocabulary of the specification *)

Module Spec.
Import Py TradeDecoder Store.

(** [s] spells the bytes [bs] in hex, in either letter case. *)
Definition spells (s : string) (bs : list byte) : Prop := lower s = bytes_hex bs.

(** A hex string: hex digits only, no prefix. *)
Fixpoint all_hex (s : string) : bool :=
  match s with
  | EmptyString => true
  | String c s' =>
      match hexval c with Some _ => true | None => false end && all_hex s'
  end.

(** [s] left-padded with zeros to [width] characters. *)
Definition pad (width : nat) (s : string) : string :=
  str_repeat "0" (width - String.length s) +:+ s.

(** How [get_collection_id] and [get_position_id] read each of their
    hex-string arguments: prefix it when it has none, drop the prefix, fill
    with zeros to the width, read the bytes. *)
Definition arg_bytes (width : nat) (s : string) : option (list byte) :=
  bytes_fromhex
    (zfill width (str_drop 2 (if negb (startswith "0x" s) then "0x" +:+ s else s))).

(** The [k] low base-16 digits of [n], most significant first, in front
    of [acc]. *)
Fixpoint nibbles (k : nat) (n : N) (acc : list N) : list N :=
  match k with
  | O => acc
  | S k' => nibbles k' (n / 16)%N ((n mod 16)%N :: acc)
  end.

Definition all_nibbles (ds : list N) : Prop := List.Forall (fun d => (d < 16)%N) ds.

(** The collateral-per-token ratio: [a / b] in decimal arithmetic, zero
    when the denominator is zero. *)
Definition ratio (a b : Z) : Decimal :=
  if b =? 0 then Decimal_of_int 0
  else Decimal_div (Decimal_of_int a) (Decimal_of_int b).

(** The side and price rule, on the five words of a payload. *)
Definition side_price_rule (w : fill_words) (t : Trade) : Prop :=
  (w_maker_asset_id w = 0 ->
     side t = "BUY" /\
     token_id t = "0x" +:+ format_064x (w_taker_asset_id w) /\
     price t = price_str (ratio (w_maker_amount_filled w) (w_taker_amount_filled w))) /\
  (w_maker_asset_id w <> 0 ->
     side t = "SELL" /\
     token_id t = "0x" +:+ format_064x (w_maker_asset_id w) /\
     price t = price_str (ratio (w_taker_amount_filled w) (w_maker_amount_filled w))).

(** Numerator and denominator of the price: collateral amount over token
    amount. *)
Definition price_terms (w : fill_words) : Z * Z :=
  if w_maker_asset_id w =? 0
  then (w_maker_amount_filled w, w_taker_amount_filled w)
  else (w_taker_amount_filled w, w_maker_amount_filled w).

(** The price in millionths: the integer [f"{price:.6f}"] prints, without
    its decimal point. *)
Definition millionths (a b : Z) : Z := rescale 6 (ratio a b).

(** A decimal numeral split at its point: what stands before the first
    ".", and what stands after it when there is one. *)
Fixpoint split_point (s : string) : string * option string :=
  match s with
  | EmptyString => (EmptyString, None)
  | String c s' =>
      if Ascii.eqb c "." then (EmptyString, Some s')
      else let '(i, f) := split_point s' in (String c i, f)
  end.

(** The number a price string spells, in millionths: digits, or digits, a
    point and one to six digits; [None] for any other string. *)
Definition read_millionths (s : string) : option Z :=
  match split_point s with
  | (i, None) => if isdigit i then Some (int_of_digits i * 10 ^ 6) else None
  | (i, Some f) =>
      if isdigit i && isdigit f && (String.length f <=? 6)%nat
      then Some (int_of_digits i * 10 ^ 6
                 + int_of_digits f * 10 ^ Z.of_nat (6 - String.length f))
      else None
  end.

(** Concrete scenario 1. *)
Definition scenario_1 (w : fill_words) : Prop :=
  w_maker_asset_id w = 0 /\ w_taker_asset_id w = 1 /\
  w_maker_amount_filled w = 1000000 /\ w_taker_amount_filled w = 2000000.

(** A log both decoders read to the end: four topics or more, the two
    address-bearing topics accepted by [to_checksum_address], a payload
    that is bytes or a string of hex. *)
Definition readable (to_checksum_address : string -> option string) (log : Log.t)
  : Prop :=
  exists t0 t1 t2 t3 rest,
    Log.topics log = t0 :: t1 :: t2 :: t3 :: rest /\
    is_Some (to_checksum_address ("0x" +:+ str_last 40 (Log.hex_or_str t2))) /\
    is_Some (to_checksum_address ("0x" +:+ str_last 40 (Log.hex_or_str t3))) /\
    exists data_bytes, data_bytes_of log = Ok data_bytes.

Definition key_of (r : trade_row) : string * Z :=
  (r_tx_hash (row r), r_log_index (row r)).

(** The invariant that UNIQUE(tx_hash, log_index) keeps. *)
Definition unique_keys (d : db) : Prop := List.NoDup (List.map key_of (trades d)).


Definition yes_or_no (r : trade_record) : Prop :=
  r_outcome r = "YES" \/ r_outcome r = "NO".

(** The states made durable between two states of a connection. *)
Definition durable_during (c c' : conn) : list db :=
  skipn (List.length (journal c)) (journal c').

(** One atomic unit of work: every state a run makes durable holds both
    the run's trades and the advanced watermark. *)
Definition one_atomic_unit (c c' : conn) (key : string) (to : Z) : Prop :=
  forall d, List.In d (durable_during c c') ->
    trades d = trades (working c') /\ sync_state d !! key = Some to.

End Spec.

(** ** Sample data *)

Module Demo.
Import Py TradeDecoder Store Indexer.

(** A 32-byte big-endian word. *)
Definition word (n : Z) : list byte :=
  match int_to_bytes 32 n with Ok b => b | Raise _ => [] end.

(** An address as an indexed topic: left-padded to 32 bytes. *)
Definition address_topic (a : string) : Log.hexdata :=
  Log.HBytes (repeat x00 12 ++
              match bytes_fromhex (str_drop 2 a) with Some b => b | None => [] end)%list.

(** Stand-ins for the library functions. *)
Definition cs (s : string) : option string := Some s.
Definition keccak (bs : list byte) : list byte := firstn 32 (rev bs ++ repeat x00 32).
Definition strf (_ : Z) : option string := Some "2024-01-01T00:00:00".

(** The topic of the event signature, under the stand-in hash. *)
Definition signature_topic : Log.hexdata :=
  Log.HBytes (keccak (bytes_of_string ORDER_FILLED_SIGNATURE)).

(** The payload of concrete scenario 1, in a log of the CTF exchange whose
    taker is the exchange itself. *)
Definition self_fill_log : Log.t :=
  Log.mk CTF_EXCHANGE
    [signature_topic; Log.HBytes (repeat xbb 32);
     address_topic NEGRISK_CTF_EXCHANGE; address_topic CTF_EXCHANGE]
    (Log.HBytes (word 0 ++ word 1 ++ word 1000000 ++ word 2000000 ++ word 0)%list)
    (Log.HBytes (repeat xcc 32)) 5 100.

(** The same payload in a log of the NegRisk exchange whose taker is the
    NegRisk exchange. *)
Definition negrisk_self_fill_log : Log.t :=
  Log.mk NEGRISK_CTF_EXCHANGE
    [signature_topic; Log.HBytes (repeat xbb 32);
     address_topic CTF_EXCHANGE; address_topic NEGRISK_CTF_EXCHANGE]
    (Log.HBytes (word 0 ++ word 1 ++ word 1000000 ++ word 2000000 ++ word 0)%list)
    (Log.HBytes (repeat xcc 32)) 6 100.

(** A log with three topics only. *)
Definition short_log : Log.t :=
  Log.mk CTF_EXCHANGE
    [signature_topic; Log.HBytes (repeat xbb 32);
     address_topic NEGRISK_CTF_EXCHANGE]
    (Log.HBytes []) (Log.HBytes (repeat xdd 32)) 4 100.

Definition market_1 : market_row :=
  {| market_id := 1; m_slug := "m"; condition_id := "0xc0"; question_id := "0xq0";
     oracle := ""; collateral_token := "0x2791Bca1f2de4661ED88A30C99A7a9449Aa84174";
     yes_token_id := "0x0000000000000000000000000000000000000000000000000000000000000001";
     no_token_id := "0x0000000000000000000000000000000000000000000000000000000000000002";
     enable_neg_risk := false; status := "active" |}.

Definition db_1 : db := mkDb [market_1] [] 0 ∅.
Definition conn_1 : conn := mkConn db_1 db_1 [db_1].

(** A market whose position ids are short, to show letter case. *)
Definition market_ab : market_row :=
  {| market_id := 7; m_slug := "ab"; condition_id := "0xc1"; question_id := "0xq1";
     oracle := ""; collateral_token := "0x2791Bca1f2de4661ED88A30C99A7a9449Aa84174";
     yes_token_id := "0xab"; no_token_id := "0xcd";
     enable_neg_risk := false; status := "active" |}.

Definition conn_ab : conn :=
  let d := mkDb [market_ab] [] 0 ∅ in mkConn d d [d].

(** A market whose YES position id is stored with upper-case hex letters,
    as [parse_market_from_gamma] leaves an id that Gamma gives in hex. *)
Definition market_upper : market_row :=
  {| market_id := 9; m_slug := "upper"; condition_id := "0xc2"; question_id := "0xq2";
     oracle := ""; collateral_token := "0x2791Bca1f2de4661ED88A30C99A7a9449Aa84174";
     yes_token_id := "0x00000000000000000000000000000000000000000000000000000000000000AB";
     no_token_id := "0x00000000000000000000000000000000000000000000000000000000000000CD";
     enable_neg_risk := false; status := "active" |}.

Definition conn_upper : conn :=
  let d := mkDb [market_upper] [] 0 ∅ in mkConn d d [d].

(** A fill of that market's YES token: the payload words 0, 0xab, 1000000,
    2000000, 0. *)
Definition fill_log_ab : Log.t :=
  Log.mk CTF_EXCHANGE
    [signature_topic; Log.HBytes (repeat xbb 32);
     address_topic NEGRISK_CTF_EXCHANGE; Log.HBytes (repeat xee 32)]
    (Log.HBytes (word 0 ++ word 171 ++ word 1000000 ++ word 2000000 ++ word 0)%list)
    (Log.HBytes (repeat xcc 32)) 7 100.

(** A node that answers every query with the same logs and timestamp. *)
Definition node (logs : list Log.t) : Web3 :=
  {| get_logs := fun _ _ _ _ => Ok logs; get_block := fun _ => Ok 1704067200 |}.

Definition run (logs : list Log.t) (c : conn) : result index_result * conn :=
  run_indexer cs keccak strf (node logs) c 100 100 None "trade_indexer".

Definition usdc_bytes : list byte :=
  match bytes_fromhex "2791bca1f2de4661ed88a30c99a7a9449aa84174" with
  | Some b => b
  | None => []
  end.

(** Market metadata whose two token ids are hex strings. *)
Definition gamma_market_hex : gmap string Discovery.json :=
  {[ "clobTokenIds" :=
       Discovery.JList [Discovery.JStr "0xABCDEF"; Discovery.JStr "0Xab"] ]}.

(** Market metadata whose two token ids are decimal strings. *)
Definition gamma_market_dec : gmap string Discovery.json :=
  {[ "clobTokenIds" :=
       Discovery.JList [Discovery.JStr "255"; Discovery.JStr "4096"] ]}.

End Demo.

(** ** stage2/src/db/store.py: the read side

    The queries of the API over the [markets] and [trades] tables. A
    Python int bound to a statement parameter has to fit SQLite's 64-bit
    INTEGER: [execute] raises [OverflowError] otherwise. *)

Module Queries.
Import Py Store.

Definition fits_int64 (n : Z) : bool := (- 2 ^ 63 <=? n) && (n <? 2 ^ 63).

(** An int among the parameters of [execute]. *)
Definition bind_int (n : Z) : result Z :=
  if fits_int64 n then Ok n else Raise OverflowError.

(** [if x is not None: params.append(x)] *)
Definition bind_opt_int (o : option Z) : result (option Z) :=
  match o with
  | None => Ok None
  | Some n => x <- bind_int n ;; Ok (Some x)
  end.

Definition fits_opt (o : option Z) : bool :=
  match o with
  | Some n => fits_int64 n
  | None => true
  end.

(** A character that text spelling a number can hold: a digit, a sign,
    the point, the exponent letter, white space. *)
Definition numeric_char (c : ascii) : bool :=
  is_digit c || is_space c || Ascii.eqb c "+" || Ascii.eqb c "-"
  || Ascii.eqb c "." || Ascii.eqb c "e" || Ascii.eqb c "E".

(** Text with a character that no number holds. A column of NUMERIC
    affinity (the TIMESTAMP and BOOLEAN columns of [init_db]) keeps such
    text as it is; other text it turns into the number it spells, when it
    spells one. *)
Definition kept_as_text (s : string) : bool :=
  existsb (fun c => negb (numeric_char c)) (list_ascii_of_string s).

(** The clauses ["block_number >= ?"] and ["block_number <= ?"], each
    present when its bound is not [None]. *)
Definition block_clauses (from_block to_block : option Z) (r : trade_row) : bool :=
  match from_block with
  | Some f => f <=? r_block_number (row r)
  | None => true
  end &&
  match to_block with
  | Some t => r_block_number (row r) <=? t
  | None => true
  end.

(** [ORDER BY block_number ASC, log_index ASC]: [a] may come before [b]. *)
Definition before (a b : trade_row) : bool :=
  (r_block_number (row a) <? r_block_number (row b))
  || ((r_block_number (row a) =? r_block_number (row b))
      && (r_log_index (row a) <=? r_log_index (row b))).

Fixpoint insert_sorted (r : trade_row) (l : list trade_row) : list trade_row :=
  match l with
  | [] => [r]
  | x :: l' => if before r x then r :: l else x :: insert_sorted r l'
  end.

(** The sorter. Rows equal on both columns stay in the order of the scan,
    which is the order of their ids. *)
Definition order_by (l : list trade_row) : list trade_row :=
  fold_right insert_sorted [] l.

(** [LIMIT ? OFFSET ?]: a negative limit is no limit, a negative offset is
    no offset. *)
Definition limit_offset (limit offset : Z) (l : list trade_row) : list trade_row :=
  let l := skipn (Z.to_nat offset) l in
  if limit <? 0 then l else firstn (Z.to_nat limit) l.

(** The SELECT of [fetch_trades_for_market] and [fetch_trades_for_token],
    with the first clause of its WHERE as [clause]. *)
Definition select_trades (c : conn) (clause : trade_row -> bool)
    (from_block to_block : option Z) (limit cursor : Z) : list trade_row :=
  limit_offset limit cursor
    (order_by
       (List.filter (fun r => clause r && block_clauses from_block to_block r)
                    (trades (working c)))).

Definition fetch_trades_for_market (c : conn) (market_id : Z) (limit cursor : Z)
    (from_block to_block : option Z) : result (list trade_row) :=
  market_id <- bind_int market_id ;;
  from_block <- bind_opt_int from_block ;;
  to_block <- bind_opt_int to_block ;;
  limit <- bind_int limit ;;
  cursor <- bind_int cursor ;;
  Ok (select_trades c (fun r => r_market_id (row r) =? market_id)
                    from_block to_block limit cursor).

Definition fetch_trades_for_token (c : conn) (token_id : string) (limit cursor : Z)
    (from_block to_block : option Z) : result (list trade_row) :=
  from_block <- bind_opt_int from_block ;;
  to_block <- bind_opt_int to_block ;;
  limit <- bind_int limit ;;
  cursor <- bind_int cursor ;;
  Ok (select_trades c (fun r => String.eqb (r_token_id (row r)) token_id)
                    from_block to_block limit cursor).

(** [SELECT ... FROM markets WHERE slug = ?] and [fetchone()]. *)
Definition fetch_market_by_slug (c : conn) (slug : string) : option market_row :=
  List.find (fun m => String.eqb (m_slug m) slug) (markets (working c)).

End Queries.

(** ** stage2/src/api/server.py

    A handler either returns its value or answers with a status code: the
    code of the [HTTPException] it raises, 422 when a query parameter
    fails the bounds declared with [Query], 500 when another exception
    leaves it. The module's global [db_conn] is an argument. *)

Module Api.
Import Py Store Queries.

Inductive http (A : Type) : Type :=
  | Respond (a : A)
  | Status (code : Z).
Arguments Respond {A} a.
Arguments Status {A} code.

Definition get_db_connection (db_conn : option conn) : http conn :=
  match db_conn with
  | None => Status 500
  | Some c => Respond c
  end.

(** [ge=lo] and [le=hi] on a value that was given. *)
Definition in_bounds (ge : Z) (le : option Z) (v : Z) : bool :=
  (ge <=? v) && match le with Some hi => v <=? hi | None => true end.

(** [limit], [cursor], [fromBlock] and [toBlock] as the framework hands
    them to the handler, or [None] when one is out of bounds: [limit] and
    [cursor] take their defaults when absent. *)
Definition validate_paging (limit cursor fromBlock toBlock : option Z)
  : option (Z * Z * option Z * option Z) :=
  let ok (ge : Z) (le : option Z) (o : option Z) :=
    match o with Some v => in_bounds ge le v | None => true end in
  if ok 1 (Some 1000) limit && ok 0 None cursor
     && ok 0 None fromBlock && ok 0 None toBlock
  then Some (default 100 limit, default 0 cursor, fromBlock, toBlock)
  else None.

Definition get_market (db_conn : option conn) (slug : string) : http market_row :=
  match get_db_connection db_conn with
  | Status code => Status code
  | Respond c =>
      match fetch_market_by_slug c slug with
      | None => Status 404
      | Some market => Respond market
      end
  end.

Definition get_market_trades (db_conn : option conn) (slug : string)
    (limit cursor fromBlock toBlock : option Z) : http (list trade_row) :=
  match validate_paging limit cursor fromBlock toBlock with
  | None => Status 422
  | Some (limit, cursor, fromBlock, toBlock) =>
      match get_db_connection db_conn with
      | Status code => Status code
      | Respond c =>
          match fetch_market_by_slug c slug with
          | None => Status 404
          | Some market =>
              match fetch_trades_for_market c (market_id market) limit cursor
                                            fromBlock toBlock with
              | Ok trades => Respond trades
              | Raise _ => Status 500
              end
          end
      end
  end.

Definition get_token_trades (db_conn : option conn) (token_id : string)
    (limit cursor fromBlock toBlock : option Z) : http (list trade_row) :=
  match validate_paging limit cursor fromBlock toBlock with
  | None => Status 422
  | Some (limit, cursor, fromBlock, toBlock) =>
      match get_db_connection db_conn with
      | Status code => Status code
      | Respond c =>
          match fetch_trades_for_token c token_id limit cursor fromBlock toBlock with
          | Ok trades => Respond trades
          | Raise _ => Status 500
          end
      end
  end.

End Api.

(** ** stage2/src/db/store.py: the write side of the catalog

    The [events] and [markets] tables of [init_db] as [upsert_event],
    [upsert_market] and [fetch_event_by_slug] see them. The argument of an
    upsert is the tuple of values bound to its INSERT, one per column: what
    [dict.get] gives for each key, [None] for an absent key, with [False]
    and ['active'] standing in for an absent [enable_neg_risk] and
    [status]. A text column takes [None] or a [str], [event_id] [None] or
    an [int], [enable_neg_risk] [None] or a [bool]. The argument [now] is
    the text CURRENT_TIMESTAMP gives when the statement runs. *)

Module Catalog.
Import Py Queries.

(** What a TIMESTAMP column holds. The column has NUMERIC affinity:
    [Numeral s] is what SQLite makes of the text [s] when every character
    of [s] can stand in a number, namely the number [s] spells (read back
    as an [int] or a [float]) when it spells one, and [s] itself
    otherwise. *)
Inductive stored : Type :=
  | Null
  | Text (s : string)
  | Numeral (s : string).

Definition numeric_affinity (v : option string) : stored :=
  match v with
  | None => Null
  | Some s => if kept_as_text s then Text s else Numeral s
  end.

Record event_row : Type := mkEvent {
  ev_id : Z;
  ev_slug : string;
  ev_title : option string;
  ev_description : option string;
  ev_start_date : stored;
  ev_end_date : stored;
  ev_enable_neg_risk : option bool;
  ev_created_at : stored;
  ev_updated_at : stored
}.

Record listing : Type := mkListing {
  l_id : Z;
  l_event_id : option Z;
  l_slug : string;
  l_condition_id : string;
  l_question_id : string;
  l_oracle : string;
  l_collateral_token : string;
  l_yes_token_id : string;
  l_no_token_id : string;
  l_enable_neg_risk : option bool;
  l_status : option string;
  l_title : option string;
  l_description : option string;
  l_created_at : stored;
  l_updated_at : stored
}.

(** The two tables, each with the counter AUTOINCREMENT keeps for it. *)
Record tables : Type := mkTables {
  events : list event_row;
  events_seq : Z;
  listings : list listing;
  listings_seq : Z
}.

Definition empty : tables := mkTables [] 0 [] 0.

(** The values bound to the INSERT of [upsert_event]. *)
Record event_values : Type := mkEventValues {
  e_slug : option string;
  e_title : option string;
  e_description : option string;
  e_start_date : option string;
  e_end_date : option string;
  e_enable_neg_risk : option bool
}.

(** The values bound to the INSERT of [upsert_market]. *)
Record market_values : Type := mkMarketValues {
  m_event_id : option Z;
  m_slug : option string;
  m_condition_id : option string;
  m_question_id : option string;
  m_oracle : option string;
  m_collateral_token : option string;
  m_yes_token_id : option string;
  m_no_token_id : option string;
  m_enable_neg_risk : option bool;
  m_status : option string;
  m_title : option string;
  m_description : option string
}.

(** A NOT NULL column. *)
Definition not_null (v : option string) : result string :=
  of_option IntegrityError v.

(** [INSERT INTO events ... ON CONFLICT(slug) DO UPDATE ...], the SELECT
    of the id and the commit. A statement that succeeds takes the next
    value of the counter whether it inserts or updates; a row that is
    updated keeps its id and its [created_at], and [updated_at] is set on
    both paths. A statement that fails changes nothing. *)
Definition upsert_event (t : tables) (now : string) (event : event_values)
  : result Z * tables :=
  match not_null (e_slug event) with
  | Raise e => (Raise e, t)
  | Ok slug =>
      let fresh (id : Z) (created_at : stored) :=
        mkEvent id slug (e_title event) (e_description event)
                (numeric_affinity (e_start_date event))
                (numeric_affinity (e_end_date event))
                (e_enable_neg_risk event)
                created_at (numeric_affinity (Some now)) in
      match List.find (fun r => String.eqb (ev_slug r) slug) (events t) with
      | Some old =>
          (Ok (ev_id old),
           mkTables
             (List.map (fun r => if String.eqb (ev_slug r) slug
                                 then fresh (ev_id r) (ev_created_at r)
                                 else r)
                       (events t))
             (events_seq t + 1) (listings t) (listings_seq t))
      | None =>
          (Ok (events_seq t + 1),
           mkTables (events t
                     ++ [fresh (events_seq t + 1) (numeric_affinity (Some now))])
                    (events_seq t + 1) (listings t) (listings_seq t))
      end
  end.

(** The columns of [upsert_market] that are NOT NULL, in the order of the
    INSERT. *)
Definition market_columns (market : market_values)
  : result (string * string * string * string * string * string * string) :=
  slug <- not_null (m_slug market) ;;
  condition_id <- not_null (m_condition_id market) ;;
  question_id <- not_null (m_question_id market) ;;
  oracle <- not_null (m_oracle market) ;;
  collateral_token <- not_null (m_collateral_token market) ;;
  yes_token_id <- not_null (m_yes_token_id market) ;;
  no_token_id <- not_null (m_no_token_id market) ;;
  Ok (slug, condition_id, question_id, oracle, collateral_token,
      yes_token_id, no_token_id).

(** [INSERT INTO markets ... ON CONFLICT(condition_id) DO UPDATE ...], the
    SELECT of the id and the commit. The conflict clause names
    [condition_id] only: a slug that another row has makes the statement
    fail, on the insert and on the update alike. The update sets every
    column of the INSERT and [updated_at]; [id] and [created_at] stay. *)
Definition upsert_market (t : tables) (now : string) (market : market_values)
  : result Z * tables :=
  match bind_opt_int (m_event_id market), market_columns market with
  | Raise e, _ => (Raise e, t)
  | _, Raise e => (Raise e, t)
  | Ok event_id,
    Ok (slug, condition_id, question_id, oracle, collateral_token,
        yes_token_id, no_token_id) =>
      let fresh (id : Z) (created_at : stored) :=
        mkListing id event_id slug condition_id question_id oracle collateral_token
                  yes_token_id no_token_id (m_enable_neg_risk market)
                  (m_status market) (m_title market) (m_description market)
                  created_at (numeric_affinity (Some now)) in
      match List.find (fun r => String.eqb (l_condition_id r) condition_id)
                      (listings t) with
      | Some old =>
          if existsb (fun r => String.eqb (l_slug r) slug
                               && negb (String.eqb (l_condition_id r) condition_id))
                     (listings t)
          then (Raise IntegrityError, t)
          else
            (Ok (l_id old),
             mkTables (events t) (events_seq t)
               (List.map (fun r => if String.eqb (l_condition_id r) condition_id
                                   then fresh (l_id r) (l_created_at r) else r)
                         (listings t))
               (listings_seq t + 1))
      | None =>
          if existsb (fun r => String.eqb (l_slug r) slug) (listings t)
          then (Raise IntegrityError, t)
          else
            (Ok (listings_seq t + 1),
             mkTables (events t) (events_seq t)
                      (listings t
                       ++ [fresh (listings_seq t + 1) (numeric_affinity (Some now))])
                      (listings_seq t + 1))
      end
  end.

(** [fetch_event_by_slug]: the row, with [bool(enable_neg_risk)]. *)
Definition fetch_event_by_slug (t : tables) (slug : string) : option event_row :=
  match List.find (fun r => String.eqb (ev_slug r) slug) (events t) with
  | Some r =>
      Some (mkEvent (ev_id r) (ev_slug r) (ev_title r) (ev_description r)
                    (ev_start_date r) (ev_end_date r)
                    (Some (default false (ev_enable_neg_risk r)))
                    (ev_created_at r) (ev_updated_at r))
  | None => None
  end.

End Catalog.

(** ** stage2/src/indexer/run.py: indexing one transaction *)

Module SingleTx.
Import Py TradeDecoder Store Indexer.

Section WithWeb3.

Variable to_checksum_address : string -> option string.
Variable keccak : list byte -> list byte.
Variable utc_strftime : Z -> option string.

(** [w3.eth.get_transaction_receipt(tx_hash)['blockNumber']] *)
Variable receipt_block_number : string -> result Z.

Definition get_transaction_block (tx_hash : string) : result Z :=
  receipt_block_number tx_hash.

(** The sync-state key is left to its default. *)
Definition index_single_transaction (w3 : Web3) (c : conn) (tx_hash : string)
    (exchange_addresses : option (list string)) : result index_result * conn :=
  match get_transaction_block tx_hash with
  | Raise e => (Raise e, c)
  | Ok block_number =>
      run_indexer to_checksum_address keccak utc_strftime w3 c
                  block_number block_number exchange_addresses "trade_indexer"
  end.

End WithWeb3.

End SingleTx.

(** ** stage2/src/ctf/derive.py: condition id and binary positions *)

Module Positions.
Import Py Derive.

Record BinaryPositions : Type := mkPositions {
  position_yes : string;
  position_no : string;
  collection_yes : string;
  collection_no : string
}.

(** The default of [parent_collection_id]. *)
Definition ZERO_COLLECTION : string :=
  "0x0000000000000000000000000000000000000000000000000000000000000000".

Section WithLibraries.

Variable keccak : list byte -> list byte.
Variable to_checksum_address : string -> option string.

(** [eth_abi.encode(['address', 'bytes32', 'uint256'], [a, b, n])] *)
Variable abi_encode : string -> list byte -> Z -> result (list byte).

Definition get_condition_id (oracle question_id : string) (outcome_slot_count : Z)
  : result string :=
  let oracle :=
    if negb (startswith "0x" oracle) then "0x" +:+ oracle else oracle in
  let question_id :=
    if negb (startswith "0x" question_id) then "0x" +:+ question_id else question_id in
  oracle_address <- of_option ValueError (to_checksum_address oracle) ;;
  question_bytes <-
    of_option ValueError (bytes_fromhex (zfill 64 (str_drop 2 question_id))) ;;
  encoded <- abi_encode oracle_address question_bytes outcome_slot_count ;;
  let condition_id := keccak encoded in
  Ok ("0x" +:+ bytes_hex condition_id).

Definition derive_binary_positions (oracle question_id collateral_token : string)
    (condition_id : option string) (parent_collection_id : string)
  : result BinaryPositions :=
  condition_id <-
    match condition_id with
    | None => get_condition_id oracle question_id 2
    | Some condition_id => Ok condition_id
    end ;;
  collection_yes <- get_collection_id keccak parent_collection_id condition_id 1 ;;
  collection_no <- get_collection_id keccak parent_collection_id condition_id 2 ;;
  position_yes <- get_position_id keccak collateral_token collection_yes ;;
  position_no <- get_position_id keccak collateral_token collection_no ;;
  Ok {| position_yes := position_yes;
        position_no := position_no;
        collection_yes := collection_yes;
        collection_no := collection_no |}.

End WithLibraries.

End Positions.

(** ** stage1/src/indexer/gamma.py *)

Module Gamma.
Import Py Discovery.

(** The values a [for] loop draws from a decoded JSON value: the elements
    of a list, the keys of a dict, the characters of a string. [None]
    stands for the [TypeError] on a value that cannot be iterated. *)
Definition iterate (v : json) : option (list json) :=
  match v with
  | JList l => Some l
  | JStr s => Some (List.map (fun c => JStr (String c "")) (list_ascii_of_string s))
  | JDict l => Some (List.map (fun kv => JStr (fst kv)) l)
  | _ => None
  end.

(** The body of the loop over the token ids (lines 187-193); [bool] is an
    [int] to [isinstance]. *)
Definition format_token (token_id : json) : json :=
  match token_id with
  | JStr s =>
      if isdigit s then JStr ("0x" +:+ format_064x (int_of_digits s)) else token_id
  | JInt n => JStr ("0x" +:+ format_064x n)
  | JBool b => JStr ("0x" +:+ format_064x (if b then 1 else 0))
  | _ => token_id
  end.

(** The dict [extract_market_params] returns; the keys [yes_token_id] and
    [no_token_id] are present when there are two token ids or more. *)
Record market_params : Type := mkParams {
  p_id : json;
  p_slug : json;
  p_question : json;
  p_description : json;
  p_end_date_iso : json;
  p_condition_id : json;
  p_question_id : json;
  p_clob_token_ids : list json;
  p_yes_token_id : option json;
  p_no_token_id : option json;
  p_market_slug : json;
  p_umaBond : json;
  p_umaReward : json
}.

Section WithJson.

Variable json_loads : string -> option json.

Definition extract_market_params (market_data : gmap string json)
  : option market_params :=
  let slug := get market_data "slug" (JStr "") in
  let clob_token_ids :=
    get market_data "clobTokenIds" (get market_data "tokenIds" (JList [])) in
  let clob_token_ids :=
    match clob_token_ids with
    | JStr s =>
        match json_loads s with
        | Some v => v
        | None => JList []
        end
    | _ => clob_token_ids
    end in
  match iterate clob_token_ids with
  | None => None
  | Some token_ids =>
      let formatted_token_ids := List.map format_token token_ids in
      Some {| p_id := get market_data "id" (JStr "");
              p_slug := slug;
              p_question := get market_data "question" (JStr "");
              p_description := get market_data "description" (JStr "");
              p_end_date_iso :=
                get market_data "endDateIso" (get market_data "end_date_iso" (JStr ""));
              p_condition_id :=
                get market_data "conditionId" (get market_data "condition_id" (JStr ""));
              p_question_id :=
                get market_data "questionId" (get market_data "question_id" (JStr ""));
              p_clob_token_ids := formatted_token_ids;
              p_yes_token_id :=
                match formatted_token_ids with
                | y :: _ :: _ => Some y
                | _ => None
                end;
              p_no_token_id :=
                match formatted_token_ids with
                | _ :: n :: _ => Some n
                | _ => None
                end;
              p_market_slug := get market_data "market_slug" slug;
              p_umaBond := get market_data "umaBond" (JStr "");
              p_umaReward := get market_data "umaReward" (JStr "") |}
  end.

End WithJson.

End Gamma.

(** ** stage1/src/market_decoder.py

    The module imports [derive_binary_positions] from stage1's own
    [src.ctf.derive], which is not among the sources: it is a parameter
    here, applied to oracle, question id, collateral token and condition
    id as the calls give them. *)

Module MarketDecoder.
Import Py TradeDecoder Discovery Gamma Positions.

Definition USDC_ADDRESS : string := "0x2791Bca1f2de4661ED88A30C99A7a9449Aa84174".
Definition CONDITIONAL_TOKENS : string := "0x4D97DCd97eC945f40cF65F87097ACe5EA0476045".
Definition UMA_ORACLE : string := "0x157Ce2d672854c848c9b79C49a8Cc6cc89176a49".

Definition CONDITION_PREPARATION_SIGNATURE : string :=
  "ConditionPreparation(bytes32,address,bytes32,uint256)".

(** What leaves a function of this module other than its value. *)
Inductive raised : Type :=
  | Builtin (e : exn)
  | AttributeError
  | TypeError.

Inductive outcome (A : Type) : Type :=
  | Returns (a : A)
  | Raises (r : raised).
Arguments Returns {A} a.
Arguments Raises {A} r.

Definition lift {A} (r : result A) : outcome A :=
  match r with
  | Ok a => Returns a
  | Raise e => Raises (Builtin e)
  end.

Definition and_then {A B} (o : outcome A) (k : A -> outcome B) : outcome B :=
  match o with
  | Returns a => k a
  | Raises r => Raises r
  end.

(** A method of [str] called on a decoded JSON value. *)
Definition as_str (v : json) : outcome string :=
  match v with
  | JStr s => Returns s
  | _ => Raises AttributeError
  end.

(** The dict [parse_condition_preparation_log] returns. *)
Record condition_params : Type := mkCondition {
  c_condition_id : string;
  c_oracle : string;
  c_question_id : string;
  c_outcome_slot_count : Z
}.

Record MarketParams : Type := mkMarketParams {
  condition_id : string;
  oracle : string;
  question_id : string;
  outcome_slot_count : Z;
  collateral_token : string;
  yes_token_id : string;
  no_token_id : string;
  gamma : option market_params
}.

Notation "x <~ c1 ;; c2" := (and_then c1 (fun x => c2))
  (at level 100, c1 at next level, right associativity).

Section WithWeb3.

Variable to_checksum_address : string -> option string.
Variable keccak : list byte -> list byte.
Variable get_transaction_receipt : string -> result (list Log.t).
Variable json_loads : string -> option json.

(** stage1 [fetch_market_by_slug(get_gamma_base_url(), slug)] *)
Variable fetch_market_by_slug : string -> result (gmap string json).

Variable derive_binary_positions :
  string -> string -> string -> option string -> result BinaryPositions.

Definition CONDITION_PREPARATION_TOPIC : string :=
  bytes_hex (keccak (bytes_of_string CONDITION_PREPARATION_SIGNATURE)).

Definition parse_condition_preparation_log (log : Log.t) : result condition_params :=
  t1 <- Log.topic log 1 ;;
  let condition_id := Log.hex_or_str t1 in
  t2 <- Log.topic log 2 ;;
  let oracle_hex := Log.hex_or_str t2 in
  t3 <- Log.topic log 3 ;;
  let question_id := Log.hex_or_str t3 in
  oracle <- checksum to_checksum_address ("0x" +:+ str_last 40 oracle_hex) ;;
  data_bytes <- data_bytes_of log ;;
  let outcome_slot_count := int_from_bytes (slice 0 32 data_bytes) in
  Ok {| c_condition_id := condition_id;
        c_oracle := oracle;
        c_question_id := question_id;
        c_outcome_slot_count := outcome_slot_count |}.

(** The test the first loop of [decode_market_from_tx] makes on a log
    whose address has been normalized. *)
Definition is_preparation (log_address : string) (log : Log.t) : bool :=
  String.eqb (lower log_address) (lower CONDITIONAL_TOKENS)
  && match Log.topics log with
     | [] => false
     | topic0 :: _ =>
         String.eqb (lower (Log.hex_or_str topic0)) (lower CONDITION_PREPARATION_TOPIC)
     end.

(** The first loop of [decode_market_from_tx]. *)
Fixpoint find_condition_logs (condition_logs : list Log.t) (logs : list Log.t)
  : result (list Log.t) :=
  match logs with
  | [] => Ok condition_logs
  | log :: rest =>
      log_address <- checksum to_checksum_address (Log.address log) ;;
      find_condition_logs
        (if is_preparation log_address log then (condition_logs ++ [log])%list
         else condition_logs)
        rest
  end.

Definition decode_market_from_tx (tx_hash : string) (log_index : option Z)
  : result MarketParams :=
  logs <- get_transaction_receipt tx_hash ;;
  condition_logs <- find_condition_logs [] logs ;;
  match condition_logs with
  | [] => Raise ValueError
  | first :: _ =>
      target_log <-
        match log_index with
        | Some i =>
            of_option ValueError
              (List.find (fun log => Log.logIndex log =? i) condition_logs)
        | None => Ok first
        end ;;
      params <- parse_condition_preparation_log target_log ;;
      positions <-
        derive_binary_positions (c_oracle params) (c_question_id params)
                                USDC_ADDRESS (Some (c_condition_id params)) ;;
      Ok {| condition_id := c_condition_id params;
            oracle := c_oracle params;
            question_id := c_question_id params;
            outcome_slot_count := c_outcome_slot_count params;
            collateral_token := USDC_ADDRESS;
            yes_token_id := position_yes positions;
            no_token_id := position_no positions;
            gamma := None |}
  end.

Definition decode_market_from_gamma (market_slug : string) : outcome MarketParams :=
  market_data <~ lift (fetch_market_by_slug market_slug) ;;
  params <~
    match extract_market_params json_loads market_data with
    | Some params => Returns params
    | None => Raises TypeError
    end ;;
  let condition_id := p_condition_id params in
  let question_id := p_question_id params in
  if negb (truthy condition_id) then Raises (Builtin ValueError)
  else
    let question_id := if negb (truthy question_id) then condition_id else question_id in
    condition_id <~ as_str condition_id ;;
    let condition_id :=
      if negb (startswith "0x" condition_id) then "0x" +:+ condition_id
      else condition_id in
    question_id <~ as_str question_id ;;
    let question_id :=
      if negb (startswith "0x" question_id) then "0x" +:+ question_id
      else question_id in
    oracle <~ lift (checksum to_checksum_address UMA_ORACLE) ;;
    positions <~
      lift (derive_binary_positions oracle question_id USDC_ADDRESS
                                    (Some condition_id)) ;;
    let gamma_token_ids := p_clob_token_ids params in
    token_ids <~
      match gamma_token_ids with
      | g0 :: g1 :: _ =>
          gamma_yes <~ as_str g0 ;;
          gamma_no <~ as_str g1 ;;
          let calc_yes := lower (position_yes positions) in
          let calc_no := lower (position_no positions) in
          if String.eqb calc_yes (lower gamma_yes) && String.eqb calc_no (lower gamma_no)
             || String.eqb calc_yes (lower gamma_no) && String.eqb calc_no (lower gamma_yes)
          then Returns (position_yes positions, position_no positions)
          else Returns (gamma_yes, gamma_no)
      | _ => Returns (position_yes positions, position_no positions)
      end ;;
    Returns {| condition_id := condition_id;
               oracle := oracle;
               question_id := question_id;
               outcome_slot_count := 2;
               collateral_token := USDC_ADDRESS;
               yes_token_id := fst token_ids;
               no_token_id := snd token_ids;
               gamma := Some params |}.

End WithWeb3.

End MarketDecoder.

Module QuerySpec.
Import Py Store Queries.

(** [a] is not after [b] in (block_number, log_index) order. *)
Definition precedes (a b : trade_row) : Prop :=
  r_block_number (row a) < r_block_number (row b)
  \/ (r_block_number (row a) = r_block_number (row b)
      /\ r_log_index (row a) <= r_log_index (row b)).

(** Every row is followed only by rows it precedes. *)
Definition ascending (l : list trade_row) : Prop := StronglySorted precedes l.

(** The block number lies within the bounds that are given. *)
Definition within (from_block to_block : option Z) (r : trade_row) : Prop :=
  (forall f, from_block = Some f -> f <= r_block_number (row r)) /\
  (forall t, to_block = Some t -> r_block_number (row r) <= t).

End QuerySpec.

(** ** Further vocabulary *)

Module Terms.
Import Py TradeDecoder Discovery Positions Catalog Spec.

(** The canonical form of a 256-bit id: "0x" and 64 lower-case hex
    digits. *)
Definition canonical_id (s : string) : Prop :=
  String.length s = 66%nat /\ startswith "0x" s = true /\
  all_hex (str_drop 2 s) = true /\ lower s = s.

(** The log with another payload. *)
Definition with_data (log : Log.t) (data : Log.hexdata) : Log.t :=
  Log.mk (Log.address log) (Log.topics log) data (Log.transactionHash log)
         (Log.logIndex log) (Log.blockNumber log).

(** A trade the loop of stage1 [decode_transaction] may add for [log]:
    what stage2 decodes from it, on one of the two exchanges, the taker
    not being the exchange. *)
Definition emitted (cs : string -> option string) (log : Log.t) (t : Trade) : Prop :=
  decode_order_filled cs log = Ok t /\
  (exchange t = CTF_EXCHANGE \/ exchange t = NEGRISK_CTF_EXCHANGE) /\
  lower (taker t) <> lower (exchange t).

(** The value of a list of decimal digits, most significant first. *)
Definition dec_value (ds : list N) : Z :=
  fold_left (fun acc d => acc * 10 + Z.of_N d) ds 0.

(** What [parse_trade_from_log] makes sure of before it returns a record:
    the record points at a registered market by id, carries one of its two
    position ids, and its outcome says which. *)
Definition registered (markets : list Store.market_row) (r : Store.trade_record) : Prop :=
  exists m,
    List.In m markets /\ Store.r_market_id r = Store.market_id m /\
    ((Store.r_outcome r = "YES" /\
      lower (Store.r_token_id r) = lower (Store.yes_token_id m)) \/
     (Store.r_outcome r = "NO" /\ Store.r_token_id r = Store.no_token_id m)).

(** The value of [clobTokenIds] once its JSON text, if it is text, has
    been parsed (both stages do so before they look at the ids). *)
Definition parsed_ids (json_loads : string -> option json) (v : json) : json :=
  match v with
  | JStr s =>
      match json_loads s with
      | Some v' => v'
      | None => JList []
      end
  | _ => v
  end.

(** A log the first loop of [decode_market_from_tx] keeps. *)
Definition preparation_log (to_checksum_address : string -> option string)
    (keccak : list byte -> list byte) (log : Log.t) : Prop :=
  exists a,
    to_checksum_address (Log.address log) = Some a /\
    MarketDecoder.is_preparation keccak a log = true.

(** The computed pair of position ids is the pair Gamma gives, in either
    order and letter case. *)
Definition same_pair (p : BinaryPositions) (gamma_yes gamma_no : string) : bool :=
  String.eqb (lower (position_yes p)) (lower gamma_yes)
  && String.eqb (lower (position_no p)) (lower gamma_no)
  || String.eqb (lower (position_yes p)) (lower gamma_no)
     && String.eqb (lower (position_no p)) (lower gamma_yes).

(** What the constraints of the [markets] table keep: slugs, condition
    ids and ids are each pairwise different, and no id is beyond the
    counter. *)
Definition sound_listings (t : tables) : Prop :=
  List.NoDup (List.map l_slug (listings t)) /\
  List.NoDup (List.map l_condition_id (listings t)) /\
  List.NoDup (List.map l_id (listings t)) /\
  List.Forall (fun r => l_id r <= listings_seq t) (listings t).

(** The row with another [updated_at]: the one column a repeated upsert
    rewrites. *)
Definition touched (updated_at : stored) (r : listing) : listing :=
  mkListing (l_id r) (l_event_id r) (l_slug r) (l_condition_id r) (l_question_id r)
            (l_oracle r) (l_collateral_token r) (l_yes_token_id r) (l_no_token_id r)
            (l_enable_neg_risk r) (l_status r) (l_title r) (l_description r)
            (l_created_at r) updated_at.

(** ASCII text: every character below 128. On such text [str.lower]
    changes the letters A to Z and nothing else. *)
Definition is_ascii (s : string) : bool :=
  forallb (fun c => (N_of_ascii c <? 128)%N) (list_ascii_of_string s).

(** A token id the conversions take: a string is ASCII text and, when it
    is all digits, has no more than 4300 of them (the longest string
    [int] reads). *)
Definition plain_id (v : json) : bool :=
  match v with
  | JStr s => is_ascii s && (negb (isdigit s) || (String.length s <=? 4300)%nat)
  | _ => true
  end.

End Terms.

(** ** Sample data for the queries *)

Module Samples.
Import Py Store Catalog.

(** A trade of [market_id] in transaction [tx] at [log_index] of block
    [b], for token [tok]; the other columns are empty. *)
Definition rec (market_id : Z) (tx : string) (li b : Z) (tok : string) : trade_record :=
  mkTradeRecord market_id tx li b "" "" "" "" "" "" "" "" "" tok "" "" "" "" "".

(** A trade as the indexer stores it, with the timestamp [strftime] prints. *)
Definition stamped : trade_record :=
  mkTradeRecord 1 "0xa" 5 10 "2024-01-01T00:00:00" "" "" "" "" "BUY" "YES" "0.5" "2"
                "0x01" "" "" "" "" "".

Definition conn_q : conn :=
  snd (insert_trades Demo.conn_1
         [rec 1 "0xa" 5 10 "0x01"; rec 1 "0xb" 5 10 "0x02"; rec 1 "0xc" 1 10 "0x01";
          rec 2 "0xd" 0 9 "0x03"; rec 1 "0xe" 2 9 "0x01"]).

(** The values of one market as discovery binds them. *)
Definition market_values_1 : market_values :=
  mkMarketValues (Some 1) (Some "will-it-rain") (Some "0xc0") (Some "0xq0") (Some "")
    (Some "0x2791Bca1f2de4661ED88A30C99A7a9449Aa84174")
    (Some "0x0000000000000000000000000000000000000000000000000000000000000001")
    (Some "0x0000000000000000000000000000000000000000000000000000000000000002")
    (Some false) (Some "active") (Some "Will it rain?") None.

(** The values of one event: a start date in ISO form and an end date
    that is a bare year. *)
Definition event_values_1 : event_values :=
  mkEventValues (Some "ev") (Some "Title") None (Some "2024-06-01T00:00:00Z")
                (Some "2025") None.

End Samples.

(** ** Sample logs *)

Module SampleLogs.
Import Py TradeDecoder Positions.

(** A fill on the CTF exchange whose taker is another address: the maker
    sells 3000000 units of token 2 for 1500000 of collateral. *)
Definition fill_log : Log.t :=
  Log.mk CTF_EXCHANGE
    [Demo.signature_topic; Log.HBytes (repeat xbb 32);
     Demo.address_topic CTF_EXCHANGE; Demo.address_topic NEGRISK_CTF_EXCHANGE]
    (Log.HBytes (Demo.word 2 ++ Demo.word 0 ++ Demo.word 3000000
                 ++ Demo.word 1500000 ++ Demo.word 0)%list)
    (Log.HBytes (repeat xee 32)) 7 100.

(** The same event signature on a log with a single topic. *)
Definition bare_log : Log.t :=
  Log.mk CTF_EXCHANGE [Demo.signature_topic] (Log.HBytes [])
         (Log.HBytes (repeat xdd 32)) 4 100.

(** A ConditionPreparation log of the ConditionalTokens contract for two
    outcome slots. *)
Definition preparation_log_1 : Log.t :=
  Log.mk MarketDecoder.CONDITIONAL_TOKENS
    [Log.HBytes (Demo.keccak
                   (bytes_of_string MarketDecoder.CONDITION_PREPARATION_SIGNATURE));
     Log.HBytes (repeat xc1 32);
     Demo.address_topic MarketDecoder.UMA_ORACLE;
     Log.HBytes (repeat xd1 32)]
    (Log.HBytes (Demo.word 2)) (Log.HBytes (repeat xee 32)) 3 100.

(** stage2's derivation under the stand-in hash, as the parameter of the
    stage1 decoders. *)
Definition derive (oracle question_id collateral_token : string)
    (condition_id : option string) : result BinaryPositions :=
  derive_binary_positions Demo.keccak Demo.cs (fun _ _ _ => Raise ValueError)
    oracle question_id collateral_token condition_id ZERO_COLLECTION.

End SampleLogs.

(** * Facts about the Python primitives *)

Module PyFacts.
Import Py.

Lemma bind_ok {A B} (r : result A) (k : A -> result B) b :
  Py.bind r k = Ok b -> exists a, r = Ok a /\ k a = Ok b.
Proof. destruct r as [a|e]; cbn; [eauto | discriminate]. Qed.

Lemma str_app_nil (t : string) : "" +:+ t = t.
Proof. reflexivity. Qed.

Lemma str_app_cons c (s t : string) : String c s +:+ t = String c (s +:+ t).
Proof. reflexivity. Qed.

Lemma str_length_app (s t : string) :
  String.length (s +:+ t) = (String.length s + String.length t)%nat.
Proof.
  induction s as [|c s IH]; [reflexivity|].
  rewrite str_app_cons. simpl. now rewrite IH.
Qed.

Lemma str_app_empty_r (s : string) : s +:+ "" = s.
Proof.
  induction s as [|c s IH]; [reflexivity|]. now rewrite str_app_cons, IH.
Qed.

Lemma str_length_repeat c n : String.length (str_repeat c n) = n.
Proof. induction n; simpl; congruence. Qed.

Lemma str_length_lower s : String.length (lower s) = String.length s.
Proof. induction s; simpl; congruence. Qed.

Lemma length_bytes_hex bs : String.length (bytes_hex bs) = (2 * List.length bs)%nat.
Proof. induction bs as [|b bs IH]; simpl; [reflexivity | rewrite IH; lia]. Qed.

Lemma zfill_long w s : (w <= String.length s)%nat -> zfill w s = s.
Proof.
  intros H. unfold zfill. replace (w - String.length s)%nat with 0%nat by lia.
  cbn [str_repeat]. destruct s as [|c s]; [reflexivity|].
  rewrite !str_app_nil. now destruct (_ || _).
Qed.

(** A test that passes on the sixteen nibbles holds below 16. *)
Lemma below_16 (P : N -> bool) :
  forallb P (List.map N.of_nat (List.seq 0 16)) = true ->
  forall n, (n < 16)%N -> P n = true.
Proof.
  intros H n Hn. rewrite forallb_forall in H. apply H.
  apply in_map_iff. exists (N.to_nat n). split; [lia|]. apply in_seq. lia.
Qed.

Lemma hexval_digit_char n : (n < 16)%N -> hexval (digit_char n) = Some n.
Proof.
  intros H.
  apply (below_16 (fun n => match hexval (digit_char n) with
                            | Some m => (m =? n)%N
                            | None => false
                            end)) in H; [|reflexivity].
  destruct (hexval (digit_char n)) as [m|]; [|discriminate].
  apply N.eqb_eq in H. now subst.
Qed.

Lemma is_space_digit_char n : (n < 16)%N -> is_space (digit_char n) = false.
Proof.
  intros H.
  apply (below_16 (fun n => negb (is_space (digit_char n)))) in H; [|reflexivity].
  now apply negb_true_iff in H.
Qed.

Lemma byte_of_to_N b : byte_of_N (Byte.to_N b) = b.
Proof.
  unfold byte_of_N. pose proof (Byte.to_N_bounded b).
  rewrite N.mod_small by lia. now rewrite Byte.of_to_N.
Qed.

Lemma to_N_byte_of_N m : Byte.to_N (byte_of_N m) = (m mod 256)%N.
Proof.
  unfold byte_of_N. destruct (Byte.of_N (m mod 256)) as [y|] eqn:E.
  - now apply Byte.to_of_N.
  - apply Byte.of_N_None_iff in E. pose proof (N.mod_lt m 256). lia.
Qed.

Lemma fromhex_cons2 c d s :
  bytes_fromhex (String c (String d s)) =
  if is_space c then bytes_fromhex (String d s)
  else match hexval c, hexval d with
       | Some h, Some l => option_map (cons (byte_of_N (16 * h + l))) (bytes_fromhex s)
       | _, _ => None
       end.
Proof. reflexivity. Qed.

(** [bytes.fromhex(b.hex()) == b] *)
Lemma fromhex_hex bs : bytes_fromhex (bytes_hex bs) = Some bs.
Proof.
  induction bs as [|b bs IH]; [reflexivity|].
  pose proof (Byte.to_N_bounded b) as Hb.
  assert (Hh : (Byte.to_N b / 16 < 16)%N) by (apply N.Div0.div_lt_upper_bound; lia).
  assert (Hl : (Byte.to_N b mod 16 < 16)%N) by (apply N.mod_lt; lia).
  cbn [bytes_hex]. rewrite fromhex_cons2.
  rewrite (is_space_digit_char _ Hh), (hexval_digit_char _ Hh), (hexval_digit_char _ Hl), IH.
  cbn [option_map]. rewrite <- N.div_mod by lia. now rewrite byte_of_to_N.
Qed.

Lemma hexval_lower c : hexval (lower_char c) = hexval c.
Proof. destruct c as [[] [] [] [] [] [] [] []]; reflexivity. Qed.

Lemma is_space_lower c : is_space (lower_char c) = is_space c.
Proof. destruct c as [[] [] [] [] [] [] [] []]; reflexivity. Qed.

Lemma hexval_not_space c n : hexval c = Some n -> is_space c = false.
Proof. destruct c as [[] [] [] [] [] [] [] []]; cbv; congruence. Qed.

(** [bytes.fromhex] does not look at letter case. *)
Lemma fromhex_lower s : bytes_fromhex (lower s) = bytes_fromhex s.
Proof.
  enough (H : bytes_fromhex (lower s) = bytes_fromhex s /\
              forall c, bytes_fromhex (lower (String c s)) = bytes_fromhex (String c s))
    by apply H.
  induction s as [|d s [IH1 IH2]].
  - split; [reflexivity|]. intros c. cbn. now rewrite is_space_lower.
  - split; [apply IH2|]. intros c.
    change (lower (String c (String d s)))
      with (String (lower_char c) (String (lower_char d) (lower s))).
    rewrite !fromhex_cons2, is_space_lower, !hexval_lower, IH1.
    destruct (is_space c); [apply IH2 | reflexivity].
Qed.

Lemma from_bytes_acc bs acc :
  fold_left (fun a b => a * 256 + Z.of_N (Byte.to_N b)) bs acc =
  acc * 256 ^ Z.of_nat (List.length bs) + int_from_bytes bs.
Proof.
  unfold int_from_bytes. revert acc.
  induction bs as [|b bs IH]; intros acc.
  - cbn. lia.
  - cbn [fold_left List.length]. rewrite IH, (IH (0 * 256 + _)).
    rewrite Nat2Z.inj_succ, Z.pow_succ_r by lia. ring.
Qed.

Lemma from_bytes_cons b bs :
  int_from_bytes (b :: bs) =
  Z.of_N (Byte.to_N b) * 256 ^ Z.of_nat (List.length bs) + int_from_bytes bs.
Proof. unfold int_from_bytes at 1. cbn [fold_left]. now rewrite from_bytes_acc. Qed.

Lemma from_bytes_fold_nonneg bs acc :
  0 <= acc -> 0 <= fold_left (fun a b => a * 256 + Z.of_N (Byte.to_N b)) bs acc.
Proof.
  revert acc. induction bs as [|b bs IH]; intros acc H; cbn [fold_left]; [exact H|].
  apply IH. lia.
Qed.

Lemma int_from_bytes_nonneg bs : 0 <= int_from_bytes bs.
Proof. apply from_bytes_fold_nonneg. lia. Qed.

Lemma length_to_bytes_aux len n acc :
  List.length (to_bytes_aux len n acc) = (len + List.length acc)%nat.
Proof.
  revert n acc. induction len as [|len IH]; intros n acc; cbn [to_bytes_aux].
  - reflexivity.
  - rewrite IH. cbn [List.length]. lia.
Qed.

Lemma from_bytes_to_bytes_aux len n acc :
  0 <= n ->
  int_from_bytes (to_bytes_aux len n acc) =
  (n mod 256 ^ Z.of_nat len) * 256 ^ Z.of_nat (List.length acc) + int_from_bytes acc.
Proof.
  revert n acc. induction len as [|len IH]; intros n acc Hn; cbn [to_bytes_aux].
  - rewrite Z.pow_0_r, Z.mod_1_r. lia.
  - rewrite IH by (apply Z.div_pos; lia).
    rewrite from_bytes_cons, to_N_byte_of_N.
    assert (Hm : 0 <= n mod 256 < 256) by (apply Z.mod_pos_bound; lia).
    replace (Z.of_N (Z.to_N (n mod 256) mod 256)) with (n mod 256)
      by (rewrite N.mod_small by lia; lia).
    cbn [List.length]. rewrite !Nat2Z.inj_succ, !Z.pow_succ_r by lia.
    rewrite (Z.rem_mul_r n 256 (256 ^ Z.of_nat len)) by lia. ring.
Qed.

(** [int.from_bytes(n.to_bytes(len, 'big'), 'big') == n] *)
Lemma int_to_bytes_ok len n :
  0 <= n < 256 ^ Z.of_nat len ->
  exists bs, int_to_bytes len n = Ok bs /\ List.length bs = len /\ int_from_bytes bs = n.
Proof.
  intros [H0 H1]. exists (to_bytes_aux len n []). unfold int_to_bytes.
  replace (n <? 0) with false by lia.
  replace (256 ^ Z.of_nat len <=? n) with false by lia.
  split; [reflexivity|]. split.
  - rewrite length_to_bytes_aux. cbn. lia.
  - rewrite from_bytes_to_bytes_aux by lia. cbn. rewrite Z.mod_small by lia. lia.
Qed.

End PyFacts.

(** * Facts about the id derivation *)

Module DeriveFacts.
Import Py Derive Spec PyFacts.

Lemma get_collection_id_args keccak p c i :
  get_collection_id keccak p c i =
  (pb <- of_option ValueError (arg_bytes 64 p) ;;
   cb <- of_option ValueError (arg_bytes 64 c) ;;
   ib <- int_to_bytes 32 i ;;
   Ok ("0x" +:+ bytes_hex (keccak (pb ++ cb ++ ib)%list))).
Proof. reflexivity. Qed.

Lemma get_position_id_args keccak t k :
  get_position_id keccak t k =
  (tb <- of_option ValueError (arg_bytes 40 t) ;;
   kb <- of_option ValueError (arg_bytes 64 k) ;;
   Ok ("0x" +:+ bytes_hex (keccak (tb ++ kb)%list))).
Proof. reflexivity. Qed.

Lemma arg_bytes_spelled w s bs :
  spells s bs -> (w <= 2 * List.length bs)%nat ->
  arg_bytes w ("0x" +:+ s) = Some bs.
Proof.
  intros Hs Hw. unfold arg_bytes.
  change (startswith "0x" ("0x" +:+ s)) with true. cbn [negb].
  change (str_drop 2 ("0x" +:+ s)) with s.
  rewrite zfill_long.
  - rewrite <- fromhex_lower, Hs. apply fromhex_hex.
  - rewrite <- str_length_lower, Hs, length_bytes_hex. exact Hw.
Qed.

Lemma all_hex_cons c s :
  all_hex (String c s) = true -> (exists n, hexval c = Some n) /\ all_hex s = true.
Proof.
  cbn. intros H. apply andb_prop in H as [H1 H2].
  destruct (hexval c) as [n|]; [eauto | discriminate].
Qed.

Lemma hex_not_prefixed h : all_hex h = true -> startswith "0x" h = false.
Proof.
  destruct h as [|a [|b h]]; intros H; [reflexivity | |].
  - cbn. now rewrite andb_false_r.
  - apply all_hex_cons in H as [_ H]. apply all_hex_cons in H as [[n Hn] _].
    cbn [startswith]. destruct (Ascii.eqb_spec "x" b) as [<-|_].
    + discriminate Hn.
    + now rewrite andb_false_r.
Qed.

Lemma arg_bytes_unprefixed w h :
  all_hex h = true -> arg_bytes w h = bytes_fromhex (zfill w h).
Proof. intros H. unfold arg_bytes. now rewrite (hex_not_prefixed h H). Qed.

Lemma arg_bytes_prefix w h :
  all_hex h = true -> arg_bytes w ("0x" +:+ h) = arg_bytes w h.
Proof. intros H. now rewrite (arg_bytes_unprefixed w h H). Qed.

Lemma zfill_hex w h : all_hex h = true -> zfill w h = pad w h.
Proof.
  intros H. unfold zfill, pad. destruct h as [|c h].
  - now rewrite str_app_empty_r.
  - apply all_hex_cons in H as [[n Hn] _].
    destruct (Ascii.eqb_spec c "+") as [->|_]; [discriminate Hn|].
    destruct (Ascii.eqb_spec c "-") as [->|_]; [discriminate Hn|].
    reflexivity.
Qed.

Lemma all_hex_app s t : all_hex (s +:+ t) = all_hex s && all_hex t.
Proof.
  induction s as [|c s IH]; [reflexivity|].
  rewrite str_app_cons. cbn [all_hex]. now rewrite IH, andb_assoc.
Qed.

Lemma all_hex_zeros n : all_hex (str_repeat "0" n) = true.
Proof.
  induction n as [|n IH]; [reflexivity|]. cbn [str_repeat all_hex]. now rewrite IH.
Qed.

Lemma all_hex_pad w h : all_hex h = true -> all_hex (pad w h) = true.
Proof. intros H. unfold pad. now rewrite all_hex_app, all_hex_zeros, H. Qed.

Lemma length_pad w h : (String.length h <= w)%nat -> String.length (pad w h) = w.
Proof. intros H. unfold pad. rewrite str_length_app, str_length_repeat. lia. Qed.

Lemma arg_bytes_pad w h :
  all_hex h = true -> (String.length h <= w)%nat ->
  arg_bytes w (pad w h) = arg_bytes w h.
Proof.
  intros H L.
  rewrite (arg_bytes_unprefixed w (pad w h)) by now apply all_hex_pad.
  rewrite (arg_bytes_unprefixed w h H), (zfill_hex w h H).
  now rewrite zfill_long by (rewrite length_pad; lia).
Qed.

Lemma fromhex_all_hex n : forall s,
  all_hex s = true -> String.length s = (2 * n)%nat ->
  exists bs, bytes_fromhex s = Some bs /\ List.length bs = n.
Proof.
  induction n as [|n IH]; intros s H L.
  - destruct s; [|discriminate L]. now exists [].
  - destruct s as [|c [|d s]]; [discriminate L | cbn in L; lia |].
    apply all_hex_cons in H as [[h Hh] H]. apply all_hex_cons in H as [[l Hl] H].
    destruct (IH s H) as (bs & E & Lbs); [cbn in L; lia|].
    rewrite fromhex_cons2, (hexval_not_space c h Hh), Hh, Hl, E.
    eexists. split; [reflexivity|]. cbn. now rewrite Lbs.
Qed.

Lemma arg_bytes_defined w n h :
  all_hex h = true -> (String.length h <= w)%nat -> w = (2 * n)%nat ->
  exists bs, arg_bytes w h = Some bs /\ List.length bs = n.
Proof.
  intros H L E. rewrite (arg_bytes_unprefixed w h H), (zfill_hex w h H).
  apply fromhex_all_hex; [now apply all_hex_pad | rewrite length_pad; lia].
Qed.

(** C2. On well-formed hex inputs ("0x" and the hex spelling, in either
    letter case, of 32, 32, 20 and 32 bytes, and an index set that fits 256
    bits) [get_collection_id] is "0x" and the hex of keccak-256 of the 96
    bytes parent, condition id, index set as a 32-byte big-endian integer,
    and [get_position_id] is "0x" and the hex of keccak-256 of the 52 bytes
    address, collection id: the raw bytes one after the other, none of them
    padded. *)
Theorem derive_ids_are_packed_keccak
    (keccak : list byte -> list byte)
    (parent condition token collection : string)
    (pb cb tb kb : list byte) (index_set : Z) :
  spells parent pb -> List.length pb = 32%nat ->
  spells condition cb -> List.length cb = 32%nat ->
  spells token tb -> List.length tb = 20%nat ->
  spells collection kb -> List.length kb = 32%nat ->
  0 <= index_set < 2 ^ 256 ->
  exists ib,
    List.length ib = 32%nat /\ int_from_bytes ib = index_set /\
    get_collection_id keccak ("0x" +:+ parent) ("0x" +:+ condition) index_set
      = Ok ("0x" +:+ bytes_hex (keccak (pb ++ cb ++ ib)%list)) /\
    List.length (pb ++ cb ++ ib)%list = 96%nat /\
    get_position_id keccak ("0x" +:+ token) ("0x" +:+ collection)
      = Ok ("0x" +:+ bytes_hex (keccak (tb ++ kb)%list)) /\
    List.length (tb ++ kb)%list = 52%nat.
Proof.
  intros Hp Lp Hc Lc Ht Lt Hk Lk Hi.
  destruct (int_to_bytes_ok 32 index_set) as (ib & Eib & Lib & Vib); [exact Hi|].
  exists ib. split; [exact Lib|]. split; [exact Vib|].
  rewrite get_collection_id_args, get_position_id_args.
  rewrite (arg_bytes_spelled 64 parent pb), (arg_bytes_spelled 64 condition cb),
    (arg_bytes_spelled 40 token tb), (arg_bytes_spelled 64 collection kb), Eib
    by (assumption || lia).
  rewrite !length_app, Lp, Lc, Lib, Lt, Lk.
  repeat split.
Qed.

Lemma derive_ids_are_packed_keccak_witness :
  exists ib,
    int_from_bytes ib = 1 /\
    get_collection_id Demo.keccak
        ("0x" +:+ bytes_hex (repeat x00 32)) ("0x" +:+ bytes_hex (repeat xab 32)) 1
      = Ok ("0x" +:+ bytes_hex
              (Demo.keccak (repeat x00 32 ++ repeat xab 32 ++ ib)%list)) /\
    get_position_id Demo.keccak
        "0x2791BCA1F2DE4661ED88A30C99A7A9449AA84174"
        ("0x" +:+ bytes_hex (repeat x00 32))
      = Ok ("0x" +:+ bytes_hex (Demo.keccak (Demo.usdc_bytes ++ repeat x00 32)%list)).
Proof.
  destruct (derive_ids_are_packed_keccak Demo.keccak
              (bytes_hex (repeat x00 32)) (bytes_hex (repeat xab 32))
              "2791BCA1F2DE4661ED88A30C99A7A9449AA84174" (bytes_hex (repeat x00 32))
              (repeat x00 32) (repeat xab 32) Demo.usdc_bytes (repeat x00 32) 1)
    as (ib & _ & V & C & _ & P & _);
    try reflexivity; try lia.
  exists ib. split; [exact V|]. split; [exact C | exact P].
Defined.

(** C10. For hex-string arguments (hex digits only) [get_collection_id] and
    [get_position_id] give the same result with or without the "0x"
    prefix, and the same result for an argument and the argument left-padded
    with zeros to its canonical width (40 digits for the collateral token,
    64 for the others); on arguments no longer than that and an index set
    that fits 256 bits the result is an identifier, not an exception. *)
Theorem derive_prefix_and_padding_insensitive
    (keccak : list byte -> list byte) (p c t k : string) (i : Z) :
  all_hex p = true -> all_hex c = true -> all_hex t = true -> all_hex k = true ->
  (get_collection_id keccak ("0x" +:+ p) c i = get_collection_id keccak p c i /\
   get_collection_id keccak p ("0x" +:+ c) i = get_collection_id keccak p c i /\
   get_position_id keccak ("0x" +:+ t) k = get_position_id keccak t k /\
   get_position_id keccak t ("0x" +:+ k) = get_position_id keccak t k) /\
  ((String.length p <= 64)%nat ->
     get_collection_id keccak (pad 64 p) c i = get_collection_id keccak p c i /\
     get_collection_id keccak ("0x" +:+ pad 64 p) c i = get_collection_id keccak p c i) /\
  ((String.length c <= 64)%nat ->
     get_collection_id keccak p (pad 64 c) i = get_collection_id keccak p c i /\
     get_collection_id keccak p ("0x" +:+ pad 64 c) i = get_collection_id keccak p c i) /\
  ((String.length t <= 40)%nat ->
     get_position_id keccak (pad 40 t) k = get_position_id keccak t k /\
     get_position_id keccak ("0x" +:+ pad 40 t) k = get_position_id keccak t k) /\
  ((String.length k <= 64)%nat ->
     get_position_id keccak t (pad 64 k) = get_position_id keccak t k /\
     get_position_id keccak t ("0x" +:+ pad 64 k) = get_position_id keccak t k) /\
  ((String.length p <= 64)%nat -> (String.length c <= 64)%nat -> 0 <= i < 2 ^ 256 ->
     exists id, get_collection_id keccak p c i = Ok id) /\
  ((String.length t <= 40)%nat -> (String.length k <= 64)%nat ->
     exists id, get_position_id keccak t k = Ok id).
Proof.
  intros Hp Hc Ht Hk. rewrite !get_collection_id_args, !get_position_id_args.
  rewrite !arg_bytes_prefix by (assumption || now apply all_hex_pad).
  split; [now repeat split|].
  split; [intros L; now rewrite arg_bytes_pad|].
  split; [intros L; now rewrite arg_bytes_pad|].
  split; [intros L; now rewrite arg_bytes_pad|].
  split; [intros L; now rewrite arg_bytes_pad|].
  split.
  - intros Lp Lc Hi.
    destruct (arg_bytes_defined 64 32 p Hp Lp eq_refl) as (pb & -> & _).
    destruct (arg_bytes_defined 64 32 c Hc Lc eq_refl) as (cb & -> & _).
    destruct (int_to_bytes_ok 32 i Hi) as (ib & -> & _).
    eexists. reflexivity.
  - intros Lt Lk.
    destruct (arg_bytes_defined 40 20 t Ht Lt eq_refl) as (tb & -> & _).
    destruct (arg_bytes_defined 64 32 k Hk Lk eq_refl) as (kb & -> & _).
    eexists. reflexivity.
Qed.

Lemma derive_prefix_and_padding_insensitive_witness :
  get_collection_id Demo.keccak ("0x" +:+ "abc") "1" 2
    = get_collection_id Demo.keccak "abc" "1" 2 /\
  get_collection_id Demo.keccak (pad 64 "abc") "1" 2
    = get_collection_id Demo.keccak "abc" "1" 2 /\
  get_position_id Demo.keccak "abc" ("0x" +:+ pad 64 "1")
    = get_position_id Demo.keccak "abc" "1" /\
  exists id, get_collection_id Demo.keccak "abc" "1" 2 = Ok id.
Proof.
  destruct (derive_prefix_and_padding_insensitive Demo.keccak "abc" "1" "abc" "1" 2)
    as ((A & _) & C & _ & _ & E & F & _); try reflexivity.
  split; [exact A|]. split; [|split].
  - apply C. vm_compute. lia.
  - apply E. vm_compute. lia.
  - apply F; [vm_compute; lia | vm_compute; lia | lia].
Defined.

End DeriveFacts.

(** * Facts about 256-bit words in hex *)

Module WordFacts.
Import Py Spec PyFacts DeriveFacts.

Lemma pos_lt_pow2_size (p : positive) : (N.pos p < 2 ^ N.of_nat (Pos.size_nat p))%N.
Proof.
  induction p as [p IH|p IH|]; cbn [Pos.size_nat];
    rewrite ?Nat2N.inj_succ, ?N.pow_succ_r'; lia.
Qed.

(** The fuel [digits] gives itself is enough. *)
Lemma lt_pow16_fuel (n : N) : (n < 16 ^ N.of_nat (S (N.size_nat n)))%N.
Proof.
  assert (H : (n < 2 ^ N.of_nat (N.size_nat n))%N).
  { destruct n as [|p]; [cbn; lia | apply pos_lt_pow2_size]. }
  rewrite Nat2N.inj_succ, N.pow_succ_r'.
  assert (H2 : (2 ^ N.of_nat (N.size_nat n) <= 16 ^ N.of_nat (N.size_nat n))%N)
    by (apply N.pow_le_mono_l; lia).
  lia.
Qed.

Lemma nibbles_zero k acc : nibbles k 0 acc = (repeat 0%N k ++ acc)%list.
Proof.
  revert acc. induction k as [|k IH]; intros acc; [reflexivity|].
  cbn [nibbles]. change (0 / 16)%N with 0%N. change (0 mod 16)%N with 0%N.
  rewrite IH. change (0%N :: acc) with ([0%N] ++ acc)%list.
  rewrite app_assoc. f_equal. change [0%N] with (repeat 0%N 1).
  rewrite <- repeat_app. f_equal. lia.
Qed.

(** The digits [f"{n:x}"] prints are the fixed-width digits without their
    leading zeros. *)
Lemma nibbles_digits fuel : forall k n acc,
  (1 <= k)%nat -> (n < 16 ^ N.of_nat k)%N -> (n < 16 ^ N.of_nat fuel)%N ->
  exists z, nibbles k n acc = (repeat 0%N z ++ digits_aux 16 fuel n acc)%list.
Proof.
  induction fuel as [|fuel IH]; intros k n acc H1 Hk Hf.
  - cbn in Hf. assert (n = 0%N) by lia. subst n. cbn [digits_aux].
    exists k. apply nibbles_zero.
  - destruct k as [|k]; [lia|].
    cbn [digits_aux nibbles]. destruct (N.ltb_spec n 16) as [Hlt|Hge].
    + rewrite N.div_small, N.mod_small by lia. exists k. apply nibbles_zero.
    + rewrite Nat2N.inj_succ, N.pow_succ_r' in Hk, Hf.
      assert (Hq : (1 <= n / 16)%N) by (apply N.div_le_lower_bound; lia).
      assert (Hqk : (n / 16 < 16 ^ N.of_nat k)%N)
        by (apply N.Div0.div_lt_upper_bound; lia).
      apply IH; [|exact Hqk|apply N.Div0.div_lt_upper_bound; lia].
      destruct k; [cbn in Hqk; lia | lia].
Qed.

Lemma length_nibbles k : forall n acc,
  List.length (nibbles k n acc) = (k + List.length acc)%nat.
Proof.
  induction k as [|k IH]; intros n acc; cbn [nibbles]; [reflexivity|].
  rewrite IH. cbn [List.length]. lia.
Qed.

Lemma nibbles_below k : forall n acc, all_nibbles acc -> all_nibbles (nibbles k n acc).
Proof.
  induction k as [|k IH]; intros n acc H; cbn [nibbles]; [exact H|].
  apply IH. constructor; [apply N.mod_lt; lia | exact H].
Qed.

Lemma string_of_digits_app a b :
  string_of_digits (a ++ b)%list = string_of_digits a +:+ string_of_digits b.
Proof.
  induction a as [|d a IH]; [reflexivity|].
  cbn [app string_of_digits fold_right]. rewrite str_app_cons. f_equal. exact IH.
Qed.

Lemma string_of_zeros z : string_of_digits (repeat 0%N z) = str_repeat "0" z.
Proof. induction z as [|z IH]; [reflexivity|]. cbn. f_equal. exact IH. Qed.

Lemma length_string_of_digits ds : String.length (string_of_digits ds) = List.length ds.
Proof. induction ds as [|d ds IH]; [reflexivity|]. cbn. f_equal. exact IH. Qed.

Lemma all_hex_digits ds : all_nibbles ds -> all_hex (string_of_digits ds) = true.
Proof.
  induction 1 as [|d ds Hd _ IH]; [reflexivity|].
  cbn [string_of_digits fold_right all_hex]. rewrite (hexval_digit_char d Hd).
  exact IH.
Qed.

(** [f"{n:064x}"] is the 64 base-16 digits of [n] when [n] fits them. *)
Lemma format_064x_nibbles n :
  0 <= n < 16 ^ 64 -> format_064x n = string_of_digits (nibbles 64 (Z.to_N n) []).
Proof.
  intros [H0 H1]. unfold format_064x, format_x. replace (n <? 0) with false by lia.
  unfold digits.
  destruct (nibbles_digits (S (N.size_nat (Z.to_N n))) 64 (Z.to_N n) [])
    as [z Hz]; [lia | change (16 ^ N.of_nat 64)%N with (Z.to_N (16 ^ 64)); lia
               | apply lt_pow16_fuel |].
  set (ds := digits_aux 16 (S (N.size_nat (Z.to_N n))) (Z.to_N n) []) in *.
  assert (Hall : all_nibbles ds).
  { pose proof (nibbles_below 64 (Z.to_N n) [] ltac:(constructor)) as Hn.
    rewrite Hz in Hn. apply Forall_app in Hn. apply Hn. }
  assert (Hlen : (z + List.length ds = 64)%nat).
  { pose proof (length_nibbles 64 (Z.to_N n) []) as L. cbn [List.length] in L.
    rewrite Hz, length_app, repeat_length in L. lia. }
  rewrite Hz, string_of_digits_app, string_of_zeros.
  rewrite (zfill_hex 64 _ (all_hex_digits ds Hall)). unfold pad.
  rewrite length_string_of_digits. f_equal. f_equal. lia.
Qed.

Lemma nibbles_bytes k : forall (n : Z) accN accB,
  0 <= n ->
  string_of_digits accN = bytes_hex accB ->
  string_of_digits (nibbles (2 * k) (Z.to_N n) accN) = bytes_hex (to_bytes_aux k n accB).
Proof.
  induction k as [|k IH]; intros n accN accB Hn Hacc; [exact Hacc|].
  replace (2 * S k)%nat with (S (S (2 * k))) by lia. cbn [nibbles to_bytes_aux].
  assert (Hm : 0 <= n mod 256 < 256) by (apply Z.mod_pos_bound; lia).
  replace (Z.to_N n / 16 / 16)%N with (Z.to_N (n / 256)).
  2:{ rewrite N.Div0.div_div. change (16 * 16)%N with (Z.to_N 256).
      rewrite <- Z2N.inj_div by lia. reflexivity. }
  apply IH; [apply Z.div_pos; lia|].
  cbn [string_of_digits fold_right bytes_hex]. rewrite to_N_byte_of_N.
  fold (string_of_digits accN). rewrite Hacc.
  assert (E : (Z.to_N (n mod 256) mod 256 = Z.to_N n mod 256)%N).
  { rewrite N.mod_small by lia. change 256%N with (Z.to_N 256).
    rewrite <- Z2N.inj_mod by lia. reflexivity. }
  rewrite E. f_equal; [|f_equal]; f_equal.
  - change 256%N with (16 * 16)%N. rewrite N.Div0.mod_mul_r.
    rewrite N.mul_comm, N.div_add by lia.
    rewrite (N.div_small (Z.to_N n mod 16) 16) by (apply N.mod_lt; lia). lia.
  - change 256%N with (16 * 16)%N. rewrite N.Div0.mod_mul_r.
    rewrite (N.mul_comm 16), N.Div0.mod_add, N.Div0.mod_mod. reflexivity.
Qed.

(** [f"{n:064x}"] is the hex of the 32-byte big-endian word of [n]. *)
Lemma format_064x_word n :
  0 <= n < 2 ^ 256 -> format_064x n = bytes_hex (to_bytes_aux 32 n []).
Proof.
  intros H. rewrite format_064x_nibbles by (change (16 ^ 64) with (2 ^ 256); exact H).
  apply (nibbles_bytes 32); [lia | reflexivity].
Qed.

Lemma from_bytes_snoc bs b :
  int_from_bytes (bs ++ [b]) = int_from_bytes bs * 256 + Z.of_N (Byte.to_N b).
Proof. unfold int_from_bytes. now rewrite fold_left_app. Qed.

(** [int.from_bytes(bs, 'big').to_bytes(len(bs), 'big') == bs] *)
Lemma to_bytes_from_bytes bs : forall acc,
  to_bytes_aux (List.length bs) (int_from_bytes bs) acc = (bs ++ acc)%list.
Proof.
  induction bs as [|b bs IH] using rev_ind; intros acc; [reflexivity|].
  rewrite length_app, Nat.add_comm. cbn [List.length Nat.add to_bytes_aux].
  rewrite from_bytes_snoc.
  pose proof (Byte.to_N_bounded b) as Hb.
  rewrite Z.div_add_l, Z.div_small, Z.add_0_r by lia.
  rewrite Z.add_comm, Z.mod_add, Z.mod_small by lia.
  rewrite N2Z.id, byte_of_to_N, IH, <- app_assoc. reflexivity.
Qed.

Lemma int_from_bytes_bound bs : int_from_bytes bs < 256 ^ Z.of_nat (List.length bs).
Proof.
  induction bs as [|b bs IH] using rev_ind; [cbn; lia|].
  rewrite from_bytes_snoc, length_app, Nat.add_comm. cbn [List.length Nat.add].
  rewrite Nat2Z.inj_succ, Z.pow_succ_r by lia.
  pose proof (Byte.to_N_bounded b). lia.
Qed.

(** The 64 digits [f"{n:064x}"] prints for the value of a 32-byte word
    are the hex of the word. *)
Lemma format_064x_from_bytes bs :
  List.length bs = 32%nat -> format_064x (int_from_bytes bs) = bytes_hex bs.
Proof.
  intros L. rewrite format_064x_word.
  - rewrite <- L, to_bytes_from_bytes. now rewrite app_nil_r.
  - pose proof (int_from_bytes_nonneg bs). pose proof (int_from_bytes_bound bs) as B.
    rewrite L in B. change (256 ^ Z.of_nat 32) with (2 ^ 256) in B. lia.
Qed.

Lemma length_slice i j (bs : list byte) :
  (j <= List.length bs)%nat -> List.length (slice i j bs) = (j - i)%nat.
Proof.
  intros H. unfold slice. rewrite List.length_firstn, List.length_skipn. lia.
Qed.

End WordFacts.

(** * Facts about decimal division and rounding *)

Module DecimalFacts.
Import Py Spec PyFacts WordFacts.

Lemma lt_pow10_fuel (n : N) : (n < 10 ^ N.of_nat (S (N.size_nat n)))%N.
Proof.
  assert (H : (n < 2 ^ N.of_nat (N.size_nat n))%N).
  { destruct n as [|p]; [cbn; lia | apply pos_lt_pow2_size]. }
  rewrite Nat2N.inj_succ, N.pow_succ_r'.
  assert (H2 : (2 ^ N.of_nat (N.size_nat n) <= 10 ^ N.of_nat (N.size_nat n))%N)
    by (apply N.pow_le_mono_l; lia).
  lia.
Qed.

Lemma digits10_length fuel : forall n acc,
  (n < 10 ^ N.of_nat fuel)%N -> (1 <= fuel)%nat ->
  exists L,
    List.length (digits_aux 10 fuel n acc) = (L + List.length acc)%nat /\
    (1 <= L)%nat /\ (n < 10 ^ N.of_nat L)%N /\
    (0 < n -> 10 ^ N.of_nat L <= 10 * n)%N.
Proof.
  induction fuel as [|fuel IH]; intros n acc Hf H1; [lia|].
  cbn [digits_aux]. destruct (N.ltb_spec n 10) as [Hlt|Hge].
  - exists 1%nat. cbn [List.length]. change (10 ^ N.of_nat 1)%N with 10%N.
    split; [reflexivity|]. split; [lia|]. split; [exact Hlt|]. clear. lia.
  - rewrite Nat2N.inj_succ, N.pow_succ_r' in Hf.
    assert (Hq : (1 <= n / 10)%N) by (apply N.div_le_lower_bound; lia).
    assert (Hqf : (n / 10 < 10 ^ N.of_nat fuel)%N)
      by (apply N.Div0.div_lt_upper_bound; lia).
    assert (F1 : (1 <= fuel)%nat) by (destruct fuel; [cbn in Hqf; lia | lia]).
    destruct (IH (n / 10)%N ((n mod 10)%N :: acc) Hqf F1) as (L & E & HL & Hu & Hl).
    exists (S L). cbn [List.length] in E. rewrite E.
    rewrite Nat2N.inj_succ, N.pow_succ_r'.
    pose proof (N.div_mod n 10 ltac:(lia)) as Hdm.
    pose proof (N.mod_lt n 10 ltac:(lia)) as Hm.
    split; [lia|]. split; [lia|]. split; [lia|].
    intros _. specialize (Hl ltac:(lia)).
    pose proof (N.Div0.mul_div_le n 10). lia.
Qed.

(** [len(str(n))] brackets [n] between two powers of ten. *)
Lemma ndigits_bounds n :
  0 < n -> 1 <= ndigits n /\ 10 ^ ndigits n <= 10 * n /\ n < 10 ^ ndigits n.
Proof.
  intros Hn. unfold ndigits, digits.
  destruct (digits10_length (S (N.size_nat (Z.to_N n))) (Z.to_N n) [])
    as (L & E & HL & Hu & Hl); [apply lt_pow10_fuel | lia |].
  rewrite E. cbn [List.length]. rewrite Nat.add_0_r.
  specialize (Hl ltac:(lia)).
  assert (P : Z.of_N (10 ^ N.of_nat L) = 10 ^ Z.of_nat L).
  { rewrite N2Z.inj_pow. now rewrite nat_N_Z. }
  split; [lia|]. rewrite <- P. lia.
Qed.

Lemma div_half_even_near n d :
  0 < d -> Z.abs (2 * (div_half_even n d * d - n)) <= d.
Proof.
  intros Hd. unfold div_half_even.
  pose proof (Z.div_mod n d ltac:(lia)) as Hdm.
  pose proof (Z.mod_pos_bound n d Hd) as Hm.
  destruct (Z.ltb_spec (2 * (n mod d)) d); [nia|].
  destruct (Z.ltb_spec d (2 * (n mod d))); [nia|].
  destruct (Z.even (n / d)); nia.
Qed.

Lemma ndigits_nonpos n : n <= 0 -> ndigits n = 1.
Proof. intros H. unfold ndigits. replace (Z.to_N n) with 0%N by lia. reflexivity. Qed.

Lemma pow10_pos k : 0 <= k -> 0 < 10 ^ k.
Proof. intros H. apply Z.pow_pos_nonneg; lia. Qed.

(** Rounding to the context precision moves a coefficient by at most half
    a unit of its 28th digit. *)
Lemma fix_prec_near c e :
  0 < c ->
  exists k,
    0 <= k /\ d_exp (fix_prec (mkDecimal c e)) = e + k /\
    0 <= d_int (fix_prec (mkDecimal c e)) /\
    2 * 10 ^ 27 * Z.abs (d_int (fix_prec (mkDecimal c e)) * 10 ^ k - c) <= c.
Proof.
  intros Hc. unfold fix_prec. cbn [d_int d_exp].
  destruct (ndigits_bounds c Hc) as (N1 & Nl & Nu).
  destruct (Z.leb_spec (ndigits c) prec) as [Hle|Hgt].
  - exists 0. cbn [d_int d_exp]. rewrite Z.pow_0_r. 
    split; [lia|]. split; [lia|]. split; [lia|].
    replace (c * 1 - c) with 0 by lia. cbn. lia.
  - unfold prec in *. set (k0 := ndigits c - 28) in *.
    assert (Hk0 : 1 <= k0) by (unfold k0; lia).
    assert (Hpow : 10 ^ ndigits c = 10 ^ 28 * 10 ^ k0).
    { unfold k0. rewrite <- Z.pow_add_r by lia. f_equal. lia. }
    pose proof (pow10_pos k0 ltac:(lia)) as HP.
    pose proof (div_half_even_near c (10 ^ k0) HP) as Hn.
    set (P := 10 ^ k0) in *. set (c1 := div_half_even c P) in *.
    rewrite Hpow in Nl, Nu.
    destruct (Z.ltb_spec 28 (ndigits c1)) as [Hbig|Hsmall].
    + assert (Hc1 : 0 < c1).
      { destruct (Z.lt_ge_cases 0 c1) as [|Hn0]; [assumption|].
        rewrite ndigits_nonpos in Hbig by lia. lia. }
      destruct (ndigits_bounds c1 Hc1) as (_ & Nl1 & _).
      assert (H29 : 10 ^ 29 <= 10 ^ ndigits c1)
        by (apply Z.pow_le_mono_r; lia).
      assert (E1 : c1 = 10 ^ 28).
      { assert (c1 <= 10 ^ 28) by nia. lia. }
      exists (k0 + 1). cbn [d_int d_exp].
      split; [lia|]. split; [lia|]. split; [apply Z.div_pos; lia|].
      rewrite E1. change (10 ^ 28 / 10) with (10 ^ 27).
      rewrite Z.pow_add_r by lia. fold P. rewrite E1 in Hn. lia.
    + exists k0. cbn [d_int d_exp]. fold P.
      split; [lia|]. split; [lia|]. split; [|lia].
      destruct (Z.lt_ge_cases c1 0) as [Hneg|]; [|assumption]. nia.
Qed.

Lemma strip_to_ideal_value fuel : forall ideal c e c' e',
  0 < c -> strip_to_ideal fuel ideal c e = (c', e') ->
  exists j, 0 <= j /\ e' = e + j /\ c = c' * 10 ^ j /\ 0 < c'.
Proof.
  induction fuel as [|fuel IH]; intros ideal c e c' e' Hc H; cbn [strip_to_ideal] in H.
  - injection H as <- <-. exists 0. rewrite Z.pow_0_r. lia.
  - destruct ((e <? ideal) && (c mod 10 =? 0)) eqn:G.
    + apply andb_prop in G as [_ G]. apply Z.eqb_eq in G.
      pose proof (Z.div_mod c 10 ltac:(lia)) as Hdm. rewrite G in Hdm.
      apply IH in H as (j & Hj & -> & Hv & Hc'); [|lia].
      exists (j + 1). rewrite Z.pow_add_r by lia.
      split; [lia|]. split; [lia|]. split; [lia | exact Hc'].
    + injection H as <- <-. exists 0. rewrite Z.pow_0_r. lia.
Qed.

(** The quotient of a numerator at least [10 ^ 28] times the denominator,
    adjusted and rounded as [Decimal_div] does. *)
Lemma quotient_near num den fuel ideal exp :
  0 < den -> 10 ^ 28 * den <= num ->
  let coeff := num / den in
  let r := num mod den in
  let ce :=
    if negb (r =? 0) then ((if coeff mod 5 =? 0 then coeff + 1 else coeff), exp)
    else strip_to_ideal fuel ideal coeff exp in
  let d := fix_prec (mkDecimal (fst ce) (snd ce)) in
  exists u,
    0 <= u /\ d_exp d = exp + u /\ 0 <= d_int d /\
    10 ^ 27 * Z.abs (d_int d * 10 ^ u * den - num) <= num.
Proof.
  intros Hden Hbig coeff r ce d.
  pose proof (Z.div_mod num den ltac:(lia)) as Hdm. fold coeff r in Hdm.
  pose proof (Z.mod_pos_bound num den Hden) as Hr. fold r in Hr.
  assert (Hq : 10 ^ 28 <= coeff) by (apply Z.div_le_lower_bound; lia).
  destruct (Z.eqb_spec r 0) as [R0|Rn]; cbn [negb] in ce.
  - destruct (strip_to_ideal fuel ideal coeff exp) as [c' e'] eqn:S.
    apply strip_to_ideal_value in S as (j & Hj & -> & Hv & Hc'); [|lia].
    subst ce d. cbn [fst snd].
    destruct (fix_prec_near c' (exp + j) Hc') as (k & Hk & -> & H0 & Hn).
    exists (j + k). split; [lia|]. split; [lia|]. split; [exact H0|].
    set (c := d_int (fix_prec _)) in *.
    pose proof (pow10_pos j Hj) as Pj. pose proof (pow10_pos k Hk) as Pk.
    rewrite Z.pow_add_r by lia.
    replace (c * (10 ^ j * 10 ^ k) * den - num)
      with ((c * 10 ^ k - c') * (10 ^ j * den)) by nia.
    rewrite Z.abs_mul, (Z.abs_eq (10 ^ j * den)) by nia.
    assert (Hnum : num = c' * (10 ^ j * den)) by nia.
    rewrite Hnum.
    assert (HM : 0 <= 10 ^ j * den) by nia.
    pose proof (Z.abs_nonneg (c * 10 ^ k - c')) as HA0.
    set (A := Z.abs (c * 10 ^ k - c')) in *. clearbody A.
    set (M := 10 ^ j * den) in *. clearbody M. nia.
  - subst ce d. cbn [fst snd].
    set (q' := if coeff mod 5 =? 0 then coeff + 1 else coeff).
    assert (Hq' : coeff <= q' <= coeff + 1) by (unfold q'; destruct (_ =? _); lia).
    destruct (fix_prec_near q' exp ltac:(lia)) as (k & Hk & -> & H0 & Hn).
    exists k. split; [lia|]. split; [lia|]. split; [exact H0|].
    set (c := d_int (fix_prec _)) in *.
    assert (T : Z.abs (c * 10 ^ k * den - num)
                <= Z.abs (c * 10 ^ k - q') * den + den).
    { replace (c * 10 ^ k * den - num)
        with ((c * 10 ^ k - q') * den + (q' * den - num)) by ring.
      eapply Z.le_trans; [apply Z.abs_triangle|].
      rewrite Z.abs_mul, (Z.abs_eq den) by lia.
      apply Z.add_le_mono_l. apply Z.abs_le. nia. }
    pose proof (Z.abs_nonneg (c * 10 ^ k - q')) as HA0.
    set (A := Z.abs (c * 10 ^ k - q')) in *. clearbody A.
    set (B := Z.abs (c * 10 ^ k * den - num)) in *. clearbody B.
    nia.
Qed.

(** [Decimal(a) / Decimal(b)] is within [10 ^ -27] of [a / b], relatively. *)
Lemma Decimal_div_near a b :
  0 < a -> 0 < b ->
  let d := Decimal_div (Decimal_of_int a) (Decimal_of_int b) in
  exists u v,
    0 <= u /\ 0 <= v /\ d_exp d = u - v /\ 0 <= d_int d /\
    10 ^ 27 * Z.abs (d_int d * 10 ^ u * b - a * 10 ^ v) <= a * 10 ^ v.
Proof.
  intros Ha Hb d. subst d. unfold Decimal_div, Decimal_of_int. cbv zeta.
  cbn [d_int d_exp]. replace (a =? 0) with false by lia.
  destruct (ndigits_bounds a Ha) as (A1 & Al & Au).
  destruct (ndigits_bounds b Hb) as (B1 & Bl & Bu).
  set (S := ndigits b - ndigits a + prec + 1). unfold prec in S.
  destruct (Z.leb_spec 0 S) as [HS|HS].
  - (* numerator scaled up *)
    pose proof (pow10_pos S HS) as PS.
    assert (Hbig : 10 ^ 28 * b <= a * 10 ^ S).
    { assert (E : 10 ^ ndigits a * 10 ^ S = 10 ^ ndigits b * 10 ^ 29).
      { rewrite <- !Z.pow_add_r by lia. f_equal. unfold S. lia. }
      change (10 ^ 29) with (10 * 10 ^ 28) in E. nia. }
    pose proof (quotient_near (a * 10 ^ S) b (Z.to_nat (0 - 0 - (0 - 0 - S)))
                  (0 - 0) (0 - 0 - S) Hb Hbig) as Q.
    cbv zeta in Q. destruct Q as (u & Hu & Ee & H0 & Hn).
    match goal with
    | |- context [match ?X with pair _ _ => _ end] => destruct X as [c0 e0]
    end.
    cbn [fst snd] in *. exists u, S. rewrite Ee.
    split; [lia|]. split; [lia|]. split; [lia|]. split; [exact H0 | exact Hn].
  - (* denominator scaled up *)
    pose proof (pow10_pos (- S) ltac:(lia)) as PS.
    assert (Hbig : 10 ^ 28 * (b * 10 ^ (- S)) <= a).
    { assert (E : 10 ^ ndigits a = 10 ^ ndigits b * 10 ^ 29 * 10 ^ (- S)).
      { rewrite <- !Z.pow_add_r by lia. f_equal. unfold S. lia. }
      change (10 ^ 29) with (10 * 10 ^ 28) in E. nia. }
    pose proof (quotient_near a (b * 10 ^ (- S)) (Z.to_nat (0 - 0 - (0 - 0 - S)))
                  (0 - 0) (0 - 0 - S) ltac:(nia) Hbig) as Q.
    cbv zeta in Q. destruct Q as (u & Hu & Ee & H0 & Hn).
    match goal with
    | |- context [match ?X with pair _ _ => _ end] => destruct X as [c0 e0]
    end.
    cbn [fst snd] in *. exists (u + - S), 0. rewrite Ee.
    split; [lia|]. split; [lia|]. split; [lia|]. split; [exact H0|].
    rewrite Z.pow_add_r, Z.pow_0_r by lia.
    replace (d_int (fix_prec {| d_int := c0; d_exp := e0 |}) * (10 ^ u * 10 ^ (- S)) * b
             - a * 1)
      with (d_int (fix_prec {| d_int := c0; d_exp := e0 |}) * 10 ^ u * (b * 10 ^ (- S))
            - a) by ring.
    lia.
Qed.

(** The price in millionths that [f"{price:.6f}"] prints is [a / b] up to
    half a millionth and a relative [10 ^ -27]. *)
Lemma price_millionths_near a b :
  0 <= a -> 0 < b ->
  let n6 := rescale 6 (ratio a b) in
  0 <= n6 /\
  2 * 10 ^ 27 * Z.abs (n6 * b - a * 10 ^ 6) <= 10 ^ 27 * b + 2 * (a * 10 ^ 6).
Proof.
  intros Ha Hb n6. subst n6. unfold ratio. replace (b =? 0) with false by lia.
  destruct (Z.eq_dec a 0) as [->|Hne].
  { unfold Decimal_div, Decimal_of_int, rescale. cbn [d_int d_exp]. cbn. lia. }
  destruct (Decimal_div_near a b ltac:(lia) Hb) as (u & v & Hu & Hv & Ee & H0 & Hn).
  cbv zeta in Ee, H0, Hn.
  set (d := Decimal_div (Decimal_of_int a) (Decimal_of_int b)) in *.
  set (c := d_int d) in *.
  pose proof (pow10_pos u Hu) as Pu. pose proof (pow10_pos v Hv) as Pv.
  assert (Hc : 0 < c).
  { destruct (Z.eq_dec c 0) as [E|]; [|lia]. rewrite E in Hn.
    replace (0 * 10 ^ u * b - a * 10 ^ v) with (- (a * 10 ^ v)) in Hn by ring.
    rewrite Z.abs_opp, Z.abs_eq in Hn by nia. nia. }
  unfold rescale. fold c. replace (c =? 0) with false by lia. rewrite Ee.
  destruct (Z.leb_spec (Z.opp 6) (u - v)) as [Hge|Hlt].
  - (* no digit is dropped *)
    set (w := u - v + 6) in *.
    pose proof (pow10_pos w ltac:(lia)) as Pw.
    assert (E : 10 ^ w * 10 ^ v = 10 ^ u * 10 ^ 6).
    { rewrite <- !Z.pow_add_r by lia. f_equal. unfold w. lia. }
    split; [apply Z.mul_nonneg_nonneg; lia|].
    assert (K : Z.abs (c * 10 ^ w * b - a * 10 ^ 6) * 10 ^ v
                = 10 ^ 6 * Z.abs (c * 10 ^ u * b - a * 10 ^ v)).
    { rewrite <- (Z.abs_eq (10 ^ v)) at 1 by lia.
      rewrite <- (Z.abs_eq (10 ^ 6)) at 2 by lia.
      rewrite <- !Z.abs_mul. f_equal. nia. }
    pose proof (Z.abs_nonneg (c * 10 ^ w * b - a * 10 ^ 6)) as HA0.
    set (A := Z.abs (c * 10 ^ w * b - a * 10 ^ 6)) in *. clearbody A.
    set (B := Z.abs (c * 10 ^ u * b - a * 10 ^ v)) in *. clearbody B.
    assert (10 ^ 27 * A * 10 ^ v <= a * 10 ^ 6 * 10 ^ v) by nia.
    assert (10 ^ 27 * A <= a * 10 ^ 6) by nia. lia.
  - (* digits are dropped: round half even *)
    set (w := Z.opp 6 - (u - v)) in *.
    pose proof (pow10_pos w ltac:(lia)) as Pw.
    assert (E : 10 ^ v = 10 ^ u * (10 ^ w * 10 ^ 6)).
    { rewrite <- !Z.pow_add_r by lia. f_equal. unfold w. lia. }
    pose proof (div_half_even_near c (10 ^ w) Pw) as Hr.
    set (n := div_half_even c (10 ^ w)) in *.
    set (t := 10 ^ w) in *.
    assert (Hn0 : 0 <= n).
    { destruct (Z.lt_ge_cases n 0); [|assumption].
      rewrite Z.abs_neq in Hr by nia. nia. }
    split; [exact Hn0|].
    (* cancel 10 ^ u *)
    assert (Hn' : 10 ^ 27 * Z.abs (c * b - a * (t * 10 ^ 6)) <= a * (t * 10 ^ 6)).
    { rewrite E in Hn.
      replace (c * 10 ^ u * b - a * (10 ^ u * (t * 10 ^ 6)))
        with (10 ^ u * (c * b - a * (t * 10 ^ 6))) in Hn by ring.
      rewrite Z.abs_mul, (Z.abs_eq (10 ^ u)) in Hn by lia.
      apply (Z.mul_le_mono_pos_l _ _ (10 ^ u) Pu). lia. }
    assert (T : Z.abs (n * b - a * 10 ^ 6) * t
                <= Z.abs (n * t - c) * b + Z.abs (c * b - a * (t * 10 ^ 6))).
    { rewrite <- (Z.abs_eq t) at 1 by lia. rewrite <- Z.abs_mul.
      rewrite <- (Z.abs_eq b) at 2 by lia. rewrite <- Z.abs_mul.
      replace ((n * b - a * 10 ^ 6) * t)
        with ((n * t - c) * b + (c * b - a * (t * 10 ^ 6))) by ring.
      apply Z.abs_triangle. }
    assert (Hr' : 2 * Z.abs (n * t - c) <= t).
    { replace (2 * (n * t - c)) with ((n * t - c) * 2) in Hr by ring.
      rewrite Z.abs_mul in Hr. cbn [Z.abs] in Hr. lia. }
    pose proof (Z.abs_nonneg (n * b - a * 10 ^ 6)) as HA0.
    set (A := Z.abs (n * b - a * 10 ^ 6)) in *. clearbody A.
    set (B := Z.abs (c * b - a * (t * 10 ^ 6))) in *. clearbody B.
    set (C := Z.abs (n * t - c)) in *. clearbody C.
    assert (F : 2 * 10 ^ 27 * A * t <= (10 ^ 27 * b + 2 * (a * 10 ^ 6)) * t) by nia.
    nia.
Qed.

End DecimalFacts.

(** * Facts about decimal numerals *)

Module NumeralFacts.
Import Py TradeDecoder Spec PyFacts WordFacts DecimalFacts.

Lemma digit_char_code d : (d < 10)%N -> N_of_ascii (digit_char d) = (48 + d)%N.
Proof.
  intros H. unfold digit_char. destruct (N.ltb_spec d 10) as [_|G]; [|lia].
  rewrite N_ascii_embedding; lia.
Qed.

Lemma digits10_value fuel : forall n acc,
  (n < 10 ^ N.of_nat fuel)%N ->
  List.Forall (fun d => (d < 10)%N) acc ->
  List.Forall (fun d => (d < 10)%N) (digits_aux 10 fuel n acc) /\
  fold_left (fun a d => a * 10 + Z.of_N d) (digits_aux 10 fuel n acc) 0 =
  fold_left (fun a d => a * 10 + Z.of_N d) acc (Z.of_N n).
Proof.
  induction fuel as [|fuel IH]; intros n acc B F; cbn [digits_aux].
  - cbn in B. assert (n = 0%N) as -> by lia. split; [exact F | reflexivity].
  - destruct (N.ltb_spec n 10) as [L|G].
    + split; [now constructor|]. reflexivity.
    + assert (n / 10 < 10 ^ N.of_nat fuel)%N.
      { apply N.Div0.div_lt_upper_bound.
        rewrite Nat2N.inj_succ, N.pow_succ_r' in B. exact B. }
      pose proof (N.mod_lt n 10 ltac:(lia)).
      destruct (IH (n / 10)%N ((n mod 10)%N :: acc)) as [F' V];
        [assumption | now constructor |].
      split; [exact F'|]. rewrite V. cbn [fold_left]. f_equal.
      pose proof (N.div_mod n 10 ltac:(lia)). lia.
Qed.

Lemma int_of_string_of_digits ds : forall acc,
  List.Forall (fun d => (d < 10)%N) ds ->
  fold_left (fun a c => a * 10 + (Z.of_N (N_of_ascii c) - 48))
            (list_ascii_of_string (string_of_digits ds)) acc =
  fold_left (fun a d => a * 10 + Z.of_N d) ds acc.
Proof.
  induction ds as [|d ds IH]; intros acc F; [reflexivity|].
  inversion F as [|? ? Hd F']; subst.
  cbn [string_of_digits fold_right list_ascii_of_string fold_left].
  fold (string_of_digits ds). rewrite IH by exact F'. f_equal.
  rewrite digit_char_code by exact Hd. lia.
Qed.

(** [int(str(n))] is [n]. *)
Lemma int_of_str_of_int n : 0 <= n -> int_of_digits (str_of_int n) = n.
Proof.
  intros H. unfold int_of_digits, str_of_int. replace (n <? 0) with false by lia.
  unfold digits.
  destruct (digits10_value (S (N.size_nat (Z.to_N n))) (Z.to_N n) [])
    as [F V]; [apply lt_pow10_fuel | constructor |].
  rewrite int_of_string_of_digits by exact F. rewrite V. cbn [fold_left]. lia.
Qed.

(** [str(n)] of a natural number: decimal digits, one at least. *)
Lemma str_of_int_digits n :
  0 <= n ->
  all_digits (str_of_int n) = true /\
  (1 <= String.length (str_of_int n))%nat /\
  Z.of_nat (String.length (str_of_int n)) = ndigits n.
Proof.
  intros H. unfold str_of_int, ndigits. replace (n <? 0) with false by lia.
  unfold digits.
  destruct (digits10_value (S (N.size_nat (Z.to_N n))) (Z.to_N n) [])
    as [F _]; [apply lt_pow10_fuel | constructor |].
  destruct (digits10_length (S (N.size_nat (Z.to_N n))) (Z.to_N n) [])
    as (L & E & HL & _); [apply lt_pow10_fuel | lia |].
  rewrite length_string_of_digits, E. cbn [List.length].
  split; [|split; [lia | reflexivity]].
  clear E. induction F as [|d ds Hd _ IH]; [reflexivity|].
  cbn [string_of_digits fold_right all_digits]. fold (string_of_digits ds).
  rewrite IH, andb_true_r. unfold is_digit. rewrite digit_char_code by exact Hd.
  apply andb_true_intro. split; [apply N.leb_le | apply N.leb_le]; lia.
Qed.

Lemma list_ascii_app (s t : string) :
  list_ascii_of_string (s +:+ t)
    = (list_ascii_of_string s ++ list_ascii_of_string t)%list.
Proof.
  induction s as [|c s IH]; [reflexivity|].
  rewrite str_app_cons. cbn [list_ascii_of_string app]. now rewrite IH.
Qed.

Lemma int_fold_shift l : forall acc,
  fold_left (fun a c => a * 10 + (Z.of_N (N_of_ascii c) - 48)) l acc
  = acc * 10 ^ Z.of_nat (List.length l)
    + fold_left (fun a c => a * 10 + (Z.of_N (N_of_ascii c) - 48)) l 0.
Proof.
  induction l as [|c l IH]; intros acc; [cbn; lia|].
  cbn [fold_left List.length]. rewrite IH, (IH (0 * 10 + _)).
  rewrite Nat2Z.inj_succ, Z.pow_succ_r by lia. ring.
Qed.

Lemma length_list_ascii s : List.length (list_ascii_of_string s) = String.length s.
Proof. induction s as [|c s IH]; [reflexivity|]. cbn. now rewrite IH. Qed.

(** The value of two numerals written one after the other. *)
Lemma int_of_digits_app (s t : string) :
  int_of_digits (s +:+ t)
    = int_of_digits s * 10 ^ Z.of_nat (String.length t) + int_of_digits t.
Proof.
  unfold int_of_digits. rewrite list_ascii_app, fold_left_app, int_fold_shift.
  now rewrite length_list_ascii.
Qed.

Lemma int_of_zeros k : int_of_digits (str_repeat "0" k) = 0.
Proof.
  induction k as [|k IH]; [reflexivity|].
  change (str_repeat "0" (S k)) with ("0" +:+ str_repeat "0" k).
  rewrite int_of_digits_app, IH. reflexivity.
Qed.

Lemma all_digits_app (s t : string) :
  all_digits (s +:+ t) = all_digits s && all_digits t.
Proof.
  induction s as [|c s IH]; [reflexivity|].
  rewrite str_app_cons. cbn [all_digits]. now rewrite IH, andb_assoc.
Qed.

Lemma all_digits_zeros k : all_digits (str_repeat "0" k) = true.
Proof. induction k as [|k IH]; [reflexivity|]. cbn [str_repeat all_digits]. exact IH. Qed.

(** [str(r).zfill(6)] for [0 <= r < 10 ** 6]: six digits worth [r]. *)
Lemma zfill_6_digits r :
  0 <= r < 10 ^ 6 ->
  all_digits (zfill 6 (str_of_int r)) = true /\
  String.length (zfill 6 (str_of_int r)) = 6%nat /\
  int_of_digits (zfill 6 (str_of_int r)) = r.
Proof.
  intros [H0 H6].
  destruct (str_of_int_digits r H0) as (D & L1 & LN).
  assert (L6 : (String.length (str_of_int r) <= 6)%nat).
  { destruct (Z.eq_dec r 0) as [->|N]; [cbn; lia|].
    destruct (ndigits_bounds r ltac:(lia)) as (_ & B & _).
    assert (10 ^ ndigits r < 10 ^ 7) by (change (10 ^ 7) with (10 * 10 ^ 6); lia).
    assert (ndigits r < 7).
    { destruct (Z.lt_ge_cases (ndigits r) 7) as [?|G]; [assumption|].
      pose proof (Z.pow_le_mono_r 10 7 (ndigits r) ltac:(lia) G). lia. }
    lia. }
  assert (E : zfill 6 (str_of_int r)
              = str_repeat "0" (6 - String.length (str_of_int r)) +:+ str_of_int r).
  { unfold zfill. destruct (str_of_int r) as [|c s] eqn:S; [cbn in L1; lia|].
    cbn [all_digits] in D. apply andb_prop in D as [Dc _].
    replace (Ascii.eqb c "+" || Ascii.eqb c "-") with false; [reflexivity|].
    symmetry. apply orb_false_intro; apply Ascii.eqb_neq; intros ->; discriminate Dc. }
  rewrite E. split; [|split].
  - now rewrite all_digits_app, all_digits_zeros, D.
  - rewrite str_length_app, str_length_repeat. lia.
  - rewrite int_of_digits_app, int_of_zeros, int_of_str_of_int by exact H0. lia.
Qed.

(** ** [rstrip] *)

Lemma rstrip_app_keep c (s t : string) :
  rstrip c t <> "" -> rstrip c (s +:+ t) = s +:+ rstrip c t.
Proof.
  intros H. induction s as [|a s IH]; [reflexivity|].
  rewrite !str_app_cons. cbn [rstrip]. rewrite IH.
  destruct (s +:+ rstrip c t) as [|b u] eqn:E; [|reflexivity].
  destruct s; [|discriminate E]. rewrite str_app_nil in E. contradiction.
Qed.

Lemma rstrip_app_drop c (s t : string) :
  rstrip c t = "" -> rstrip c (s +:+ t) = rstrip c s.
Proof.
  intros H. induction s as [|a s IH]; [exact H|].
  rewrite str_app_cons. cbn [rstrip]. now rewrite IH.
Qed.

(** What [rstrip] takes away is a run of the character. *)
Lemma rstrip_decompose c (s : string) :
  exists k, s = rstrip c s +:+ str_repeat c k.
Proof.
  induction s as [|a s [k IH]]; [exists 0%nat; reflexivity|].
  cbn [rstrip]. destruct (rstrip c s) as [|b u] eqn:E.
  - destruct (Ascii.eqb_spec a c) as [->|N].
    + exists (S k). rewrite str_app_nil in *. cbn [str_repeat]. now rewrite <- IH.
    + exists k. rewrite str_app_cons, str_app_nil. rewrite str_app_nil in IH.
      now rewrite <- IH.
  - exists k. rewrite str_app_cons. now rewrite <- IH.
Qed.

(** A string without the character is left alone. *)
Lemma rstrip_digits (s : string) : all_digits s = true -> rstrip "." s = s.
Proof.
  induction s as [|a s IH]; [reflexivity|]. cbn [all_digits rstrip].
  intros D. apply andb_prop in D as [Da Ds]. rewrite (IH Ds).
  destruct s; [|reflexivity].
  destruct (Ascii.eqb_spec a ".") as [->|_]; [discriminate Da | reflexivity].
Qed.

Lemma split_point_digits (s : string) :
  all_digits s = true -> split_point s = (s, None).
Proof.
  induction s as [|a s IH]; [reflexivity|]. cbn [all_digits split_point].
  intros D. apply andb_prop in D as [Da Ds]. rewrite (IH Ds).
  destruct (Ascii.eqb_spec a ".") as [->|_]; [discriminate Da | reflexivity].
Qed.

Lemma split_point_app (s t : string) :
  all_digits s = true -> split_point (s +:+ String "." t) = (s, Some t).
Proof.
  induction s as [|a s IH]; [reflexivity|]. rewrite str_app_cons.
  cbn [all_digits split_point]. intros D. apply andb_prop in D as [Da Ds].
  rewrite (IH Ds).
  destruct (Ascii.eqb_spec a ".") as [->|_]; [discriminate Da | reflexivity].
Qed.

Lemma isdigit_nonempty (s : string) :
  all_digits s = true -> s <> "" -> isdigit s = true.
Proof. destruct s; [contradiction | trivial]. Qed.

(** The price string, read back, is the number [f"{price:.6f}"] printed. *)
Lemma read_price_str (d : Decimal) :
  0 <= rescale 6 d -> read_millionths (price_str d) = Some (rescale 6 d).
Proof.
  intros H. unfold price_str, format_6f. cbv zeta.
  set (n := rescale 6 d) in *.
  pose proof (Z.div_mod n (10 ^ 6) ltac:(lia)) as Hdm.
  pose proof (Z.mod_pos_bound n (10 ^ 6) ltac:(lia)) as Hm.
  assert (Hq : 0 <= n / 10 ^ 6) by (apply Z.div_pos; lia).
  destruct (str_of_int_digits (n / 10 ^ 6) Hq) as (DI & LI & _).
  pose proof (int_of_str_of_int (n / 10 ^ 6) Hq) as VI.
  destruct (zfill_6_digits (n mod 10 ^ 6) Hm) as (DF & LF & VF).
  set (I := str_of_int (n / 10 ^ 6)) in *.
  set (F := zfill 6 (str_of_int (n mod 10 ^ 6))) in *.
  assert (NI : I <> "") by (intros E; rewrite E in LI; cbn in LI; lia).
  change ("." +:+ F) with (String "." F).
  destruct (rstrip_decompose "0" F) as [k EF].
  destruct (rstrip "0" F) as [|b u] eqn:R.
  - (* no decimal is left *)
    assert (R0 : rstrip "0" (String "." F) = ".") by (cbn [rstrip]; now rewrite R).
    rewrite (rstrip_app_keep "0" I (String "." F)) by (rewrite R0; discriminate).
    rewrite R0, (rstrip_app_drop "." I ".") by reflexivity.
    rewrite (rstrip_digits I DI).
    unfold read_millionths. rewrite (split_point_digits I DI).
    rewrite (isdigit_nonempty I DI NI). f_equal.
    rewrite str_app_nil in EF. rewrite EF, int_of_zeros in VF. lia.
  - (* some decimals are left *)
    set (F' := String b u) in *.
    assert (DF' : all_digits F' = true).
    { rewrite EF, all_digits_app in DF. now apply andb_prop in DF as [? _]. }
    assert (R0 : rstrip "0" (String "." F) = String "." F').
    { cbn [rstrip]. rewrite R. reflexivity. }
    rewrite (rstrip_app_keep "0" I (String "." F)) by (rewrite R0; discriminate).
    rewrite R0.
    assert (R1 : rstrip "." (String "." F') = String "." F').
    { cbn [rstrip]. rewrite (rstrip_digits F' DF'). reflexivity. }
    rewrite (rstrip_app_keep "." I (String "." F')) by (rewrite R1; discriminate).
    rewrite R1.
    unfold read_millionths. rewrite (split_point_app I F' DI).
    rewrite (isdigit_nonempty I DI NI), (isdigit_nonempty F' DF') by discriminate.
    assert (LK : (String.length F' + k = 6)%nat).
    { rewrite EF, str_length_app, str_length_repeat in LF. exact LF. }
    replace (String.length F' <=? 6)%nat with true
      by (symmetry; apply Nat.leb_le; lia).
    cbn [andb]. f_equal.
    rewrite EF, int_of_digits_app, int_of_zeros, str_length_repeat in VF.
    replace (6 - String.length F')%nat with k by lia. lia.
Qed.

End NumeralFacts.

(** * Facts about the trade decoders *)

Module DecoderFacts.
Import Py TradeDecoder Spec PyFacts WordFacts DecimalFacts NumeralFacts.

Lemma ratio_gt a b : 0 <= b ->
  (if 0 <? b then Decimal_div (Decimal_of_int a) (Decimal_of_int b)
   else Decimal_of_int 0) = ratio a b.
Proof.
  intros H. unfold ratio. destruct (Z.eqb_spec b 0) as [->|N]; [reflexivity|].
  now replace (0 <? b) with true by lia.
Qed.

Lemma decode_fields_rule cs log ex t :
  decode_fields cs log ex = Ok t ->
  exists data_bytes,
    data_bytes_of log = Ok data_bytes /\ side_price_rule (read_words data_bytes) t.
Proof.
  unfold decode_fields. intros H.
  apply bind_ok in H as (t1 & _ & H). apply bind_ok in H as (t2 & _ & H).
  apply bind_ok in H as (mk & _ & H). apply bind_ok in H as (t3 & _ & H).
  apply bind_ok in H as (tk & _ & H). apply bind_ok in H as (data_bytes & E & H).
  exists data_bytes. split; [assumption|].
  unfold side_price_rule, read_words; cbn [w_maker_asset_id w_taker_asset_id
    w_maker_amount_filled w_taker_amount_filled].
  rewrite !ratio_gt in H by apply int_from_bytes_nonneg.
  destruct (Z.eqb_spec (int_from_bytes (slice 0 32 data_bytes)) 0) as [Z0|NZ];
    injection H as <-; cbn [side token_id price]; split; intros Hm;
    try contradiction; try (now repeat split).
Qed.

Lemma decode_fields_total cs log ex :
  readable cs log -> exists t, decode_fields cs log ex = Ok t.
Proof.
  intros (t0 & t1 & t2 & t3 & rest & Et & [m Em] & [k Ek] & bs & Eb).
  unfold decode_fields, Log.topic, checksum. rewrite Et.
  cbn [nth_error of_option Py.bind].
  rewrite Em, Ek, Eb. cbn [of_option Py.bind].
  destruct (int_from_bytes (slice 0 32 bs) =? 0); eexists; reflexivity.
Qed.

Lemma decode_order_filled_fields cs log t :
  decode_order_filled cs log = Ok t -> exists ex, decode_fields cs log ex = Ok t.
Proof.
  unfold decode_order_filled. intros H.
  apply bind_ok in H as (a & _ & H). apply bind_ok in H as (ctf & _ & H).
  apply bind_ok in H as (ex & _ & H). eauto.
Qed.

Lemma decode_order_filled_total cs log :
  is_Some (cs (Log.address log)) -> is_Some (cs CTF_EXCHANGE) ->
  is_Some (cs NEGRISK_CTF_EXCHANGE) -> readable cs log ->
  exists t, decode_order_filled cs log = Ok t.
Proof.
  intros [a Ea] [c Ec] [n En] R. unfold decode_order_filled, checksum.
  rewrite Ea, Ec, En. cbn [of_option Py.bind].
  destruct (String.eqb a c); cbn [Py.bind]; [now apply decode_fields_total|].
  destruct (String.eqb a n); cbn [Py.bind]; now apply decode_fields_total.
Qed.

(** A log with fewer than four topics makes [decode_order_filled] raise. *)
Lemma decode_short_topics cs log :
  (List.length (Log.topics log) < 4)%nat ->
  exists e, decode_order_filled cs log = Raise e.
Proof.
  intros Hlen. unfold decode_order_filled.
  destruct (checksum cs (Log.address log)) as [a|e]; cbn [Py.bind]; [|eauto].
  destruct (checksum cs CTF_EXCHANGE) as [ctf|e]; cbn [Py.bind]; [|eauto].
  assert (F : forall ex, exists e, decode_fields cs log ex = Raise e).
  { intros ex. unfold decode_fields.
    destruct (Log.topic log 1) as [t1|e]; cbn [Py.bind]; [|eauto].
    destruct (Log.topic log 2) as [t2|e]; cbn [Py.bind]; [|eauto].
    destruct (checksum cs _) as [mk|e]; cbn [Py.bind]; [|eauto].
    unfold Log.topic.
    replace (nth_error (Log.topics log) 3) with (@None Log.hexdata)
      by (symmetry; apply nth_error_None; lia).
    cbn. eauto. }
  destruct (String.eqb a ctf); cbn [Py.bind]; [apply F|].
  destruct (checksum cs NEGRISK_CTF_EXCHANGE) as [ng|e]; cbn [Py.bind]; [|eauto].
  destruct (String.eqb a ng); cbn [Py.bind]; apply F.
Qed.

(** The loop of stage1 [decode_transaction] leaves out a log of either
    exchange whose taker is the emitting exchange. *)
Lemma stage1_discards_self_fill cs keccak recs log a ctf ex t0 t1 t2 t3 rest tk :
  cs (Log.address log) = Some a -> cs CTF_EXCHANGE = Some ctf ->
  (a = ctf /\ ex = CTF_EXCHANGE) \/
  (a <> ctf /\ cs NEGRISK_CTF_EXCHANGE = Some a /\ ex = NEGRISK_CTF_EXCHANGE) ->
  Log.topics log = t0 :: t1 :: t2 :: t3 :: rest ->
  lower (Log.hex_or_str t0) = lower (Stage1.ORDER_FILLED_TOPIC keccak) ->
  cs ("0x" +:+ str_last 40 (Log.hex_or_str t3)) = Some tk ->
  lower tk = lower ex ->
  Stage1.decode_transaction_step cs keccak recs log = Ok recs.
Proof.
  intros A C X T S K E. unfold Stage1.decode_transaction_step, checksum, Log.topic.
  rewrite A, C, T. cbn [of_option Py.bind].
  destruct X as [[-> ->]|(N & G & ->)].
  - rewrite String.eqb_refl. cbn [Py.bind].
    rewrite S, String.eqb_refl. cbn [negb nth_error of_option Py.bind].
    rewrite K. cbn [of_option Py.bind]. rewrite E, String.eqb_refl. reflexivity.
  - apply String.eqb_neq in N. rewrite N, G. cbn [of_option Py.bind].
    rewrite String.eqb_refl. cbn [Py.bind].
    rewrite S, String.eqb_refl. cbn [negb nth_error of_option Py.bind].
    rewrite K. cbn [of_option Py.bind]. rewrite E, String.eqb_refl. reflexivity.
Qed.

(** The printed price, read back as a number of millionths, is the ratio
    up to half a millionth and the rounding of the quotient; it is the ratio
    itself when that is a whole number of millionths. *)
Lemma price_reads_back a b :
  0 <= a -> 0 <= b ->
  exists n,
    read_millionths (price_str (ratio a b)) = Some n /\
    (b = 0 -> n = 0) /\
    (0 < b ->
     2 * 10 ^ 27 * Z.abs (n * b - a * 10 ^ 6) <= 10 ^ 27 * b + 2 * (a * 10 ^ 6)) /\
    (forall k, 0 < b -> a * 10 ^ 6 = k * b -> 2 * (a * 10 ^ 6) < 10 ^ 27 * b ->
       n = k).
Proof.
  intros Ha Hb. exists (rescale 6 (ratio a b)).
  destruct (Z.eq_dec b 0) as [->|N].
  - split; [reflexivity|]. split; [reflexivity|]. split; intros; lia.
  - destruct (price_millionths_near a b Ha ltac:(lia)) as [H0 Hn].
    split; [now apply read_price_str|]. split; [intros; lia|].
    split; [intros _; exact Hn|].
    intros k Hpos E L. set (n := rescale 6 (ratio a b)) in *.
    rewrite E in Hn.
    replace (n * b - k * b) with ((n - k) * b) in Hn by ring.
    rewrite Z.abs_mul, (Z.abs_eq b) in Hn by lia.
    assert (Z.abs (n - k) < 1) by nia. lia.
Qed.

(** C1. A log that can be read to the end (its addresses accepted, four
    topics, a payload) is decoded by [decode_order_filled]; with the five
    words of its payload, the trade has side BUY, the taker asset id as
    token id ("0x" and 64 hex digits) and the price maker amount / taker
    amount when the maker asset id is 0, and side SELL, the maker asset id
    as token id and the price taker amount / maker amount otherwise; the
    price is zero when the denominator is, and is printed with six decimals,
    trailing zeros trimmed. stage1 [parse_order_filled_log] follows the same
    rule. When the payload holds the two asset words in full, the token id
    is "0x" and the hex of the asset's word as the payload has it. With [a]
    the collateral amount and [b] the token amount, the price is "0" when
    [b] is 0, and otherwise the printed price, in millionths, is within
    half a millionth and a relative 10^-27 of [a / b]. The price string of
    the trade itself spells a number: read back in millionths it is 0 when
    [b] is 0, within that distance of [a / b] otherwise, and exactly
    [a / b] when [a / b] is a whole number of millionths below 10^27 / 2.
    On the words 0, 1, 1000000, 2000000 the trade is a BUY of token
    0x0...01 at price "0.5". *)
Theorem order_filled_side_and_price
    (cs : string -> option string) (log : Log.t) :
  is_Some (cs (Log.address log)) -> is_Some (cs CTF_EXCHANGE) ->
  is_Some (cs NEGRISK_CTF_EXCHANGE) -> readable cs log ->
  exists t data_bytes,
    decode_order_filled cs log = Ok t /\
    data_bytes_of log = Ok data_bytes /\
    side_price_rule (read_words data_bytes) t /\
    (forall ex, exists t1,
       Stage1.parse_order_filled_log cs log ex = Ok t1 /\
       side_price_rule (read_words data_bytes) t1) /\
    ((64 <= List.length data_bytes)%nat ->
       token_id t =
       "0x" +:+ bytes_hex (if w_maker_asset_id (read_words data_bytes) =? 0
                           then slice 32 64 data_bytes else slice 0 32 data_bytes)) /\
    (let '(a, b) := price_terms (read_words data_bytes) in
     price t = price_str (ratio a b) /\
     (b = 0 -> price t = "0") /\
     (0 < b ->
      2 * 10 ^ 27 * Z.abs (millionths a b * b - a * 10 ^ 6)
        <= 10 ^ 27 * b + 2 * (a * 10 ^ 6)) /\
     (exists n,
        read_millionths (price t) = Some n /\
        (b = 0 -> n = 0) /\
        (0 < b ->
         2 * 10 ^ 27 * Z.abs (n * b - a * 10 ^ 6)
           <= 10 ^ 27 * b + 2 * (a * 10 ^ 6)) /\
        (forall k, 0 < b -> a * 10 ^ 6 = k * b ->
           2 * (a * 10 ^ 6) < 10 ^ 27 * b -> n = k))) /\
    (scenario_1 (read_words data_bytes) ->
       side t = "BUY" /\
       token_id t = "0x0000000000000000000000000000000000000000000000000000000000000001" /\
       price t = "0.5").
Proof.
  intros Ha Hc Hn R.
  destruct (decode_order_filled_total cs log Ha Hc Hn R) as [t Et].
  destruct (decode_order_filled_fields cs log t Et) as [ex Ef].
  destruct (decode_fields_rule cs log ex t Ef) as (bs & Eb & Hr).
  exists t, bs. split; [exact Et|]. split; [exact Eb|]. split; [exact Hr|]. split.
  { intros ex1. destruct (decode_fields_total cs log ex1 R) as [t1 E1].
    exists t1. split; [exact E1|].
    destruct (decode_fields_rule cs log ex1 t1 E1) as (bs1 & Eb1 & Hr1).
    rewrite Eb in Eb1. injection Eb1 as <-. exact Hr1. }
  split; [|split].
  - intros L. destruct Hr as [Hbuy Hsell].
    destruct (Z.eqb_spec (w_maker_asset_id (read_words bs)) 0) as [M|M].
    + destruct (Hbuy M) as (_ & -> & _). cbn [read_words w_taker_asset_id].
      now rewrite format_064x_from_bytes by (rewrite length_slice; lia).
    + destruct (Hsell M) as (_ & -> & _). cbn [read_words w_maker_asset_id].
      now rewrite format_064x_from_bytes by (rewrite length_slice; lia).
  - unfold price_terms. destruct Hr as [Hbuy Hsell].
    pose proof (int_from_bytes_nonneg (slice 64 96 bs)) as Hma.
    pose proof (int_from_bytes_nonneg (slice 96 128 bs)) as Hta.
    destruct (Z.eqb_spec (w_maker_asset_id (read_words bs)) 0) as [M|M].
    + destruct (Hbuy M) as (_ & _ & ->). split; [reflexivity|]. split; [|split].
      * intros ->. reflexivity.
      * intros Hb. now apply price_millionths_near.
      * apply price_reads_back; [exact Hma | exact Hta].
    + destruct (Hsell M) as (_ & _ & ->). split; [reflexivity|]. split; [|split].
      * intros ->. reflexivity.
      * intros Hb. now apply price_millionths_near.
      * apply price_reads_back; [exact Hta | exact Hma].
  - intros (M & T & MA & TA). destruct Hr as [Hbuy _].
    destruct (Hbuy M) as (-> & -> & ->). rewrite T, MA, TA.
    repeat split; vm_compute; reflexivity.
Qed.

Lemma order_filled_side_and_price_witness :
  exists t,
    decode_order_filled Demo.cs Demo.self_fill_log = Ok t /\
    side t = "BUY" /\
    token_id t = "0x0000000000000000000000000000000000000000000000000000000000000001" /\
    price t = "0.5" /\
    read_millionths (price t) = Some 500000.
Proof.
  destruct (order_filled_side_and_price Demo.cs Demo.self_fill_log)
    as (t & bs & D & B & _ & _ & _ & P & S).
  - eexists; reflexivity.
  - eexists; reflexivity.
  - eexists; reflexivity.
  - exists Demo.signature_topic, (Log.HBytes (repeat xbb 32)),
      (Demo.address_topic NEGRISK_CTF_EXCHANGE), (Demo.address_topic CTF_EXCHANGE), [].
    split; [reflexivity|]. split; [eexists; reflexivity|].
    split; [eexists; reflexivity|]. eexists; reflexivity.
  - exists t. split; [exact D|].
    vm_compute in B. injection B as <-.
    assert (S1 : scenario_1 (read_words
                   (Demo.word 0 ++ Demo.word 1 ++ Demo.word 1000000
                    ++ Demo.word 2000000 ++ Demo.word 0)%list))
      by (vm_compute; repeat split).
    destruct (S S1) as (S2 & S3 & S4).
    split; [exact S2|]. split; [exact S3|]. split; [exact S4|].
    rewrite S4. reflexivity.
Defined.

(** X1: the transaction decoder of stage1 leaves out an OrderFilled log of
    either tracked exchange whose taker is the exchange that emitted it: a
    log of the CTF exchange with the CTF exchange as taker, and a log of the
    NegRisk exchange with the NegRisk exchange as taker. The list of trades
    is returned as it was. *)
Theorem stage1_leaves_out_self_fill cs keccak recs log a ctf ex t0 t1 t2 t3 rest tk :
  cs (Log.address log) = Some a -> cs CTF_EXCHANGE = Some ctf ->
  (a = ctf /\ ex = CTF_EXCHANGE) \/
  (a <> ctf /\ cs NEGRISK_CTF_EXCHANGE = Some a /\ ex = NEGRISK_CTF_EXCHANGE) ->
  Log.topics log = t0 :: t1 :: t2 :: t3 :: rest ->
  lower (Log.hex_or_str t0) = lower (Stage1.ORDER_FILLED_TOPIC keccak) ->
  cs ("0x" +:+ str_last 40 (Log.hex_or_str t3)) = Some tk ->
  lower tk = lower ex ->
  Stage1.decode_transaction_step cs keccak recs log = Ok recs.
Proof.
  intros A C X T S K E.
  now apply (stage1_discards_self_fill cs keccak recs log a ctf ex t0 t1 t2 t3 rest tk).
Qed.

Lemma stage1_leaves_out_self_fill_witness :
  Stage1.decode_transaction Demo.cs Demo.keccak
    (fun _ => Ok [Demo.self_fill_log; Demo.negrisk_self_fill_log]) "0xtx" = Ok [].
Proof.
  unfold Stage1.decode_transaction. cbn [Py.bind Stage1.decode_transaction_loop].
  rewrite (stage1_leaves_out_self_fill Demo.cs Demo.keccak [] Demo.self_fill_log
             CTF_EXCHANGE CTF_EXCHANGE CTF_EXCHANGE
             Demo.signature_topic (Log.HBytes (repeat xbb 32))
             (Demo.address_topic NEGRISK_CTF_EXCHANGE)
             (Demo.address_topic CTF_EXCHANGE) []
             "0x4bfb41d5b3570defd03c39a9a4d8de6bd8b8982e");
    [|reflexivity|reflexivity|left; split; reflexivity
     |reflexivity|reflexivity|reflexivity|reflexivity].
  cbn [Py.bind].
  rewrite (stage1_leaves_out_self_fill Demo.cs Demo.keccak []
             Demo.negrisk_self_fill_log
             NEGRISK_CTF_EXCHANGE CTF_EXCHANGE NEGRISK_CTF_EXCHANGE
             Demo.signature_topic (Log.HBytes (repeat xbb 32))
             (Demo.address_topic CTF_EXCHANGE)
             (Demo.address_topic NEGRISK_CTF_EXCHANGE) []
             "0xc5d563a36ae78145c45a50134d48a1215220f80a");
    [reflexivity|reflexivity|reflexivity
     |right; split; [discriminate|split; reflexivity]
     |reflexivity|reflexivity|reflexivity|reflexivity].
Defined.

End DecoderFacts.

(** * Facts about the store *)

Module StoreFacts.
Import Py Store Spec.

Lemma same_key_spec tx li r : same_key tx li r = true <-> key_of r = (tx, li).
Proof.
  unfold same_key, key_of. rewrite andb_true_iff, String.eqb_eq, Z.eqb_eq.
  split; [intros [-> ->]; reflexivity | intros [= -> ->]; auto].
Qed.

Lemma key_taken_spec d tx li :
  key_taken d tx li = true <-> List.In (tx, li) (List.map key_of (trades d)).
Proof.
  unfold key_taken. rewrite existsb_exists, in_map_iff.
  split; intros (r & H1 & H2); exists r.
  - apply same_key_spec in H2. auto.
  - split; [auto | now apply same_key_spec].
Qed.

Lemma fetch_market_some c t m :
  fetch_market_by_token_id c t = Some m ->
  List.In m (markets (working c)) /\ (yes_token_id m = t \/ no_token_id m = t).
Proof.
  unfold fetch_market_by_token_id. intros H. apply find_some in H as [Hin H].
  split; [exact Hin|]. apply orb_prop in H as [H|H]; apply String.eqb_eq in H; auto.
Qed.

Lemma fetch_market_none c t :
  fetch_market_by_token_id c t = None <->
  forall m, List.In m (markets (working c)) -> yes_token_id m <> t /\ no_token_id m <> t.
Proof.
  unfold fetch_market_by_token_id. split.
  - intros H m Hin. pose proof (find_none _ _ H m Hin) as Hf. cbn in Hf.
    apply orb_false_elim in Hf as [H1 H2].
    apply String.eqb_neq in H1, H2. auto.
  - intros H. destruct (List.find _ _) as [m|] eqn:E; [|reflexivity].
    apply find_some in E as [Hin E]. destruct (H m Hin) as [H1 H2].
    apply orb_prop in E as [E|E]; apply String.eqb_eq in E; contradiction.
Qed.

(** What the insert loop leaves behind. *)
Lemma insert_trades_loop_spec ts : forall d n d' n',
  insert_trades_loop d n ts = (d', n') ->
  markets d' = markets d /\ sync_state d' = sync_state d /\
  (exists added,
     trades d' = (trades d ++ added)%list /\
     Z.of_nat (List.length added) = n' - n /\
     trades_seq d' = trades_seq d + Z.of_nat (List.length added) /\
     List.Forall (fun r => List.In (row r) ts) added) /\
  (forall tx li, key_taken d tx li = true -> key_taken d' tx li = true) /\
  (forall t, List.In t ts -> key_taken d' (r_tx_hash t) (r_log_index t) = true) /\
  (unique_keys d -> unique_keys d').
Proof.
  induction ts as [|t ts IH]; intros d n d' n' H; cbn [insert_trades_loop] in H.
  - injection H as <- <-. split; [reflexivity|]. split; [reflexivity|]. split.
    { exists []. rewrite app_nil_r. repeat split; [cbn; lia | cbn; lia | constructor]. }
    split; [auto|]. split; [intros t []|auto].
  - unfold execute_insert_trade in H.
    destruct (key_taken d (r_tx_hash t) (r_log_index t)) eqn:K.
    + apply IH in H as (Hm & Hs & (added & Ha & Hn & Hq & Hf) & Hk & Hi & Hu).
      repeat split; auto.
      * exists added. repeat split; auto.
        eapply List.Forall_impl; [|exact Hf]. cbn. auto.
      * intros t' [<-|Hin]; auto.
    + apply IH in H as (Hm & Hs & (added & Ha & Hn & Hq & Hf) & Hk & Hi & Hu).
      cbn [markets sync_state trades trades_seq] in *.
      assert (Hmono : forall tx li, key_taken d tx li = true ->
                key_taken (mkDb (markets d)
                  (trades d ++ [mkTradeRow (trades_seq d + 1) t])
                  (trades_seq d + 1) (sync_state d)) tx li = true).
      { intros tx li. unfold key_taken. cbn [trades].
        rewrite existsb_app. intros ->. reflexivity. }
      assert (Hnew : key_taken (mkDb (markets d)
                  (trades d ++ [mkTradeRow (trades_seq d + 1) t])
                  (trades_seq d + 1) (sync_state d)) (r_tx_hash t) (r_log_index t)
                = true).
      { unfold key_taken. cbn [trades]. rewrite existsb_app. apply orb_true_iff. right.
        cbn. unfold same_key. cbn. now rewrite String.eqb_refl, Z.eqb_refl. }
      repeat split; auto.
      * exists (mkTradeRow (trades_seq d + 1) t :: added).
        rewrite Ha, <- app_assoc. cbn [app List.length].
        repeat split; [lia | lia |].
        constructor; [cbn; auto|]. eapply List.Forall_impl; [|exact Hf]. cbn. auto.
      * intros t' [<-|Hin]; auto.
      * intros U. apply Hu. unfold unique_keys in *. cbn [trades].
        rewrite map_app. cbn [List.map].
        apply List.NoDup_app; [exact U | |].
        -- apply List.NoDup_cons; [intros [] | constructor].
        -- intros k Hin [<-|[]].
           assert (key_taken d (r_tx_hash t) (r_log_index t) = true)
             by now apply key_taken_spec.
           congruence.
Qed.




Lemma insert_trades_working c ts :
  working (snd (insert_trades c ts)) = fst (insert_trades_loop (working c) 0 ts) /\
  fst (insert_trades c ts) = snd (insert_trades_loop (working c) 0 ts) /\
  journal (snd (insert_trades c ts)) =
    (journal c ++ match ts with
                  | [] => []
                  | _ => [fst (insert_trades_loop (working c) 0 ts)]
                  end)%list.
Proof.
  unfold insert_trades. destruct ts as [|t ts].
  - cbn. now rewrite app_nil_r.
  - destruct (insert_trades_loop (working c) 0 (t :: ts)) as [d n]. cbn. auto.
Qed.

Lemma working_update_sync_state c key b :
  working (update_sync_state c key b) =
  mkDb (markets (working c)) (trades (working c)) (trades_seq (working c))
       (<[key := b]> (sync_state (working c))) /\
  committed (update_sync_state c key b) = working (update_sync_state c key b) /\
  journal (update_sync_state c key b) =
    (journal c ++ [working (update_sync_state c key b)])%list.
Proof. repeat split. Qed.

(** The tables of [init_db] have no two rows with one key, and the insert
    keeps it so. *)
Lemma unique_keys_init : unique_keys (working init_db).
Proof. constructor. Qed.

Lemma unique_keys_insert_trades c ts :
  unique_keys (working c) -> unique_keys (working (snd (insert_trades c ts))).
Proof.
  intros U. destruct (insert_trades_working c ts) as (W & _ & _). rewrite W.
  destruct (insert_trades_loop (working c) 0 ts) as [d n] eqn:E.
  apply insert_trades_loop_spec in E as (_ & _ & _ & _ & _ & Hu). now apply Hu.
Qed.



End StoreFacts.

(** * Facts about the indexing pipeline *)

Module IndexerFacts.
Import Py TradeDecoder Store Indexer Spec PyFacts DecoderFacts StoreFacts.

Section Parsing.

Variable cs : string -> option string.
Variable strf : Z -> option string.



Lemma parse_trade_outcome log ts c r :
  parse_trade_from_log cs log ts c = Ok (Some r) ->
  yes_or_no r /\
  exists m,
    fetch_market_by_token_id c (r_token_id r) = Some m /\
    (yes_token_id m = r_token_id r \/ no_token_id m = r_token_id r) /\
    r_market_id r = market_id m.
Proof.
  unfold parse_trade_from_log, yes_or_no. intros H.
  apply bind_ok in H as (trade & _ & H).
  destruct (fetch_market_by_token_id c (token_id trade)) as [m|] eqn:F; [|discriminate].
  injection H as <-. cbn [r_outcome r_token_id r_market_id].
  destruct (fetch_market_some c _ m F) as [_ Hm].
  split; [|eauto].
  destruct Hm as [<-|<-].
  - rewrite String.eqb_refl. now left.
  - rewrite String.eqb_refl. destruct (String.eqb _ _); auto.
Qed.

Lemma parse_logs_outcomes w3 c logs : forall cache recs skipped recs' skipped',
  List.Forall yes_or_no recs ->
  parse_logs cs strf w3 c logs cache recs skipped = Ok (recs', skipped') ->
  List.Forall yes_or_no recs'.
Proof.
  induction logs as [|log logs IH]; intros cache recs skipped recs' skipped' F H;
    cbn [parse_logs] in H.
  - now injection H as <- <-.
  - apply bind_ok in H as ([u cache'] & _ & H).
    apply bind_ok in H as (ts & _ & H).
    apply bind_ok in H as (o & P & H).
    destruct o as [r|]; [|now apply IH in H].
    apply IH in H; [exact H|].
    apply List.Forall_app. split; [exact F|].
    constructor; [|constructor]. now apply parse_trade_outcome in P as [P _].
Qed.

(** One log with fewer than four topics makes the whole loop raise. *)
Lemma parse_logs_short_topics w3 c log logs :
  List.In log logs -> (List.length (Log.topics log) < 4)%nat ->
  forall cache recs skipped,
    exists e, parse_logs cs strf w3 c logs cache recs skipped = Raise e.
Proof.
  intros Hin Hlen. induction logs as [|l logs IH]; [destruct Hin|].
  intros cache recs skipped. cbn [parse_logs].
  destruct (get_block_timestamp w3 (Log.blockNumber l) cache) as [[u cache']|e];
    cbn [Py.bind]; [|eauto].
  destruct (format_timestamp strf u) as [ts|e]; cbn [Py.bind]; [|eauto].
  destruct Hin as [->|Hin].
  - unfold parse_trade_from_log.
    destruct (decode_short_topics cs log Hlen) as [e ->]. cbn. eauto.
  - destruct (parse_trade_from_log cs l ts c) as [[r|]|e]; cbn [Py.bind];
      [apply IH, Hin | apply IH, Hin | eauto].
Qed.

(** The cache holds what the node answered. *)
Lemma get_block_timestamp_node w3 b cache u cache' :
  (forall k v, cache !! k = Some v -> get_block w3 k = Ok v) ->
  get_block_timestamp w3 b cache = Ok (u, cache') ->
  get_block w3 b = Ok u /\
  (forall k v, cache' !! k = Some v -> get_block w3 k = Ok v).
Proof.
  intros I. unfold get_block_timestamp.
  destruct (cache !! b) as [v|] eqn:E.
  - intros [= <- <-]. split; [now apply I | exact I].
  - intros H. apply bind_ok in H as (t & G & [= <- <-]).
    split; [exact G|]. intros k v.
    destruct (Z.eq_dec b k) as [->|N].
    + rewrite lookup_insert_eq. now intros [= <-].
    + rewrite lookup_insert_ne by exact N. apply I.
Qed.

(** One log whose block has no timestamp to print (the node raises for
    the block, or its timestamp is outside the range of [datetime]) makes
    the whole loop raise. *)
Lemma parse_logs_no_timestamp w3 c log logs :
  List.In log logs ->
  (forall u, get_block w3 (Log.blockNumber log) = Ok u -> strf u = None) ->
  forall cache recs skipped,
    (forall k v, cache !! k = Some v -> get_block w3 k = Ok v) ->
    exists e, parse_logs cs strf w3 c logs cache recs skipped = Raise e.
Proof.
  intros Hin Hno. induction logs as [|l logs IH]; [destruct Hin|].
  intros cache recs skipped I. cbn [parse_logs].
  destruct (get_block_timestamp w3 (Log.blockNumber l) cache) as [[u cache']|e] eqn:G;
    cbn [Py.bind]; [|eauto].
  destruct (get_block_timestamp_node _ _ _ _ _ I G) as [B I'].
  destruct (format_timestamp strf u) as [ts|e] eqn:F; cbn [Py.bind]; [|eauto].
  destruct Hin as [->|Hin].
  - unfold format_timestamp in F. rewrite (Hno u B) in F. discriminate F.
  - destruct (parse_trade_from_log cs l ts c) as [[r|]|e]; cbn [Py.bind];
      [now apply IH | now apply IH | eauto].
Qed.

End Parsing.

Section RunIndexer.

Variable cs : string -> option string.
Variable keccak : list byte -> list byte.
Variable strf : Z -> option string.
Variable w3 : Web3.
Variables from to : Z.
Variable addrs : option (list string).
Variable key : string.

Let run (c : conn) := run_indexer cs keccak strf w3 c from to addrs key.
Let the_logs :=
  fetch_logs keccak w3 from to
    (match addrs with None => [CTF_EXCHANGE; NEGRISK_CTF_EXCHANGE] | Some l => l end).

Lemma run_indexer_ok c r c' :
  run c = (Ok r, c') ->
  exists logs recs skipped,
    the_logs = Ok logs /\
    parse_logs cs strf w3 c logs ∅ [] 0 = Ok (recs, skipped) /\
    c' = update_sync_state (snd (insert_trades c recs)) key to /\
    inserted_trades r = fst (insert_trades c recs) /\
    parsed_trades r = Z.of_nat (List.length recs) /\
    total_logs r = Z.of_nat (List.length logs) /\
    skipped_trades r = skipped.
Proof.
  unfold run, run_indexer. fold the_logs.
  destruct the_logs as [logs|e] eqn:L; [|discriminate].
  destruct (parse_logs cs strf w3 c logs ∅ [] 0) as [[recs skipped]|e] eqn:P;
    [|discriminate].
  destruct (insert_trades c recs) as [n c1] eqn:E.
  intros [= <- <-]. exists logs, recs, skipped. rewrite E. cbn.
  repeat split; assumption.
Qed.


(** A run keeps the keys of the stored trades apart. *)
Lemma unique_keys_run_indexer c r c' :
  run c = (Ok r, c') -> unique_keys (working c) -> unique_keys (working c').
Proof.
  intros H U. apply run_indexer_ok in H as (logs & recs & skipped & _ & _ & -> & _).
  apply (unique_keys_insert_trades c recs) in U. exact U.
Qed.

End RunIndexer.

(** C3, the claim as it stands fails: a run that inserts a trade makes a
    state durable that holds the trade while the watermark is not there. *)
Lemma commit_not_atomic_counterexample :
  (exists r, fst (Demo.run [Demo.self_fill_log] Demo.conn_1) = Ok r /\
             inserted_trades r = 1) /\
  ~ one_atomic_unit Demo.conn_1 (snd (Demo.run [Demo.self_fill_log] Demo.conn_1))
      "trade_indexer" 100.
Proof.
  split.
  - eexists. split; vm_compute; reflexivity.
  - intros H.
    assert (E : exists d, List.nth_error
               (durable_during Demo.conn_1
                  (snd (Demo.run [Demo.self_fill_log] Demo.conn_1))) 0 = Some d /\
               sync_state d !! "trade_indexer" = None).
    { eexists. split; vm_compute; reflexivity. }
    destruct E as (d & Hd & Hs). apply nth_error_In in Hd.
    destruct (H d Hd) as [_ Hw]. congruence.
Qed.

(** C3, amended. The watermark is advanced only after the trades are
    durably persisted, in two commits: a run that parsed trades makes two
    states durable, first one that holds the trades and the watermark as it
    was, then one that holds the trades and the watermark at [to_block]; a
    run that parsed none makes the second only. No state made durable has
    the watermark advanced without the trades. *)
Theorem trades_commit_before_watermark
    (cs : string -> option string) (keccak : list byte -> list byte)
    (strf : Z -> option string) (w3 : Web3) (from to : Z)
    (addrs : option (list string)) (key : string)
    (c c' : conn) (r : index_result) :
  run_indexer cs keccak strf w3 c from to addrs key = (Ok r, c') ->
  exists new,
    journal c' = (journal c ++ new)%list /\
    (forall d, List.In d new ->
       trades d = trades (working c') /\ markets d = markets (working c')) /\
    committed c' = working c' /\
    sync_state (working c') = <[key := to]> (sync_state (working c)) /\
    (parsed_trades r = 0 -> new = [working c']) /\
    (parsed_trades r <> 0 ->
       exists d1, new = [d1; working c'] /\ sync_state d1 = sync_state (working c)).
Proof.
  intros H.
  apply run_indexer_ok in H as (logs & recs & skipped & _ & _ & -> & _ & Hp & _).
  destruct (insert_trades_working c recs) as (W & _ & J).
  destruct (insert_trades_loop (working c) 0 recs) as [d n] eqn:E.
  cbn [fst] in W, J.
  pose proof (insert_trades_loop_spec _ _ _ _ _ E) as (Hm & Hs & _).
  set (c1 := snd (insert_trades c recs)) in *.
  destruct (working_update_sync_state c1 key to) as (W' & C' & J').
  rewrite W in W'.
  exists (match recs with [] => [] | _ => [d] end ++
          [working (update_sync_state c1 key to)])%list.
  split; [rewrite J', J; now rewrite <- app_assoc|].
  split.
  { intros d0 Hin. rewrite W'. cbn [trades markets].
    apply in_app_or in Hin as [Hin|[<-|[]]].
    - destruct recs; [destruct Hin|]. destruct Hin as [<-|[]]. auto.
    - rewrite W'. auto. }
  split; [exact C'|]. split; [rewrite W'; cbn; now rewrite Hs|].
  rewrite Hp. split.
  - intros Z0. destruct recs; [reflexivity | cbn in Z0; lia].
  - intros NZ. destruct recs as [|t recs]; [cbn in NZ; lia|].
    exists d. split; [reflexivity | exact Hs].
Qed.

Lemma trades_commit_before_watermark_witness :
  exists d1 d2,
    journal (snd (Demo.run [Demo.self_fill_log] Demo.conn_1)) = [Demo.db_1; d1; d2] /\
    trades d1 = trades d2 /\
    sync_state d1 !! "trade_indexer" = None /\
    sync_state d2 !! "trade_indexer" = Some 100.
Proof.
  destruct (Demo.run [Demo.self_fill_log] Demo.conn_1) as [[r|e] c'] eqn:R;
    [|discriminate R].
  destruct (trades_commit_before_watermark Demo.cs Demo.keccak Demo.strf
              (Demo.node [Demo.self_fill_log]) 100 100 None "trade_indexer"
              Demo.conn_1 c' r R)
    as (new & J & T & _ & S & _ & N).
  destruct N as (d1 & -> & S1).
  { vm_compute in R. injection R as <- _. discriminate. }
  exists d1, (working c'). cbn [snd]. split; [exact J|]. split.
  - destruct (T d1) as [-> _]; [now left | reflexivity].
  - rewrite S1, S. split; [reflexivity | apply lookup_insert_eq].
Defined.

(** C4: the code at a log whose taker is the exchange. Any log that decodes
    to a trade whose taker is its exchange and whose token id resolves is
    inserted by [run_indexer] like any other: nothing in stage2 compares
    the taker to the exchange. *)
Theorem self_fill_log_is_indexed
    (cs : string -> option string) (keccak : list byte -> list byte)
    (strf : Z -> option string) (w3 : Web3) (from to : Z)
    (addrs : list string) (key : string) (c : conn)
    (log : Log.t) (t : Trade) (m : market_row) (u : Z) (ts : string) :
  fetch_logs keccak w3 from to addrs = Ok [log] ->
  decode_order_filled cs log = Ok t ->
  lower (taker t) = lower (exchange t) ->
  get_block w3 (Log.blockNumber log) = Ok u ->
  strf u = Some ts ->
  fetch_market_by_token_id c (token_id t) = Some m ->
  key_taken (working c) (tx_hash t) (log_index t) = false ->
  exists r c' new_row,
    run_indexer cs keccak strf w3 c from to (Some addrs) key = (Ok r, c') /\
    inserted_trades r = 1 /\ skipped_trades r = 0 /\
    trades (working c') = (trades (working c) ++ [new_row])%list /\
    r_taker (row new_row) = taker t /\
    r_exchange (row new_row) = exchange t.
Proof.
  intros L D S B F M K.
  unfold run_indexer. rewrite L. cbn [parse_logs].
  unfold get_block_timestamp. rewrite lookup_empty, B. cbn [Py.bind].
  unfold format_timestamp. rewrite F. cbn [of_option Py.bind].
  unfold parse_trade_from_log. rewrite D. cbn [Py.bind]. rewrite M. cbn [Py.bind].
  cbn [app insert_trades insert_trades_loop].
  unfold execute_insert_trade. cbn [r_tx_hash r_log_index]. rewrite K.
  cbn [insert_trades_loop]. eexists _, _, _. split; [reflexivity|].
  cbn. repeat split.
Qed.

Lemma self_fill_log_is_indexed_witness :
  exists r c' new_row,
    Demo.run [Demo.self_fill_log] Demo.conn_1 = (Ok r, c') /\
    inserted_trades r = 1 /\
    lower (r_taker (row new_row)) = lower (r_exchange (row new_row)) /\
    List.In new_row (trades (working c')).
Proof.
  destruct (decode_order_filled Demo.cs Demo.self_fill_log) as [t|] eqn:D;
    [|discriminate D].
  destruct (self_fill_log_is_indexed Demo.cs Demo.keccak Demo.strf
              (Demo.node [Demo.self_fill_log]) 100 100
              [CTF_EXCHANGE; NEGRISK_CTF_EXCHANGE] "trade_indexer" Demo.conn_1
              Demo.self_fill_log t Demo.market_1 1704067200 "2024-01-01T00:00:00")
    as (r & c' & new_row & R & I & _ & T & Tk & Ex).
  - reflexivity.
  - exact D.
  - vm_compute in D. injection D as <-. reflexivity.
  - reflexivity.
  - reflexivity.
  - vm_compute in D. injection D as <-. reflexivity.
  - vm_compute in D. injection D as <-. reflexivity.
  - exists r, c', new_row. split; [exact R|]. split; [exact I|]. split.
    + rewrite Tk, Ex. vm_compute in D. injection D as <-. reflexivity.
    + rewrite T. apply in_or_app. right. now left.
Defined.

(** C5: the code at a batch that holds a malformed log. A log with fewer
    than four topics anywhere in the batch makes [run_indexer] raise: no log
    of the batch is inserted or counted and the connection is as it was. *)
Theorem malformed_log_aborts_batch
    (cs : string -> option string) (keccak : list byte -> list byte)
    (strf : Z -> option string) (w3 : Web3) (from to : Z)
    (addrs : list string) (key : string) (c : conn)
    (logs : list Log.t) (log : Log.t) :
  fetch_logs keccak w3 from to addrs = Ok logs ->
  List.In log logs ->
  (List.length (Log.topics log) < 4)%nat ->
  exists e, run_indexer cs keccak strf w3 c from to (Some addrs) key = (Raise e, c).
Proof.
  intros L Hin Hlen. unfold run_indexer. rewrite L.
  destruct (parse_logs_short_topics cs strf w3 c log logs Hin Hlen ∅ [] 0) as [e ->].
  eauto.
Qed.

Lemma malformed_log_aborts_batch_witness :
  exists e,
    Demo.run [Demo.short_log; Demo.self_fill_log] Demo.conn_1 = (Raise e, Demo.conn_1).
Proof.
  destruct (malformed_log_aborts_batch Demo.cs Demo.keccak Demo.strf
              (Demo.node [Demo.short_log; Demo.self_fill_log]) 100 100
              [CTF_EXCHANGE; NEGRISK_CTF_EXCHANGE] "trade_indexer" Demo.conn_1
              [Demo.short_log; Demo.self_fill_log] Demo.short_log)
    as [e He].
  - reflexivity.
  - left. reflexivity.
  - vm_compute. lia.
  - exists e. exact He.
Defined.



(** C7: the code at a stored position id that differs from the decoded
    token id in letter case only. [fetch_market_by_token_id] compares with
    SQL [=], which tells letter case apart, so it finds no market unless a
    stored position id is the queried string character for character. A
    market whose stored id is the token id of the trade in another letter
    case (the decoder writes lower case, [parse_market_from_gamma] stores a
    hex id as Gamma gives it) is not found: [parse_trade_from_log] returns
    no record, and a run over that one log, up to a block number that fits
    the 64-bit INTEGER of the watermark, parses no trade and skips one. *)
Theorem case_mismatch_drops_trade
    (cs : string -> option string) (keccak : list byte -> list byte)
    (strf : Z -> option string) (w3 : Web3) (from to : Z)
    (addrs : list string) (key : string) (c : conn)
    (log : Log.t) (t : Trade) (m : market_row) (u : Z) (ts : string) :
  List.In m (markets (working c)) ->
  lower (yes_token_id m) = lower (token_id t) \/
  lower (no_token_id m) = lower (token_id t) ->
  (forall m', List.In m' (markets (working c)) ->
     yes_token_id m' <> token_id t /\ no_token_id m' <> token_id t) ->
  decode_order_filled cs log = Ok t ->
  fetch_logs keccak w3 from to addrs = Ok [log] ->
  get_block w3 (Log.blockNumber log) = Ok u ->
  strf u = Some ts ->
  Queries.fits_int64 to = true ->
  fetch_market_by_token_id c (token_id t) = None /\
  parse_trade_from_log cs log ts c = Ok None /\
  exists r c',
    run_indexer cs keccak strf w3 c from to (Some addrs) key = (Ok r, c') /\
    total_logs r = 1 /\ parsed_trades r = 0 /\
    inserted_trades r = 0 /\ skipped_trades r = 1 /\
    trades (working c') = trades (working c).
Proof.
  intros _ _ N D L B F _.
  assert (E : fetch_market_by_token_id c (token_id t) = None)
    by (apply fetch_market_none; exact N).
  assert (P : parse_trade_from_log cs log ts c = Ok None).
  { unfold parse_trade_from_log. rewrite D. cbn [Py.bind]. now rewrite E. }
  split; [exact E|]. split; [exact P|].
  unfold run_indexer. rewrite L. cbn [parse_logs].
  unfold get_block_timestamp. rewrite lookup_empty, B. cbn [Py.bind].
  unfold format_timestamp. rewrite F. cbn [of_option Py.bind].
  rewrite P. cbn [Py.bind insert_trades].
  eexists _, _. split; [reflexivity|]. cbn. repeat split.
Qed.

Lemma case_mismatch_drops_trade_witness :
  lower (yes_token_id Demo.market_upper)
    = "0x00000000000000000000000000000000000000000000000000000000000000ab" /\
  fetch_market_by_token_id Demo.conn_upper
    "0x00000000000000000000000000000000000000000000000000000000000000ab" = None /\
  exists r c',
    Demo.run [Demo.fill_log_ab] Demo.conn_upper = (Ok r, c') /\
    total_logs r = 1 /\ parsed_trades r = 0 /\ skipped_trades r = 1.
Proof.
  destruct (decode_order_filled Demo.cs Demo.fill_log_ab) as [t|] eqn:D;
    [|discriminate D].
  assert (T : token_id t
              = "0x00000000000000000000000000000000000000000000000000000000000000ab")
    by (vm_compute in D; injection D as <-; reflexivity).
  destruct (case_mismatch_drops_trade Demo.cs Demo.keccak Demo.strf
              (Demo.node [Demo.fill_log_ab]) 100 100
              [CTF_EXCHANGE; NEGRISK_CTF_EXCHANGE] "trade_indexer" Demo.conn_upper
              Demo.fill_log_ab t Demo.market_upper 1704067200 "2024-01-01T00:00:00")
    as (E & _ & r & c' & R & TL & PT & _ & SK & _).
  - left. reflexivity.
  - left. rewrite T. reflexivity.
  - intros m' [<-|[]]. rewrite T. split; discriminate.
  - exact D.
  - reflexivity.
  - reflexivity.
  - reflexivity.
  - reflexivity.
  - split; [reflexivity|]. rewrite T in E. split; [exact E|].
    exists r, c'. repeat split; assumption.
Defined.

(** C9. Every record [parse_trade_from_log] returns has outcome "YES" or
    "NO": the market it was matched to was returned because one of its two
    position ids is the record's token id itself, so one of the two
    lower-cased comparisons holds and the "UNKNOWN" branch is not taken.
    Hence every row a run of the indexer adds to the trades table has
    outcome "YES" or "NO". *)
Theorem persisted_outcome_is_yes_or_no
    (cs : string -> option string) (keccak : list byte -> list byte)
    (strf : Z -> option string) :
  (forall log ts c r,
     parse_trade_from_log cs log ts c = Ok (Some r) ->
     yes_or_no r /\
     exists m,
       fetch_market_by_token_id c (r_token_id r) = Some m /\
       (yes_token_id m = r_token_id r \/ no_token_id m = r_token_id r)) /\
  (forall w3 from to addrs key c c' res,
     run_indexer cs keccak strf w3 c from to addrs key = (Ok res, c') ->
     exists added,
       trades (working c') = (trades (working c) ++ added)%list /\
       List.Forall (fun new_row => yes_or_no (row new_row)) added).
Proof.
  split.
  - intros log ts c r H. apply parse_trade_outcome in H as (Ho & m & F & Hm & _). eauto.
  - intros w3 from to addrs key c c' res H.
    apply run_indexer_ok in H as (logs & recs & skipped & _ & P & -> & _).
    apply parse_logs_outcomes in P; [|constructor].
    destruct (insert_trades_working c recs) as (W & _ & _).
    destruct (insert_trades_loop (working c) 0 recs) as [d n] eqn:E.
    apply insert_trades_loop_spec in E as (_ & _ & (added & Ha & _ & _ & Hf) & _).
    exists added. cbn [working update_sync_state commit trades]. rewrite W. cbn [fst].
    split; [exact Ha|].
    rewrite List.Forall_forall in *. intros new_row Hin. apply P, Hf, Hin.
Qed.

Lemma persisted_outcome_is_yes_or_no_witness :
  exists r,
    parse_trade_from_log Demo.cs Demo.self_fill_log "2024-01-01T00:00:00" Demo.conn_1
      = Ok (Some r) /\
    yes_or_no r.
Proof.
  destruct (parse_trade_from_log Demo.cs Demo.self_fill_log "2024-01-01T00:00:00"
              Demo.conn_1) as [[r|]|e] eqn:P; [|discriminate P|discriminate P].
  exists r. split; [reflexivity|].
  apply (proj1 (persisted_outcome_is_yes_or_no Demo.cs Demo.keccak Demo.strf)
           Demo.self_fill_log "2024-01-01T00:00:00" Demo.conn_1 r P).
Defined.

(** ** The counters of a run *)

Lemma parse_logs_counts cs strf w3 c logs : forall cache recs skipped recs' skipped',
  parse_logs cs strf w3 c logs cache recs skipped = Ok (recs', skipped') ->
  Z.of_nat (List.length recs') + skipped' =
  Z.of_nat (List.length recs) + skipped + Z.of_nat (List.length logs).
Proof.
  induction logs as [|log logs IH]; intros cache recs skipped recs' skipped' H;
    cbn [parse_logs] in H.
  - injection H as <- <-. cbn. lia.
  - apply bind_ok in H as ([u cache'] & _ & H).
    apply bind_ok in H as (ts & _ & H).
    apply bind_ok in H as (o & _ & H).
    destruct o as [r|]; apply IH in H; rewrite H; cbn [List.length];
      rewrite ?length_app; cbn [List.length]; lia.
Qed.

Lemma insert_trades_loop_count ts : forall d n d' n',
  insert_trades_loop d n ts = (d', n') -> n <= n' <= n + Z.of_nat (List.length ts).
Proof.
  induction ts as [|t ts IH]; intros d n d' n' H; cbn [insert_trades_loop] in H.
  - injection H as <- <-. cbn. lia.
  - destruct (execute_insert_trade d t) as [d1|e]; apply IH in H;
      cbn [List.length]; lia.
Qed.

(** X3: every successful run reports counters that add up: each fetched log is
    either parsed or skipped, the inserted rows are at most the parsed
    trades and are exactly the growth of the trades table, and the
    watermark stands at [to_block] whatever was skipped. *)
Theorem run_counters_add_up
    (cs : string -> option string) (keccak : list byte -> list byte)
    (strf : Z -> option string) (w3 : Web3) (from to : Z)
    (addrs : option (list string)) (key : string)
    (c c' : conn) (r : index_result) :
  run_indexer cs keccak strf w3 c from to addrs key = (Ok r, c') ->
  total_logs r = parsed_trades r + skipped_trades r /\
  0 <= inserted_trades r <= parsed_trades r /\
  Z.of_nat (List.length (trades (working c'))) =
    Z.of_nat (List.length (trades (working c))) + inserted_trades r /\
  get_sync_state c' key = Some to.
Proof.
  intros H.
  apply run_indexer_ok in H as (logs & recs & skipped & _ & P & -> & I & Hp & Ht & Hs).
  apply parse_logs_counts in P. cbn [List.length] in P.
  destruct (insert_trades_working c recs) as (W & N & _).
  destruct (insert_trades_loop (working c) 0 recs) as [d n] eqn:E.
  pose proof (insert_trades_loop_count _ _ _ _ _ E) as Hc.
  apply insert_trades_loop_spec in E as (_ & _ & (added & Ha & Hn & _ & Hf) & _).
  cbn [fst snd] in W, N.
  split; [lia|]. rewrite I, N, Hp. split; [lia|]. split.
  - cbn [working update_sync_state commit trades]. rewrite W, Ha, length_app. lia.
  - unfold get_sync_state. cbn. apply lookup_insert_eq.
Qed.

Lemma run_counters_add_up_witness :
  exists r c',
    Demo.run [Demo.self_fill_log] Demo.conn_1 = (Ok r, c') /\
    total_logs r = parsed_trades r + skipped_trades r /\
    get_sync_state c' "trade_indexer" = Some 100.
Proof.
  destruct (Demo.run [Demo.self_fill_log] Demo.conn_1) as [[r|e] c'] eqn:R;
    [|discriminate R].
  destruct (run_counters_add_up Demo.cs Demo.keccak Demo.strf
              (Demo.node [Demo.self_fill_log]) 100 100 None "trade_indexer"
              Demo.conn_1 c' r R) as (T & _ & _ & S).
  exists r, c'. auto.
Defined.

(** X2: a run that fails before it writes leaves the connection as it
    found it, no trade inserted and the watermark not advanced: when
    [get_logs] raises, the run raises the same exception; when the block of
    one of the fetched logs has no timestamp to print (the node raises for
    the block, or the timestamp is outside the range of [datetime]), the run
    raises, whatever the other logs are. *)
Theorem failed_run_commits_nothing
    (cs : string -> option string) (keccak : list byte -> list byte)
    (strf : Z -> option string) (w3 : Web3) (from to : Z)
    (addrs : list string) (key : string) (c : conn) :
  (forall e,
     fetch_logs keccak w3 from to addrs = Raise e ->
     run_indexer cs keccak strf w3 c from to (Some addrs) key = (Raise e, c)) /\
  (forall logs log,
     fetch_logs keccak w3 from to addrs = Ok logs ->
     List.In log logs ->
     (forall u, get_block w3 (Log.blockNumber log) = Ok u -> strf u = None) ->
     exists e,
       run_indexer cs keccak strf w3 c from to (Some addrs) key = (Raise e, c)).
Proof.
  split.
  - intros e L. unfold run_indexer. now rewrite L.
  - intros logs log L Hin Hno. unfold run_indexer. rewrite L.
    destruct (parse_logs_no_timestamp cs strf w3 c log logs Hin Hno ∅ [] 0)
      as [e ->]; [intros k v; rewrite lookup_empty; discriminate|].
    eauto.
Qed.

Lemma failed_run_commits_nothing_witness :
  run_indexer Demo.cs Demo.keccak Demo.strf
    (mkWeb3 (fun _ _ _ _ => Raise RpcError) (fun _ => Ok 1704067200))
    Demo.conn_1 100 100 (Some [CTF_EXCHANGE]) "trade_indexer"
    = (Raise RpcError, Demo.conn_1) /\
  exists e,
    run_indexer Demo.cs Demo.keccak Demo.strf
      (mkWeb3 (fun _ _ _ _ => Ok [Demo.self_fill_log]) (fun _ => Raise RpcError))
      Demo.conn_1 100 100 (Some [CTF_EXCHANGE]) "trade_indexer"
      = (Raise e, Demo.conn_1).
Proof.
  split.
  - apply (proj1 (failed_run_commits_nothing Demo.cs Demo.keccak Demo.strf
             (mkWeb3 (fun _ _ _ _ => Raise RpcError) (fun _ => Ok 1704067200))
             100 100 [CTF_EXCHANGE] "trade_indexer" Demo.conn_1)).
    reflexivity.
  - apply (proj2 (failed_run_commits_nothing Demo.cs Demo.keccak Demo.strf
             (mkWeb3 (fun _ _ _ _ => Ok [Demo.self_fill_log]) (fun _ => Raise RpcError))
             100 100 [CTF_EXCHANGE] "trade_indexer" Demo.conn_1)
             [Demo.self_fill_log] Demo.self_fill_log).
    + reflexivity.
    + left. reflexivity.
    + intros u H. discriminate H.
Defined.

(** X4: the keys (tx_hash, log_index) of the stored trades stay pairwise
    different through a successful run. *)
Theorem run_keeps_keys_unique
    (cs : string -> option string) (keccak : list byte -> list byte)
    (strf : Z -> option string) (w3 : Web3) (from to : Z)
    (addrs : option (list string)) (key : string)
    (c c' : conn) (r : index_result) :
  run_indexer cs keccak strf w3 c from to addrs key = (Ok r, c') ->
  unique_keys (working c) -> unique_keys (working c').
Proof. apply unique_keys_run_indexer. Qed.

Lemma run_keeps_keys_unique_witness :
  unique_keys (working (snd (Demo.run [Demo.self_fill_log; Demo.self_fill_log]
                                      Demo.conn_1))).
Proof.
  destruct (Demo.run [Demo.self_fill_log; Demo.self_fill_log] Demo.conn_1)
    as [[r|e] c'] eqn:R; [|discriminate R].
  apply (run_keeps_keys_unique Demo.cs Demo.keccak Demo.strf
           (Demo.node [Demo.self_fill_log; Demo.self_fill_log]) 100 100 None
           "trade_indexer" Demo.conn_1 c' r R).
  constructor.
Defined.

End IndexerFacts.

(** * Facts about market discovery *)

Module DiscoveryFacts.
Import Py Discovery.

(** C8: the code at a token id that is already hex. A string that is not
    all decimal digits goes through [parse_market_from_gamma] unchanged:
    neither lower-cased nor padded to 64 digits. *)
Theorem hex_token_id_kept_verbatim
    (json_loads : string -> option json) (market_data : gmap string json)
    (y n : string) (rest : list json) :
  market_data !! "clobTokenIds" = Some (JList (JStr y :: JStr n :: rest)) ->
  isdigit y = false -> isdigit n = false ->
  yes_token_id (parse_market_from_gamma json_loads market_data) = y /\
  no_token_id (parse_market_from_gamma json_loads market_data) = n.
Proof.
  intros G Dy Dn.
  unfold parse_market_from_gamma, get. rewrite G. cbn [as_token yes_token_id no_token_id].
  unfold convert_token. now rewrite Dy, Dn.
Qed.

Lemma hex_token_id_kept_verbatim_witness :
  yes_token_id (parse_market_from_gamma (fun _ => None) Demo.gamma_market_hex)
    = "0xABCDEF" /\
  no_token_id (parse_market_from_gamma (fun _ => None) Demo.gamma_market_hex)
    = "0Xab".
Proof.
  apply (hex_token_id_kept_verbatim (fun _ => None) Demo.gamma_market_hex
           "0xABCDEF" "0Xab" []); reflexivity.
Defined.

Lemma int_of_digits_nonneg s : all_digits s = true -> 0 <= int_of_digits s.
Proof.
  unfold int_of_digits.
  assert (G : forall acc, 0 <= acc -> all_digits s = true ->
    0 <= fold_left (fun acc c => acc * 10 + (Z.of_N (N_of_ascii c) - 48))
           (list_ascii_of_string s) acc).
  { induction s as [|c s IH]; intros acc A D; cbn in *; [exact A|].
    apply andb_prop in D as [D1 D2]. apply IH; [|exact D2].
    unfold is_digit in D1. apply andb_prop in D1 as [D1 _].
    apply N.leb_le in D1. lia. }
  intros D. apply G; [lia | exact D].
Qed.

Lemma isdigit_all_digits s : isdigit s = true -> all_digits s = true.
Proof. destruct s; [discriminate | trivial]. Qed.

Lemma convert_token_digits s :
  isdigit s = true -> int_of_digits s < 2 ^ 256 ->
  convert_token (TStr s)
    = "0x" +:+ bytes_hex (to_bytes_aux 32 (int_of_digits s) []).
Proof.
  intros D B. unfold convert_token. rewrite D. f_equal.
  apply WordFacts.format_064x_word. split; [|exact B].
  apply int_of_digits_nonneg, isdigit_all_digits, D.
Qed.

(** X5: token ids given as decimal strings below 2^256, of no more than
    4300 digits each (the longest string [int] converts), leave
    [parse_market_from_gamma] as "0x" and the 64 lower-case hex digits of
    the 32-byte big-endian word of their value. *)
Theorem decimal_token_id_is_padded_hex
    (json_loads : string -> option json) (market_data : gmap string json)
    (y n : string) (rest : list json) :
  market_data !! "clobTokenIds" = Some (JList (JStr y :: JStr n :: rest)) ->
  isdigit y = true -> isdigit n = true ->
  (String.length y <= 4300)%nat -> (String.length n <= 4300)%nat ->
  int_of_digits y < 2 ^ 256 -> int_of_digits n < 2 ^ 256 ->
  yes_token_id (parse_market_from_gamma json_loads market_data)
    = "0x" +:+ bytes_hex (to_bytes_aux 32 (int_of_digits y) []) /\
  no_token_id (parse_market_from_gamma json_loads market_data)
    = "0x" +:+ bytes_hex (to_bytes_aux 32 (int_of_digits n) []).
Proof.
  intros G Dy Dn _ _ By Bn.
  unfold parse_market_from_gamma, get. rewrite G.
  cbn [as_token yes_token_id no_token_id].
  now rewrite !convert_token_digits.
Qed.

Lemma decimal_token_id_is_padded_hex_witness :
  yes_token_id (parse_market_from_gamma (fun _ => None) Demo.gamma_market_dec)
    = "0x00000000000000000000000000000000000000000000000000000000000000ff" /\
  no_token_id (parse_market_from_gamma (fun _ => None) Demo.gamma_market_dec)
    = "0x0000000000000000000000000000000000000000000000000000000000001000".
Proof.
  apply (decimal_token_id_is_padded_hex (fun _ => None) Demo.gamma_market_dec
           "255" "4096" []); try reflexivity; cbn; lia.
Defined.

End DiscoveryFacts.

(** * Facts about the queries *)

Module QueryFacts.
Import Py Store Queries QuerySpec PyFacts Samples.

Lemma before_precedes a b : before a b = true <-> precedes a b.
Proof. unfold before, precedes. lia. Qed.

Lemma before_total a b : before a b = false -> precedes b a.
Proof. unfold before, precedes. lia. Qed.

Lemma precedes_trans a b c : precedes a b -> precedes b c -> precedes a c.
Proof. unfold precedes. lia. Qed.

Lemma block_clauses_within f t r : block_clauses f t r = true <-> within f t r.
Proof.
  unfold block_clauses, within. destruct f as [f|], t as [t|]; split.
  all: try (intros H; split; intros x E; try discriminate E; try injection E as <-; lia).
  all: intros [Hf Ht]; try specialize (Hf _ eq_refl); try specialize (Ht _ eq_refl); lia.
Qed.

Lemma in_insert_sorted r x l : List.In x (insert_sorted r l) <-> x = r \/ List.In x l.
Proof.
  induction l as [|y l IH]; cbn [insert_sorted].
  - cbn. intuition.
  - destruct (before r y); cbn [List.In]; [intuition | rewrite IH; intuition].
Qed.

Lemma in_order_by x l : List.In x (order_by l) <-> List.In x l.
Proof.
  induction l as [|y l IH]; cbn [order_by fold_right]; [reflexivity|].
  fold (order_by l). rewrite in_insert_sorted, IH. cbn. intuition.
Qed.

Lemma length_insert_sorted r l :
  List.length (insert_sorted r l) = S (List.length l).
Proof.
  induction l as [|y l IH]; cbn [insert_sorted]; [reflexivity|].
  destruct (before r y); cbn [List.length]; [reflexivity | now rewrite IH].
Qed.

Lemma length_order_by l : List.length (order_by l) = List.length l.
Proof.
  induction l as [|y l IH]; cbn [order_by fold_right]; [reflexivity|].
  fold (order_by l). rewrite length_insert_sorted. cbn. now rewrite IH.
Qed.

Lemma ascending_insert_sorted r l : ascending l -> ascending (insert_sorted r l).
Proof.
  unfold ascending. induction l as [|y l IH]; intros S; cbn [insert_sorted].
  - constructor; constructor.
  - inversion S as [|? ? S' F]; subst.
    destruct (before r y) eqn:B.
    + apply before_precedes in B. constructor; [exact S|].
      constructor; [exact B|].
      eapply List.Forall_impl; [|exact F]. intros z. now apply precedes_trans.
    + apply before_total in B. constructor; [now apply IH|].
      apply List.Forall_forall. intros z Hz. apply in_insert_sorted in Hz as [->|Hz];
        [exact B|]. exact (proj1 (List.Forall_forall _ _) F z Hz).
Qed.

Lemma ascending_order_by l : ascending (order_by l).
Proof.
  induction l as [|y l IH]; cbn [order_by fold_right]; [constructor|].
  now apply ascending_insert_sorted.
Qed.

Lemma ascending_skipn n : forall l, ascending l -> ascending (skipn n l).
Proof.
  unfold ascending. induction n as [|n IH]; intros l S; [exact S|].
  destruct l as [|x l]; [exact S|]. cbn [skipn]. apply IH. now inversion S.
Qed.

Lemma ascending_firstn n : forall l, ascending l -> ascending (firstn n l).
Proof.
  unfold ascending. induction n as [|n IH]; intros l S; [constructor|].
  destruct l as [|x l]; [constructor|]. cbn [firstn]. inversion S as [|? ? S' F]; subst.
  constructor; [now apply IH|].
  apply List.Forall_forall. intros z Hz.
  apply (proj1 (List.Forall_forall _ _) F z).
  rewrite <- (firstn_skipn n l). apply List.in_or_app. now left.
Qed.

Lemma in_limit_offset limit offset l x :
  List.In x (limit_offset limit offset l) -> List.In x l.
Proof.
  unfold limit_offset. intros H.
  assert (S : List.In x (skipn (Z.to_nat offset) l)).
  { destruct (limit <? 0); [exact H|].
    rewrite <- (firstn_skipn (Z.to_nat limit) (skipn _ l)).
    apply List.in_or_app. now left. }
  rewrite <- (firstn_skipn (Z.to_nat offset) l). apply List.in_or_app. now right.
Qed.

Lemma ascending_limit_offset limit offset l :
  ascending l -> ascending (limit_offset limit offset l).
Proof.
  intros S. unfold limit_offset. destruct (limit <? 0).
  - now apply ascending_skipn.
  - now apply ascending_firstn, ascending_skipn.
Qed.

Lemma length_limit_offset limit offset l :
  0 <= limit -> Z.of_nat (List.length (limit_offset limit offset l)) <= limit.
Proof.
  intros H. unfold limit_offset. replace (limit <? 0) with false by lia.
  rewrite List.length_firstn. lia.
Qed.

Lemma limit_offset_all limit offset l :
  limit < 0 -> offset <= 0 -> limit_offset limit offset l = l.
Proof.
  intros H Hoff. unfold limit_offset. replace (limit <? 0) with true by lia.
  replace (Z.to_nat offset) with 0%nat by lia. reflexivity.
Qed.

Lemma firstn_plus {A} a b : forall l : list A,
  firstn (a + b) l = (firstn a l ++ firstn b (skipn a l))%list.
Proof.
  induction a as [|a IH]; intros l; [reflexivity|].
  destruct l as [|x l]; cbn [Nat.add firstn skipn app].
  - now rewrite List.firstn_nil.
  - now rewrite IH.
Qed.

Lemma limit_offset_pages a b k l :
  0 <= a -> 0 <= b -> 0 <= k ->
  limit_offset (a + b) k l = (limit_offset a k l ++ limit_offset b (k + a) l)%list.
Proof.
  intros A B K. unfold limit_offset.
  replace (a + b <? 0) with false by lia.
  replace (a <? 0) with false by lia. replace (b <? 0) with false by lia.
  rewrite !Z2Nat.inj_add by lia. rewrite firstn_plus.
  now rewrite List.skipn_skipn, (Nat.add_comm (Z.to_nat a)).
Qed.

Lemma bind_int_ok n m : bind_int n = Ok m -> m = n /\ fits_int64 n = true.
Proof. unfold bind_int. destruct (fits_int64 n); [intros [= <-]; auto | discriminate]. Qed.

Lemma bind_opt_int_ok o p : bind_opt_int o = Ok p -> p = o.
Proof.
  destruct o as [n|]; cbn; [|now intros [= <-]].
  unfold bind_int. destruct (fits_int64 n); cbn; [now intros [= <-] | discriminate].
Qed.

Lemma fetch_trades_for_market_ok c m limit cursor f t rows :
  fetch_trades_for_market c m limit cursor f t = Ok rows ->
  rows = select_trades c (fun r => r_market_id (row r) =? m) f t limit cursor.
Proof.
  unfold fetch_trades_for_market. intros H.
  apply bind_ok in H as (m' & Hm & H). apply bind_int_ok in Hm as [-> _].
  apply bind_ok in H as (f' & Hf & H). apply bind_opt_int_ok in Hf as ->.
  apply bind_ok in H as (t' & Ht & H). apply bind_opt_int_ok in Ht as ->.
  apply bind_ok in H as (l' & Hl & H). apply bind_int_ok in Hl as [-> _].
  apply bind_ok in H as (c' & Hc & H). apply bind_int_ok in Hc as [-> _].
  now injection H as <-.
Qed.

Lemma fetch_trades_for_token_ok c tok limit cursor f t rows :
  fetch_trades_for_token c tok limit cursor f t = Ok rows ->
  rows = select_trades c (fun r => String.eqb (r_token_id (row r)) tok) f t limit cursor.
Proof.
  unfold fetch_trades_for_token. intros H.
  apply bind_ok in H as (f' & Hf & H). apply bind_opt_int_ok in Hf as ->.
  apply bind_ok in H as (t' & Ht & H). apply bind_opt_int_ok in Ht as ->.
  apply bind_ok in H as (l' & Hl & H). apply bind_int_ok in Hl as [-> _].
  apply bind_ok in H as (c' & Hc & H). apply bind_int_ok in Hc as [-> _].
  now injection H as <-.
Qed.

Lemma in_select_trades c clause f t limit cursor r :
  List.In r (select_trades c clause f t limit cursor) ->
  List.In r (trades (working c)) /\ clause r = true /\ within f t r.
Proof.
  unfold select_trades. intros H. apply in_limit_offset in H. apply (proj1 (in_order_by _ _)) in H.
  apply List.filter_In in H as [I H]. apply andb_prop in H as [P B].
  now apply block_clauses_within in B.
Qed.

Lemma market_trades_shape c m limit cursor f t rows :
  fetch_trades_for_market c m limit cursor f t = Ok rows ->
  (forall r, List.In r rows ->
     List.In r (trades (working c)) /\ r_market_id (row r) = m /\ within f t r) /\
  ascending rows /\
  (0 <= limit -> Z.of_nat (List.length rows) <= limit).
Proof.
  intros H. apply fetch_trades_for_market_ok in H as ->. repeat split.
  - now apply in_select_trades in H as (I & _ & _).
  - apply in_select_trades in H as (_ & E & _). lia.
  - now apply in_select_trades in H as (_ & _ & [W _]).
  - now apply in_select_trades in H as (_ & _ & [_ W]).
  - apply ascending_limit_offset, ascending_order_by.
  - apply length_limit_offset.
Qed.

(** X6: the rows [fetch_trades_for_market] returns are stored trades of
    the market asked for, within the block bounds given, in ascending
    (block_number, log_index) order, and no more than a non-negative
    [limit]. *)
Theorem market_trades_filtered_sorted_bounded
    (c : conn) (market_id limit cursor : Z) (from_block to_block : option Z)
    (rows : list trade_row) :
  fetch_trades_for_market c market_id limit cursor from_block to_block = Ok rows ->
  (forall r, List.In r rows ->
     List.In r (trades (working c)) /\ r_market_id (row r) = market_id /\
     within from_block to_block r) /\
  ascending rows /\
  (0 <= limit -> Z.of_nat (List.length rows) <= limit).
Proof.
  apply market_trades_shape.
Qed.

Lemma market_trades_filtered_sorted_bounded_witness :
  exists rows,
    fetch_trades_for_market conn_q 1 2 1 (Some 9) None = Ok rows /\
    List.map trade_id rows = [3; 1] /\ ascending rows.
Proof.
  eexists. split; [reflexivity|]. split; [reflexivity|].
  eapply (market_trades_filtered_sorted_bounded conn_q 1 2 1 (Some 9) None).
  reflexivity.
Defined.

(** X7: consecutive pages of [fetch_trades_for_token] join up: the page of
    [a + b] rows at offset [k] is the page of [a] rows at [k] followed by
    the page of [b] rows at [k + a]. *)
Theorem token_trades_pages_concatenate
    (c : conn) (token_id : string) (a b k : Z) (from_block to_block : option Z)
    (page : list trade_row) :
  0 <= a -> 0 <= b -> 0 <= k -> k + a < 2 ^ 63 ->
  fetch_trades_for_token c token_id (a + b) k from_block to_block = Ok page ->
  exists p1 p2,
    fetch_trades_for_token c token_id a k from_block to_block = Ok p1 /\
    fetch_trades_for_token c token_id b (k + a) from_block to_block = Ok p2 /\
    page = (p1 ++ p2)%list.
Proof.
  intros A B K KA H. pose proof (fetch_trades_for_token_ok _ _ _ _ _ _ _ H) as ->.
  unfold fetch_trades_for_token in *.
  apply bind_ok in H as (f' & Hf & H). rewrite Hf. apply bind_opt_int_ok in Hf as ->.
  apply bind_ok in H as (t' & Ht & H). rewrite Ht. apply bind_opt_int_ok in Ht as ->.
  apply bind_ok in H as (l' & Hl & H). apply bind_int_ok in Hl as [-> Fl].
  apply bind_ok in H as (c' & Hc & H). apply bind_int_ok in Hc as [-> Fc].
  unfold fits_int64 in Fl, Fc. cbn [Py.bind]. unfold bind_int, fits_int64.
  replace ((- 2 ^ 63 <=? a) && (a <? 2 ^ 63)) with true by lia.
  replace ((- 2 ^ 63 <=? b) && (b <? 2 ^ 63)) with true by lia.
  replace ((- 2 ^ 63 <=? k) && (k <? 2 ^ 63)) with true by lia.
  replace ((- 2 ^ 63 <=? k + a) && (k + a <? 2 ^ 63)) with true by lia.
  cbn [Py.bind]. do 2 eexists. split; [reflexivity|]. split; [reflexivity|].
  unfold select_trades. now apply limit_offset_pages.
Qed.

Lemma token_trades_pages_concatenate_witness :
  exists p1 p2,
    fetch_trades_for_token conn_q "0x01" 1 0 None None = Ok p1 /\
    fetch_trades_for_token conn_q "0x01" 2 1 None None = Ok p2 /\
    List.map trade_id (p1 ++ p2)%list = [5; 3; 1].
Proof.
  destruct (token_trades_pages_concatenate conn_q "0x01" 1 2 0 None None
              (select_trades conn_q (fun r => String.eqb (r_token_id (row r)) "0x01")
                 None None 3 0))
    as (p1 & p2 & H1 & H2 & E); try lia; [reflexivity|].
  exists p1, p2. split; [exact H1|]. split; [exact H2|]. now rewrite <- E.
Defined.


Lemma insert_sorted_perm r l : Permutation (insert_sorted r l) (r :: l).
Proof.
  induction l as [|x l IH]; cbn [insert_sorted]; [reflexivity|].
  destruct (before r x); [reflexivity|].
  rewrite IH. apply perm_swap.
Qed.

Lemma order_by_perm l : Permutation (order_by l) l.
Proof.
  induction l as [|x l IH]; cbn [order_by fold_right]; [reflexivity|].
  fold (order_by l). rewrite insert_sorted_perm. now constructor.
Qed.

(** X8: with a negative [limit] and no offset, [fetch_trades_for_market]
    leaves out nothing: its result is a rearrangement of all the stored
    trades of the market within the block bounds. *)
Theorem unlimited_market_query_is_complete
    (c : conn) (market_id limit cursor : Z) (from_block to_block : option Z)
    (rows : list trade_row) :
  limit < 0 -> cursor <= 0 ->
  fetch_trades_for_market c market_id limit cursor from_block to_block = Ok rows ->
  Permutation rows
    (List.filter (fun r => (r_market_id (row r) =? market_id)
                           && block_clauses from_block to_block r)
                 (trades (working c))).
Proof.
  intros L K H. apply fetch_trades_for_market_ok in H as ->.
  unfold select_trades. rewrite limit_offset_all by assumption. apply order_by_perm.
Qed.

Lemma unlimited_market_query_is_complete_witness :
  exists rows,
    fetch_trades_for_market conn_q 1 (-1) 0 None (Some 9) = Ok rows /\
    Permutation rows
      (List.filter (fun r => (r_market_id (row r) =? 1) && block_clauses None (Some 9) r)
                   (trades (working conn_q))).
Proof.
  eexists. split; [reflexivity|].
  apply (unlimited_market_query_is_complete conn_q 1 (-1) 0 None (Some 9));
    [lia | lia | reflexivity].
Defined.

(** X9: [fetch_trades_for_market] returns exactly when each int it is
    given fits 64 bits; otherwise the one exception it raises is
    [OverflowError]. *)
Theorem market_query_raises_only_overflow
    (c : conn) (market_id limit cursor : Z) (from_block to_block : option Z) :
  let fits := fits_int64 market_id && fits_opt from_block && fits_opt to_block
              && fits_int64 limit && fits_int64 cursor in
  (fits = true ->
     exists rows,
       fetch_trades_for_market c market_id limit cursor from_block to_block = Ok rows) /\
  (fits = false ->
     fetch_trades_for_market c market_id limit cursor from_block to_block
       = Raise OverflowError).
Proof.
  unfold fetch_trades_for_market, bind_opt_int, bind_int, fits_opt.
  destruct (fits_int64 market_id); cbn; [|split; [discriminate | reflexivity]].
  destruct from_block as [f|]; cbn;
    [destruct (fits_int64 f); cbn; [|split; [discriminate | reflexivity]]|];
    (destruct to_block as [t|]; cbn;
     [destruct (fits_int64 t); cbn; [|split; [discriminate | reflexivity]]|]);
    (destruct (fits_int64 limit); cbn; [|split; [discriminate | reflexivity]]);
    (destruct (fits_int64 cursor); cbn; [|split; [discriminate | reflexivity]]);
    (split; [intros _; eexists; reflexivity | discriminate]).
Qed.

(** X10: a trade inserted under a key no stored trade has is returned by
    the query for its token (and by the query for its market), with the
    columns it was given. The ints of the trade fit SQLite's 64-bit
    INTEGER, and its timestamp is text that the TIMESTAMP column keeps as
    text (it holds a character no number holds, as the "T" and ":" of the
    timestamps [format_timestamp] prints). *)
Theorem inserted_trade_is_queryable (c : conn) (t : trade_record) :
  key_taken (working c) (r_tx_hash t) (r_log_index t) = false ->
  fits_int64 (r_market_id t) = true ->
  fits_int64 (r_log_index t) = true ->
  fits_int64 (r_block_number t) = true ->
  kept_as_text (r_timestamp t) = true ->
  let c' := snd (insert_trades c [t]) in
  exists id by_token by_market,
    fetch_trades_for_token c' (r_token_id t) (-1) 0 None None = Ok by_token /\
    fetch_trades_for_market c' (r_market_id t) (-1) 0 None None = Ok by_market /\
    List.In (mkTradeRow id t) by_token /\ List.In (mkTradeRow id t) by_market.
Proof.
  intros K F _ _ _ c'.
  assert (W : working c' =
              mkDb (markets (working c))
                   (trades (working c) ++ [mkTradeRow (trades_seq (working c) + 1) t])
                   (trades_seq (working c) + 1) (sync_state (working c))).
  { unfold c'. cbn [insert_trades insert_trades_loop]. unfold execute_insert_trade.
    rewrite K. reflexivity. }
  exists (trades_seq (working c) + 1).
  unfold fetch_trades_for_token, fetch_trades_for_market, bind_int. rewrite F.
  cbn [Py.bind bind_opt_int]. change (fits_int64 (-1)) with true.
  change (fits_int64 0) with true. cbn [Py.bind].
  do 2 eexists. split; [reflexivity|]. split; [reflexivity|].
  unfold select_trades. rewrite !limit_offset_all by lia.
  split; apply in_order_by, List.filter_In; rewrite W; cbn [trades row r_token_id r_market_id];
    (split; [apply List.in_or_app; right; now left|]).
  - now rewrite String.eqb_refl.
  - now rewrite Z.eqb_refl.
Qed.

Lemma inserted_trade_is_queryable_witness :
  exists id by_token,
    fetch_trades_for_token (snd (insert_trades Demo.conn_1 [Samples.stamped]))
      "0x01" (-1) 0 None None = Ok by_token /\
    List.In (mkTradeRow id Samples.stamped) by_token.
Proof.
  destruct (inserted_trade_is_queryable Demo.conn_1 Samples.stamped
              eq_refl eq_refl eq_refl eq_refl eq_refl)
    as (id & bt & bm & H1 & _ & I & _).
  now exists id, bt.
Defined.

End QueryFacts.

(** * Facts about the API handlers *)

Module ApiFacts.
Import Py Store Queries Api QuerySpec PyFacts QueryFacts Samples.

Lemma fetch_market_by_slug_some c slug m :
  fetch_market_by_slug c slug = Some m ->
  List.In m (markets (working c)) /\ m_slug m = slug.
Proof.
  unfold fetch_market_by_slug. intros H. apply List.find_some in H as [I E].
  split; [exact I|]. now apply String.eqb_eq.
Qed.

Lemma fetch_market_by_slug_none c slug :
  fetch_market_by_slug c slug = None <->
  forall m, List.In m (markets (working c)) -> m_slug m <> slug.
Proof.
  unfold fetch_market_by_slug. split.
  - intros H m I E. pose proof (List.find_none _ _ H m I) as N. cbn in N.
    apply String.eqb_neq in N. contradiction.
  - intros H. destruct (List.find _ _) as [m|] eqn:F; [|reflexivity].
    apply List.find_some in F as [I E]. apply String.eqb_eq in E.
    now destruct (H m I).
Qed.

Lemma validate_paging_some l k f t l' k' f' t' :
  validate_paging l k f t = Some (l', k', f', t') ->
  l' = default 100 l /\ k' = default 0 k /\ f' = f /\ t' = t /\
  1 <= l' <= 1000 /\ 0 <= k'.
Proof.
  unfold validate_paging.
  match goal with |- (if ?b then _ else _) = _ -> _ => destruct b eqn:B end;
    [|discriminate].
  intros [= <- <- <- <-].
  apply andb_prop in B as [B _]. apply andb_prop in B as [B _].
  apply andb_prop in B as [Bl Bk]. unfold in_bounds in Bl, Bk.
  destruct l as [l|], k as [k|]; cbn; repeat split; lia.
Qed.

(** X11: when the handler of [/markets/{slug}/trades] returns rows, a
    market with that slug is registered, every row is a stored trade of
    that market, the rows are in ascending (block_number, log_index) order,
    and there are at most [limit] of them, 100 when no limit was given and
    never more than 1000. *)
Theorem market_trades_endpoint_rows
    (db_conn : option conn) (slug : string)
    (limit cursor fromBlock toBlock : option Z) (rows : list trade_row) :
  get_market_trades db_conn slug limit cursor fromBlock toBlock = Respond rows ->
  exists c market,
    db_conn = Some c /\
    List.In market (markets (working c)) /\ m_slug market = slug /\
    (forall r, List.In r rows ->
       List.In r (trades (working c)) /\ r_market_id (row r) = market_id market /\
       within fromBlock toBlock r) /\
    ascending rows /\
    Z.of_nat (List.length rows) <= default 100 limit <= 1000.
Proof.
  unfold get_market_trades, get_db_connection.
  destruct (validate_paging limit cursor fromBlock toBlock) as [[[[l k] f] t]|] eqn:V;
    [|discriminate].
  apply validate_paging_some in V as (-> & -> & -> & -> & L & K).
  destruct db_conn as [c|]; [|discriminate].
  destruct (fetch_market_by_slug c slug) as [m|] eqn:M; [|discriminate].
  apply fetch_market_by_slug_some in M as [I E].
  destruct (fetch_trades_for_market _ _ _ _ _ _) as [rs|] eqn:F; [|discriminate].
  intros [= <-]. apply market_trades_shape in F as (S & A & B).
  exists c, m. repeat split; try assumption; try apply S; try assumption; try lia.
Qed.


Lemma market_trades_endpoint_rows_witness :
  exists rows,
    get_market_trades (Some conn_q) "m" (Some 2) None None None = Respond rows /\
    List.map trade_id rows = [5; 3] /\
    Z.of_nat (List.length rows) <= 2 <= 1000.
Proof.
  eexists. split; [reflexivity|]. split; [reflexivity|].
  destruct (market_trades_endpoint_rows (Some conn_q) "m" (Some 2) None None None _
              eq_refl) as (c & m & _ & _ & _ & _ & _ & B).
  exact B.
Defined.

(** X12: with a database connected, the handler of
    [/markets/{slug}/trades] answers 404 exactly when the query parameters
    are within their declared bounds and no registered market has the
    slug; parameters out of bounds are answered with 422 before the
    registry is looked at. *)
Theorem market_trades_endpoint_not_found
    (c : conn) (slug : string) (limit cursor fromBlock toBlock : option Z) :
  (get_market_trades (Some c) slug limit cursor fromBlock toBlock = Status 404 <->
   validate_paging limit cursor fromBlock toBlock <> None /\
   forall m, List.In m (markets (working c)) -> m_slug m <> slug) /\
  (validate_paging limit cursor fromBlock toBlock = None ->
   get_market_trades (Some c) slug limit cursor fromBlock toBlock = Status 422).
Proof.
  unfold get_market_trades, get_db_connection.
  destruct (validate_paging limit cursor fromBlock toBlock) as [[[[l k] f] t]|] eqn:V.
  - split; [|discriminate]. rewrite <- fetch_market_by_slug_none.
    destruct (fetch_market_by_slug c slug) as [m|] eqn:M.
    + destruct (fetch_trades_for_market _ _ _ _ _ _) as [rs|e] eqn:F.
      * split; [discriminate | intros [_ N]; discriminate N].
      * split; [discriminate | intros [_ N]; discriminate N].
    + split; [intros _; split; [discriminate | reflexivity] | reflexivity].
  - split; [|reflexivity]. split; [discriminate | intros [N _]; now destruct N].
Qed.

(** X13: the handler of [/tokens/{token_id}/trades] never answers 404:
    a token no stored trade carries gets an empty list, and the only
    status codes are 422 and 500. *)
Theorem token_trades_endpoint_unknown_token
    (c : conn) (token_id : string) (limit cursor fromBlock toBlock : option Z) :
  (forall code,
     get_token_trades (Some c) token_id limit cursor fromBlock toBlock = Status code ->
     code = 422 \/ code = 500) /\
  ((forall r, List.In r (trades (working c)) -> r_token_id (row r) <> token_id) ->
   forall rows,
     get_token_trades (Some c) token_id limit cursor fromBlock toBlock = Respond rows ->
     rows = []).
Proof.
  unfold get_token_trades, get_db_connection.
  destruct (validate_paging limit cursor fromBlock toBlock) as [[[[l k] f] t]|] eqn:V.
  - destruct (fetch_trades_for_token c token_id l k f t) as [rs|e] eqn:F.
    + split; [discriminate|]. intros U rows [= <-].
      apply fetch_trades_for_token_ok in F as ->.
      destruct (select_trades _ _ _ _ _ _) as [|r rs] eqn:S; [reflexivity|].
      assert (I : List.In r (r :: rs)) by now left. rewrite <- S in I.
      apply in_select_trades in I as (I & E & _). apply String.eqb_eq in E.
      now destruct (U r I).
    + split; [intros code [= <-]; now right | discriminate].
  - split; [intros code [= <-]; now left | discriminate].
Qed.

End ApiFacts.

(** * Facts about token ids and payloads *)

Module LogFacts.
Import Py TradeDecoder Spec Terms PyFacts WordFacts DecoderFacts DeriveFacts.

Lemma all_hex_bytes_hex bs : all_hex (bytes_hex bs) = true.
Proof.
  induction bs as [|b bs IH]; [reflexivity|]. cbn [bytes_hex all_hex].
  assert (H : forall n, (n < 16)%N ->
            match hexval (digit_char n) with Some _ => true | None => false end = true).
  { intros n Hn. now rewrite hexval_digit_char. }
  pose proof (Byte.to_N_bounded b) as B.
  rewrite !H, IH; [reflexivity| |].
  - apply N.mod_lt. lia.
  - apply N.Div0.div_lt_upper_bound. lia.
Qed.

Lemma lower_digit_char n : (n < 16)%N -> lower_char (digit_char n) = digit_char n.
Proof.
  intros H.
  assert (E : Ascii.eqb (lower_char (digit_char n)) (digit_char n) = true).
  { revert n H. apply below_16. reflexivity. }
  now apply Ascii.eqb_eq.
Qed.

Lemma lower_bytes_hex bs : lower (bytes_hex bs) = bytes_hex bs.
Proof.
  induction bs as [|b bs IH]; [reflexivity|]. cbn [bytes_hex lower].
  pose proof (Byte.to_N_bounded b) as B.
  rewrite !lower_digit_char, IH; [reflexivity| |].
  - apply N.mod_lt. lia.
  - apply N.Div0.div_lt_upper_bound. lia.
Qed.

Lemma canonical_064x n : 0 <= n < 2 ^ 256 -> canonical_id ("0x" +:+ format_064x n).
Proof.
  intros H. rewrite format_064x_word by exact H. unfold canonical_id.
  rewrite !str_app_cons, str_app_nil. cbn [String.length startswith str_drop lower].
  rewrite length_bytes_hex, length_to_bytes_aux, all_hex_bytes_hex, lower_bytes_hex.
  repeat split.
Qed.

Lemma word_bound i bs : 0 <= int_from_bytes (slice i (i + 32) bs) < 2 ^ 256.
Proof.
  split; [apply int_from_bytes_nonneg|].
  eapply Z.lt_le_trans; [apply int_from_bytes_bound|].
  change (2 ^ 256) with (256 ^ Z.of_nat 32). apply Z.pow_le_mono_r; [lia|].
  unfold slice. rewrite List.length_firstn. lia.
Qed.

Lemma decoded_token_is_word cs log ex t :
  decode_fields cs log ex = Ok t ->
  exists n, 0 <= n < 2 ^ 256 /\ token_id t = "0x" +:+ format_064x n.
Proof.
  intros H. apply decode_fields_rule in H as (bs & _ & [B S]).
  destruct (Z.eq_dec (w_maker_asset_id (read_words bs)) 0) as [E|N].
  - destruct (B E) as (_ & T & _). eexists. split; [|exact T]. apply (word_bound 32).
  - destruct (S N) as (_ & T & _). eexists. split; [|exact T]. apply (word_bound 0).
Qed.

(** X14: the token id of every trade [decode_order_filled] returns, and of
    every trade stage1 [parse_order_filled_log] returns, is in canonical
    form, "0x" and 64 lower-case hex digits, whatever the length of the
    payload. *)
Theorem decoded_token_id_is_canonical
    (cs : string -> option string) (log : Log.t) (exchange : string) (t : Trade) :
  decode_order_filled cs log = Ok t \/
  Stage1.parse_order_filled_log cs log exchange = Ok t ->
  canonical_id (token_id t).
Proof.
  intros [H|H].
  - apply decode_order_filled_fields in H as [ex H].
    apply decoded_token_is_word in H as (n & B & ->). now apply canonical_064x.
  - apply decoded_token_is_word in H as (n & B & ->). now apply canonical_064x.
Qed.

Lemma decoded_token_id_is_canonical_witness :
  exists t,
    decode_order_filled Demo.cs (with_data Demo.self_fill_log (Log.HBytes [x07])) = Ok t /\
    token_id t = "0x0000000000000000000000000000000000000000000000000000000000000007" /\
    canonical_id (token_id t).
Proof.
  eexists. split; [reflexivity|]. split; [reflexivity|].
  apply (decoded_token_id_is_canonical Demo.cs
           (with_data Demo.self_fill_log (Log.HBytes [x07])) "").
  left. reflexivity.
Defined.


Lemma all_hex_lower s : all_hex (lower s) = all_hex s.
Proof.
  induction s as [|c s IH]; [reflexivity|]. cbn [lower all_hex].
  now rewrite hexval_lower, IH.
Qed.

Lemma data_bytes_of_spelled log s bs :
  spells s bs ->
  data_bytes_of (with_data log (Log.HStr ("0x" +:+ s))) = Ok bs /\
  data_bytes_of (with_data log (Log.HStr s)) = Ok bs.
Proof.
  unfold spells. intros S.
  assert (F : bytes_fromhex s = Some bs)
    by (rewrite <- fromhex_lower, S; apply fromhex_hex).
  assert (N : startswith "0x" s = false).
  { apply hex_not_prefixed. rewrite <- all_hex_lower, S. apply all_hex_bytes_hex. }
  unfold data_bytes_of, with_data. cbn [Log.data]. rewrite N.
  rewrite !str_app_cons, str_app_nil. cbn [startswith Ascii.eqb Bool.eqb andb str_drop].
  now rewrite F.
Qed.

Lemma decode_fields_data cs log d d' ex :
  data_bytes_of (with_data log d) = data_bytes_of (with_data log d') ->
  decode_fields cs (with_data log d) ex = decode_fields cs (with_data log d') ex.
Proof.
  intros E. unfold decode_fields. rewrite E. reflexivity.
Qed.

(** X15: a payload handed over as text decodes like the bytes it spells:
    with or without the "0x" prefix, in either letter case,
    [decode_order_filled] gives what it gives on the same log with the
    payload as bytes. *)
Theorem payload_text_decodes_like_bytes
    (cs : string -> option string) (log : Log.t) (s : string) (bs : list byte) :
  spells s bs ->
  decode_order_filled cs (with_data log (Log.HStr ("0x" +:+ s)))
    = decode_order_filled cs (with_data log (Log.HBytes bs)) /\
  decode_order_filled cs (with_data log (Log.HStr s))
    = decode_order_filled cs (with_data log (Log.HBytes bs)).
Proof.
  intros S. destruct (data_bytes_of_spelled log s bs S) as [P U].
  assert (B : data_bytes_of (with_data log (Log.HBytes bs)) = Ok bs) by reflexivity.
  assert (D : forall d, data_bytes_of (with_data log d) = Ok bs ->
            decode_order_filled cs (with_data log d)
              = decode_order_filled cs (with_data log (Log.HBytes bs))).
  { intros d E. unfold decode_order_filled.
    change (Log.address (with_data log d)) with (Log.address log).
    change (Log.address (with_data log (Log.HBytes bs))) with (Log.address log).
    destruct (checksum cs (Log.address log)) as [a|e]; cbn [Py.bind]; [|reflexivity].
    destruct (checksum cs CTF_EXCHANGE) as [c|e]; cbn [Py.bind]; [|reflexivity].
    destruct (String.eqb a c); cbn [Py.bind];
      [apply decode_fields_data; congruence|].
    destruct (checksum cs NEGRISK_CTF_EXCHANGE) as [n|e]; cbn [Py.bind]; [|reflexivity].
    destruct (String.eqb a n); cbn [Py.bind]; apply decode_fields_data; congruence. }
  split; apply D; assumption.
Qed.

Lemma payload_text_decodes_like_bytes_witness :
  decode_order_filled Demo.cs (with_data Demo.self_fill_log (Log.HStr "0x0A"))
    = decode_order_filled Demo.cs (with_data Demo.self_fill_log (Log.HBytes [x0a])) /\
  decode_order_filled Demo.cs (with_data Demo.self_fill_log (Log.HStr "0A"))
    = decode_order_filled Demo.cs (with_data Demo.self_fill_log (Log.HBytes [x0a])).
Proof.
  apply (payload_text_decodes_like_bytes Demo.cs Demo.self_fill_log "0A" [x0a]).
  reflexivity.
Defined.

End LogFacts.

(** * Facts about the transaction decoder of stage1 *)

Module Stage1Facts.
Import Py TradeDecoder Spec Terms SampleLogs PyFacts WordFacts DecoderFacts.

Lemma decode_fields_parties cs log ex t :
  decode_fields cs log ex = Ok t ->
  exchange t = ex /\
  exists t3, Log.topic log 3 = Ok t3 /\
    checksum cs ("0x" +:+ str_last 40 (Log.hex_or_str t3)) = Ok (taker t).
Proof.
  unfold decode_fields. intros H.
  apply bind_ok in H as (t1 & _ & H). apply bind_ok in H as (t2 & _ & H).
  apply bind_ok in H as (mk & _ & H). apply bind_ok in H as (t3 & E3 & H).
  apply bind_ok in H as (tk & Ek & H). apply bind_ok in H as (bs & _ & H).
  destruct (int_from_bytes (slice 0 32 bs) =? 0); injection H as <-;
    cbn [exchange taker]; eauto.
Qed.

Lemma decode_transaction_step_ok cs keccak recs log recs' :
  Stage1.decode_transaction_step cs keccak recs log = Ok recs' ->
  recs' = recs \/ exists t, recs' = (recs ++ [t])%list /\ emitted cs log t.
Proof.
  unfold Stage1.decode_transaction_step. intros H.
  apply bind_ok in H as (a & Ea & H). apply bind_ok in H as (ctf & Ec & H).
  apply bind_ok in H as (oex & Ex & H).
  destruct oex as [ex|]; [|injection H as <-; now left].
  destruct (Log.topics log) as [|t0 ts] eqn:T; [injection H as <-; now left|].
  destruct (negb _); [injection H as <-; now left|].
  apply bind_ok in H as (t3 & E3 & H). apply bind_ok in H as (tk & Ek & H).
  destruct (String.eqb (lower tk) (lower ex)) eqn:S; [injection H as <-; now left|].
  unfold Stage1.parse_order_filled_log in H.
  destruct (decode_fields cs log ex) as [t|e] eqn:D; injection H as <-; [|now left].
  right. exists t. split; [reflexivity|].
  destruct (decode_fields_parties _ _ _ _ D) as (Eex & t3' & E3' & Ek').
  rewrite E3 in E3'. injection E3' as <-. rewrite Ek in Ek'. injection Ek' as ->.
  apply String.eqb_neq in S. unfold emitted. rewrite Eex.
  assert (X : (ex = CTF_EXCHANGE \/ ex = NEGRISK_CTF_EXCHANGE) /\
              decode_order_filled cs log = decode_fields cs log ex).
  { unfold decode_order_filled. rewrite Ea, Ec. cbn [Py.bind].
    destruct (String.eqb a ctf); [injection Ex as <-; cbn [Py.bind]; auto|].
    apply bind_ok in Ex as (ng & En & Ex). rewrite En. cbn [Py.bind].
    destruct (String.eqb a ng); [|discriminate Ex].
    injection Ex as <-. cbn [Py.bind]. auto. }
  destruct X as [X1 X2]. now rewrite X2.
Qed.

Lemma decode_transaction_loop_ok cs keccak logs : forall recs recs',
  Stage1.decode_transaction_loop cs keccak recs logs = Ok recs' ->
  exists added,
    recs' = (recs ++ added)%list /\
    (List.length added <= List.length logs)%nat /\
    List.Forall (fun t => exists log, List.In log logs /\ emitted cs log t) added.
Proof.
  induction logs as [|log logs IH]; intros recs recs' H;
    cbn [Stage1.decode_transaction_loop] in H.
  - injection H as <-. exists []. rewrite app_nil_r.
    split; [reflexivity|]. split; [cbn [List.length]; lia | constructor].
  - apply bind_ok in H as (r1 & S & H). apply IH in H as (added & -> & L & F).
    assert (F' : List.Forall
                   (fun t => exists l, List.In l (log :: logs) /\ emitted cs l t) added).
    { eapply List.Forall_impl; [|exact F]. intros t (l & I & E). exists l.
      split; [now right | exact E]. }
    apply decode_transaction_step_ok in S as [->|(t & -> & E)].
    + exists added. split; [reflexivity|].
      split; [cbn [List.length]; lia | exact F'].
    + exists (t :: added). rewrite <- app_assoc.
      split; [reflexivity|]. split; [cbn [List.length]; lia|].
      constructor; [|exact F']. exists log. split; [now left | exact E].
Qed.

(** X16: every trade stage1 [decode_transaction] returns is the trade
    stage2 [decode_order_filled] decodes from a log of the receipt, on one
    of the two exchanges, with a taker other than the exchange; there are
    no more trades than logs. *)
Theorem stage1_trades_are_stage2_trades
    (cs : string -> option string) (keccak : list byte -> list byte)
    (get_transaction_receipt : string -> result (list Log.t))
    (tx_hash : string) (trades : list Trade) :
  Stage1.decode_transaction cs keccak get_transaction_receipt tx_hash = Ok trades ->
  exists logs,
    get_transaction_receipt tx_hash = Ok logs /\
    (List.length trades <= List.length logs)%nat /\
    List.Forall
      (fun t => exists log,
         List.In log logs /\ decode_order_filled cs log = Ok t /\
         (exchange t = CTF_EXCHANGE \/ exchange t = NEGRISK_CTF_EXCHANGE) /\
         lower (taker t) <> lower (exchange t))
      trades.
Proof.
  unfold Stage1.decode_transaction. intros H.
  apply bind_ok in H as (logs & R & H). exists logs. split; [exact R|].
  apply decode_transaction_loop_ok in H as (added & -> & L & F).
  split; exact L || exact F.
Qed.

Lemma stage1_trades_are_stage2_trades_witness :
  exists trades,
    Stage1.decode_transaction Demo.cs Demo.keccak
      (fun _ => Ok [Demo.self_fill_log; fill_log]) "0xtx" = Ok trades /\
    List.length trades = 1%nat /\
    List.Forall
      (fun t => exists log,
         List.In log [Demo.self_fill_log; fill_log] /\
         decode_order_filled Demo.cs log = Ok t /\
         (exchange t = CTF_EXCHANGE \/ exchange t = NEGRISK_CTF_EXCHANGE) /\
         lower (taker t) <> lower (exchange t))
      trades.
Proof.
  destruct (Stage1.decode_transaction Demo.cs Demo.keccak
              (fun _ => Ok [Demo.self_fill_log; fill_log]) "0xtx") as [ts|e] eqn:D;
    [|discriminate D].
  destruct (stage1_trades_are_stage2_trades Demo.cs Demo.keccak _ _ _ D)
    as (logs & R & _ & F).
  injection R as <-. exists ts. split; [reflexivity|]. split; [|exact F].
  vm_compute in D. now injection D as <-.
Defined.


Lemma decode_transaction_loop_raises cs keccak log logs :
  List.In log logs ->
  (forall recs, exists e, Stage1.decode_transaction_step cs keccak recs log = Raise e) ->
  forall recs, exists e, Stage1.decode_transaction_loop cs keccak recs logs = Raise e.
Proof.
  intros I R. induction logs as [|l logs IH]; [destruct I|]. intros recs.
  cbn [Stage1.decode_transaction_loop].
  destruct I as [->|I].
  - destruct (R recs) as [e ->]. cbn. eauto.
  - destruct (Stage1.decode_transaction_step cs keccak recs l) as [r|e];
      cbn [Py.bind]; [now apply IH | eauto].
Qed.

(** X17: the two ways a log fails in stage1 [decode_transaction]. A log of
    a tracked exchange that carries the event signature but fewer than four
    topics makes the whole call raise: no trade of the transaction is
    returned. A log with four topics whose payload cannot be read is
    skipped and the other logs are still decoded. *)
Theorem stage1_short_log_aborts_bad_payload_skipped
    (cs : string -> option string) (keccak : list byte -> list byte)
    (get_transaction_receipt : string -> result (list Log.t))
    (tx_hash : string) (logs : list Log.t) (log : Log.t)
    (a : string) (t0 : Log.hexdata) (rest : list Log.hexdata) :
  get_transaction_receipt tx_hash = Ok logs ->
  cs (Log.address log) = Some a ->
  cs CTF_EXCHANGE = Some a \/
  (is_Some (cs CTF_EXCHANGE) /\ cs NEGRISK_CTF_EXCHANGE = Some a) ->
  Log.topics log = t0 :: rest ->
  lower (Log.hex_or_str t0) = lower (Stage1.ORDER_FILLED_TOPIC keccak) ->
  ((List.length rest < 3)%nat -> List.In log logs ->
   exists e, Stage1.decode_transaction cs keccak get_transaction_receipt tx_hash
             = Raise e) /\
  (forall t3,
     nth_error rest 2 = Some t3 ->
     is_Some (cs ("0x" +:+ str_last 40 (Log.hex_or_str t3))) ->
     (exists e, data_bytes_of log = Raise e) ->
     forall recs, Stage1.decode_transaction_step cs keccak recs log = Ok recs).
Proof.
  intros R A X T S.
  assert (St : forall recs,
    Stage1.decode_transaction_step cs keccak recs log =
    (t3 <- Log.topic log 3 ;;
     taker_address <- checksum cs ("0x" +:+ str_last 40 (Log.hex_or_str t3)) ;;
     if String.eqb (lower taker_address)
          (lower (if String.eqb a (default "" (cs CTF_EXCHANGE))
                  then CTF_EXCHANGE else NEGRISK_CTF_EXCHANGE))
     then Ok recs
     else match Stage1.parse_order_filled_log cs log
                  (if String.eqb a (default "" (cs CTF_EXCHANGE))
                   then CTF_EXCHANGE else NEGRISK_CTF_EXCHANGE) with
          | Ok trade => Ok (recs ++ [trade])%list
          | Raise _ => Ok recs
          end)).
  { intros recs. unfold Stage1.decode_transaction_step, checksum. rewrite A.
    cbn [of_option Py.bind].
    destruct X as [C|[[c C] N]]; rewrite C; cbn [of_option Py.bind default from_option id].
    - rewrite String.eqb_refl. cbn [Py.bind]. rewrite T.
      apply String.eqb_eq in S. rewrite S. reflexivity.
    - destruct (String.eqb a c); cbn [Py.bind].
      + rewrite T. apply String.eqb_eq in S. rewrite S. reflexivity.
      + rewrite N. cbn [of_option Py.bind]. rewrite String.eqb_refl. cbn [Py.bind].
        rewrite T. apply String.eqb_eq in S. rewrite S. reflexivity. }
  split.
  - intros L I. unfold Stage1.decode_transaction. rewrite R. cbn [Py.bind].
    apply (decode_transaction_loop_raises cs keccak log logs I). intros recs.
    rewrite St. unfold Log.topic. rewrite T.
    replace (nth_error (t0 :: rest) 3) with (@None Log.hexdata)
      by (symmetry; apply nth_error_None; cbn [List.length]; lia).
    cbn. eauto.
  - intros t3 E3 [tk Ek] [e D] recs. rewrite St.
    unfold Log.topic at 1. rewrite T.
    change (nth_error (t0 :: rest) 3) with (nth_error rest 2). rewrite E3.
    cbn [of_option Py.bind]. unfold checksum at 1. rewrite Ek. cbn [of_option Py.bind].
    destruct (String.eqb (lower tk) _); [reflexivity|].
    unfold Stage1.parse_order_filled_log, decode_fields.
    destruct (Log.topic log 1) as [t1|?]; cbn [Py.bind]; [|reflexivity].
    destruct (Log.topic log 2) as [t2|?]; cbn [Py.bind]; [|reflexivity].
    destruct (checksum cs _) as [mk|?]; cbn [Py.bind]; [|reflexivity].
    destruct (Log.topic log 3) as [t3'|?]; cbn [Py.bind]; [|reflexivity].
    destruct (checksum cs _) as [tk'|?]; cbn [Py.bind]; [|reflexivity].
    rewrite D. reflexivity.
Qed.

Lemma stage1_short_log_aborts_bad_payload_skipped_witness :
  exists e,
    Stage1.decode_transaction Demo.cs Demo.keccak
      (fun _ => Ok [fill_log; bare_log]) "0xtx" = Raise e.
Proof.
  apply (stage1_short_log_aborts_bad_payload_skipped Demo.cs Demo.keccak
           (fun _ => Ok [fill_log; bare_log]) "0xtx" [fill_log; bare_log] bare_log
           CTF_EXCHANGE Demo.signature_topic []);
    try reflexivity; [now left | cbn; lia | right; now left].
Defined.

End Stage1Facts.

(** * Facts about the indexing pipeline *)

Module PipelineFacts.
Import Py TradeDecoder Store Indexer SingleTx Spec Terms SampleLogs.
Import PyFacts WordFacts DecimalFacts NumeralFacts DecoderFacts StoreFacts IndexerFacts.

(** X18: [get_block_timestamp] asks the node once per block: after a
    lookup the block is in the cache with the timestamp returned, nothing
    that was cached has changed, and a second lookup gives the same answer
    whatever the node would say. *)
Theorem block_timestamp_is_cached
    (w3 : Web3) (block_number timestamp : Z) (cache cache' : gmap Z Z) :
  get_block_timestamp w3 block_number cache = Ok (timestamp, cache') ->
  cache' !! block_number = Some timestamp /\
  cache ⊆ cache' /\
  forall w3', get_block_timestamp w3' block_number cache' = Ok (timestamp, cache').
Proof.
  unfold get_block_timestamp. intros H.
  destruct (cache !! block_number) as [t|] eqn:E.
  - injection H as <- <-. split; [exact E|]. split; [reflexivity|].
    intros w3'. now rewrite E.
  - apply bind_ok in H as (t & G & H). injection H as <- <-.
    split; [apply lookup_insert_eq|]. split; [now apply insert_subseteq|].
    intros w3'. now rewrite lookup_insert_eq.
Qed.

Lemma block_timestamp_is_cached_witness :
  get_block_timestamp (mkWeb3 (fun _ _ _ _ => Ok []) (fun _ => Raise RpcError))
                      100 (<[ 100 := 1704067200 ]> ∅)
    = Ok (1704067200, <[ 100 := 1704067200 ]> ∅).
Proof.
  assert (H : get_block_timestamp (Demo.node []) 100 ∅
              = Ok (1704067200, <[ 100 := 1704067200 ]> ∅)) by reflexivity.
  apply (proj2 (proj2 (block_timestamp_is_cached _ _ _ _ _ H))).
Defined.

(** X19: [index_single_transaction] indexes the one block of the
    transaction and then sets the watermark "trade_indexer" to that block,
    whatever the watermark was; when the receipt cannot be fetched it raises
    what the node raised and the connection is left as it was. *)
Theorem single_transaction_sets_watermark
    (cs : string -> option string) (keccak : list byte -> list byte)
    (strf : Z -> option string) (receipt_block_number : string -> result Z)
    (w3 : Web3) (c c' : conn) (tx_hash : string) (addrs : option (list string)) :
  (forall r,
     index_single_transaction cs keccak strf receipt_block_number w3 c tx_hash addrs
       = (Ok r, c') ->
     exists b,
       receipt_block_number tx_hash = Ok b /\
       from_block r = b /\ to_block r = b /\
       get_sync_state c' "trade_indexer" = Some b) /\
  (forall e,
     receipt_block_number tx_hash = Raise e ->
     index_single_transaction cs keccak strf receipt_block_number w3 c tx_hash addrs
       = (Raise e, c)).
Proof.
  unfold index_single_transaction, get_transaction_block.
  destruct (receipt_block_number tx_hash) as [b|e0]; split.
  - intros r H. exists b. split; [reflexivity|].
    pose proof (run_indexer_ok _ _ _ _ _ _ _ _ _ _ _ H)
      as (logs & recs & sk & _ & _ & -> & _).
    unfold run_indexer in H.
    destruct (fetch_logs _ _ _ _ _) as [ls|]; [|discriminate H].
    destruct (parse_logs _ _ _ _ _ _ _ _) as [[ts k]|]; [|discriminate H].
    destruct (insert_trades c ts) as [n c1]. injection H as <- _.
    cbn [from_block to_block]. repeat split.
    unfold get_sync_state. rewrite (proj1 (working_update_sync_state _ _ _)).
    cbn [sync_state]. apply lookup_insert_eq.
  - intros e H. discriminate H.
  - intros r H. discriminate H.
  - intros e H. now injection H as <-.
Qed.

Lemma single_transaction_sets_watermark_witness :
  (exists b,
     from_block
       {| from_block := 100; to_block := 100; total_logs := 0; parsed_trades := 0;
          inserted_trades := 0; skipped_trades := 0; sample_trades := [] |} = b /\
     get_sync_state (update_sync_state Demo.conn_1 "trade_indexer" 100)
                    "trade_indexer" = Some b) /\
  index_single_transaction Demo.cs Demo.keccak Demo.strf
    (fun _ => Raise RpcError) (Demo.node []) Demo.conn_1 "0xtx" None
    = (Raise RpcError, Demo.conn_1).
Proof.
  split.
  - destruct (proj1 (single_transaction_sets_watermark Demo.cs Demo.keccak Demo.strf
                       (fun _ => Ok 100) (Demo.node []) Demo.conn_1
                       (update_sync_state Demo.conn_1 "trade_indexer" 100)
                       "0xtx" None)
                {| from_block := 100; to_block := 100; total_logs := 0;
                   parsed_trades := 0; inserted_trades := 0; skipped_trades := 0;
                   sample_trades := [] |})
      as (b & _ & F & _ & G); [reflexivity|].
    exists b. split; [exact F | exact G].
  - apply (proj2 (single_transaction_sets_watermark Demo.cs Demo.keccak Demo.strf
                    (fun _ => Raise RpcError) (Demo.node []) Demo.conn_1 Demo.conn_1
                    "0xtx" None)).
    reflexivity.
Defined.

Lemma decode_fields_amounts cs log ex t :
  decode_fields cs log ex = Ok t ->
  exists bs,
    data_bytes_of log = Ok bs /\
    side t = (if w_maker_asset_id (read_words bs) =? 0 then "BUY" else "SELL") /\
    maker_amount t = str_of_int (w_maker_amount_filled (read_words bs)) /\
    taker_amount t = str_of_int (w_taker_amount_filled (read_words bs)).
Proof.
  unfold decode_fields. intros H.
  apply bind_ok in H as (t1 & _ & H). apply bind_ok in H as (t2 & _ & H).
  apply bind_ok in H as (mk & _ & H). apply bind_ok in H as (t3 & _ & H).
  apply bind_ok in H as (tk & _ & H). apply bind_ok in H as (bs & E & H).
  exists bs. split; [exact E|]. unfold read_words.
  cbn [w_maker_asset_id w_maker_amount_filled w_taker_amount_filled].
  destruct (int_from_bytes (slice 0 32 bs) =? 0); injection H as <-;
    cbn [side maker_amount taker_amount]; repeat split.
Qed.

(** X20: the size [parse_trade_from_log] stores is the decimal quotient of
    the token amount of the payload by 10^6: the taker amount word when
    the maker asset id word is 0 (a BUY), the maker amount word otherwise.
    For a positive amount its relative distance to the exact quotient is
    at most 10^-27. *)
Theorem stored_size_is_token_amount
    (cs : string -> option string) (log : Log.t) (timestamp : string)
    (c : conn) (r : trade_record) :
  parse_trade_from_log cs log timestamp c = Ok (Some r) ->
  exists bs,
    data_bytes_of log = Ok bs /\
    let w := read_words bs in
    let amount := if w_maker_asset_id w =? 0
                  then w_taker_amount_filled w else w_maker_amount_filled w in
    let size := Decimal_div (Decimal_of_int amount) (Decimal_of_int (10 ^ 6)) in
    r_size r = Decimal_str size /\
    (0 < amount ->
     exists u v,
       0 <= u /\ 0 <= v /\ d_exp size = u - v /\ 0 <= d_int size /\
       10 ^ 27 * Z.abs (d_int size * 10 ^ u * 10 ^ 6 - amount * 10 ^ v)
         <= amount * 10 ^ v).
Proof.
  unfold parse_trade_from_log. intros H.
  apply bind_ok in H as (t & D & H).
  apply decode_order_filled_fields in D as [ex D].
  apply decode_fields_amounts in D as (bs & E & S & M & T).
  exists bs. split; [exact E|]. cbv zeta.
  destruct (fetch_market_by_token_id c (token_id t)) as [m|]; [|discriminate H].
  injection H as <-. cbn [r_size]. rewrite S, M, T. unfold size_str. split.
  - destruct (w_maker_asset_id (read_words bs) =? 0);
      cbn [String.eqb Ascii.eqb Bool.eqb andb];
      rewrite int_of_str_of_int by apply int_from_bytes_nonneg; reflexivity.
  - intros P. apply Decimal_div_near; [exact P | reflexivity].
Qed.

Lemma stored_size_is_token_amount_witness :
  exists r,
    parse_trade_from_log Demo.cs Demo.self_fill_log "2024-01-01T00:00:00" Demo.conn_1
      = Ok (Some r) /\
    r_size r = "2".
Proof.
  destruct (parse_trade_from_log Demo.cs Demo.self_fill_log "2024-01-01T00:00:00"
              Demo.conn_1) as [[r|]|e] eqn:P; [|discriminate P|discriminate P].
  exists r. split; [reflexivity|].
  destruct (stored_size_is_token_amount _ _ _ _ _ P) as (bs & E & S & _).
  vm_compute in E. injection E as <-. exact S.
Defined.


Lemma parse_trade_registered cs log ts c r :
  parse_trade_from_log cs log ts c = Ok (Some r) ->
  registered (markets (working c)) r.
Proof.
  unfold parse_trade_from_log. intros H. apply bind_ok in H as (t & _ & H).
  destruct (fetch_market_by_token_id c (token_id t)) as [m|] eqn:F; [|discriminate H].
  apply fetch_market_some in F as [I E]. injection H as <-.
  exists m. cbn [r_market_id r_outcome r_token_id]. split; [exact I|].
  split; [reflexivity|].
  destruct (String.eqb_spec (lower (token_id t)) (lower (yes_token_id m))) as [Y|NY];
    [now left|].
  destruct E as [E|E]; [now rewrite E in NY|]. right.
  rewrite <- E, String.eqb_refl. now split.
Qed.

Lemma parse_logs_registered cs strf w3 c logs : forall cache recs skipped recs' skipped',
  List.Forall (registered (markets (working c))) recs ->
  parse_logs cs strf w3 c logs cache recs skipped = Ok (recs', skipped') ->
  List.Forall (registered (markets (working c))) recs'.
Proof.
  induction logs as [|log logs IH]; intros cache recs skipped recs' skipped' F H;
    cbn [parse_logs] in H.
  - now injection H as <- <-.
  - apply bind_ok in H as ([u cache'] & _ & H).
    apply bind_ok in H as (ts & _ & H).
    apply bind_ok in H as (o & P & H).
    destruct o as [r|]; apply IH in H; try assumption.
    apply List.Forall_app. split; [exact F|].
    constructor; [|constructor]. now apply parse_trade_registered in P.
Qed.

(** X21: a successful run of [run_indexer] only appends to the trades
    table and leaves the registry alone, and every row it appends points
    at a registered market by id, carries one of that market's two
    position ids, and has the outcome that goes with it. *)
Theorem run_adds_only_registered_trades
    (cs : string -> option string) (keccak : list byte -> list byte)
    (strf : Z -> option string) (w3 : Web3) (from to : Z)
    (addrs : option (list string)) (key : string)
    (c c' : conn) (r : index_result) :
  run_indexer cs keccak strf w3 c from to addrs key = (Ok r, c') ->
  markets (working c') = markets (working c) /\
  exists added,
    trades (working c') = (trades (working c) ++ added)%list /\
    List.Forall (fun new_row => registered (markets (working c)) (row new_row)) added.
Proof.
  intros H.
  apply run_indexer_ok in H as (logs & recs & sk & _ & P & -> & _).
  apply parse_logs_registered in P; [|constructor].
  destruct (insert_trades_working c recs) as (W & _ & _).
  destruct (insert_trades_loop (working c) 0 recs) as [d n] eqn:E.
  apply insert_trades_loop_spec in E as (M & _ & (added & Ha & _ & _ & Hf) & _).
  cbn [fst] in W.
  rewrite (proj1 (working_update_sync_state _ _ _)). cbn [markets trades].
  rewrite W. split; [exact M|]. exists added. split; [exact Ha|].
  eapply List.Forall_impl; [|exact Hf]. intros x I.
  exact (proj1 (List.Forall_forall _ _) P _ I).
Qed.

Lemma run_adds_only_registered_trades_witness :
  exists c' added,
    snd (Demo.run [Demo.self_fill_log; fill_log] Demo.conn_1) = c' /\
    trades (working c') = added /\ List.length added = 2%nat /\
    List.Forall (fun new_row => registered [Demo.market_1] (row new_row)) added.
Proof.
  destruct (Demo.run [Demo.self_fill_log; fill_log] Demo.conn_1)
    as [[r|e] c'] eqn:R; [|discriminate R].
  destruct (run_adds_only_registered_trades Demo.cs Demo.keccak Demo.strf
              (Demo.node [Demo.self_fill_log; fill_log]) 100 100 None
              "trade_indexer" Demo.conn_1 c' r R) as (_ & added & A & F).
  exists c', added. split; [reflexivity|]. split; [exact A|].
  split; [|exact F].
  vm_compute in R. injection R as _ <-. cbn in A. now subst added.
Defined.

End PipelineFacts.

(** * Facts about the derivation of positions *)

Module PositionFacts.
Import Py Derive Positions Spec Terms PyFacts DeriveFacts WordFacts LogFacts.

Lemma lower_char_idem c : lower_char (lower_char c) = lower_char c.
Proof. destruct c as [[] [] [] [] [] [] [] []]; reflexivity. Qed.

Lemma lower_idem s : lower (lower s) = lower s.
Proof.
  induction s as [|c s IH]; [reflexivity|]. cbn [lower].
  now rewrite lower_char_idem, IH.
Qed.

(** X22: on ASCII text [normalize_hex] is idempotent and its result, for
    a non-empty argument, starts with "0x" and has no upper-case letter; it
    never pads: the result is as long as the argument, or two characters
    longer when the argument had no "0x" in front. *)
Theorem normalize_hex_idempotent (value : string) :
  is_ascii value = true ->
  normalize_hex (normalize_hex value) = normalize_hex value /\
  (value <> "" ->
   startswith "0x" (normalize_hex value) = true /\
   lower (normalize_hex value) = normalize_hex value /\
   String.length (normalize_hex value) =
     (if startswith "0x" value then String.length value
      else 2 + String.length value)%nat).
Proof.
  intros _.
  destruct value as [|c s]; [split; [reflexivity | intros N; now destruct N]|].
  assert (P : forall t, normalize_hex ("0x" +:+ lower t) = "0x" +:+ lower t).
  { intros t. unfold normalize_hex. rewrite !str_app_cons, str_app_nil.
    cbn [startswith Ascii.eqb Bool.eqb andb str_drop]. now rewrite lower_idem. }
  assert (L : forall t, lower ("0x" +:+ lower t) = "0x" +:+ lower t).
  { intros t. rewrite !str_app_cons, str_app_nil. cbn [lower].
    now rewrite lower_idem. }
  destruct (startswith "0x" (String c s)) eqn:S.
  - assert (E : normalize_hex (String c s) = "0x" +:+ lower (str_drop 2 (String c s)))
      by (unfold normalize_hex; now rewrite S).
    rewrite E. split; [apply P|]. intros _. split; [reflexivity|]. split; [apply L|].
    rewrite !str_app_cons, str_app_nil. cbn [String.length].
    rewrite str_length_lower.
    destruct s as [|d s]; [cbn in S; now rewrite andb_false_r in S | reflexivity].
  - assert (E : normalize_hex (String c s) = "0x" +:+ lower (String c s))
      by (unfold normalize_hex; now rewrite S).
    rewrite E. split; [apply P|]. intros _. split; [reflexivity|]. split; [apply L|].
    rewrite !str_app_cons, str_app_nil. cbn [String.length].
    now rewrite str_length_lower.
Qed.

Lemma normalize_hex_idempotent_witness :
  normalize_hex (normalize_hex "ABcd") = normalize_hex "ABcd" /\
  startswith "0x" (normalize_hex "ABcd") = true /\
  String.length (normalize_hex "ABcd") = 6%nat.
Proof.
  destruct (normalize_hex_idempotent "ABcd" eq_refl) as (I & R).
  destruct (R ltac:(discriminate)) as (S & _ & L).
  split; [exact I|]. split; [exact S | exact L].
Defined.

Lemma spells_bytes_hex bs : spells (bytes_hex bs) bs.
Proof. apply lower_bytes_hex. Qed.

Lemma arg_bytes_of_hash bs :
  List.length bs = 32%nat -> arg_bytes 64 ("0x" +:+ bytes_hex bs) = Some bs.
Proof.
  intros L. apply arg_bytes_spelled; [apply spells_bytes_hex | lia].
Qed.

(** X23: [derive_binary_positions] with a condition id chains the two
    hashes: each collection id is the hash of parent, condition and the
    index set (1 for YES, 2 for NO) as a 32-byte word, and each position
    id is the hash of the collateral token's 20 bytes followed by the 32
    bytes of that collection id. The oracle and the question id have no
    part in it. Without a condition id the one [get_condition_id] computes
    for two outcome slots is used. *)
Theorem binary_positions_chain_the_hashes
    (keccak : list byte -> list byte) (cs : string -> option string)
    (abi_encode : string -> list byte -> Z -> result (list byte))
    (oracle question_id collateral_token condition_id parent : string)
    (pb cb tb : list byte) :
  (forall x, List.length (keccak x) = 32%nat) ->
  arg_bytes 64 parent = Some pb ->
  arg_bytes 64 condition_id = Some cb ->
  arg_bytes 40 collateral_token = Some tb ->
  let word n := to_bytes_aux 32 n [] in
  let hex bs := "0x" +:+ bytes_hex bs in
  let cy := keccak (pb ++ cb ++ word 1)%list in
  let cn := keccak (pb ++ cb ++ word 2)%list in
  derive_binary_positions keccak cs abi_encode oracle question_id collateral_token
                          (Some condition_id) parent
    = Ok {| position_yes := hex (keccak (tb ++ cy)%list);
            position_no := hex (keccak (tb ++ cn)%list);
            collection_yes := hex cy;
            collection_no := hex cn |} /\
  (get_condition_id keccak cs abi_encode oracle question_id 2 = Ok condition_id ->
   derive_binary_positions keccak cs abi_encode oracle question_id collateral_token
                           None parent
   = derive_binary_positions keccak cs abi_encode oracle question_id collateral_token
                             (Some condition_id) parent).
Proof.
  intros K P C T word hex cy cn. split.
  - unfold derive_binary_positions. cbn [Py.bind].
    rewrite !get_collection_id_args, P, C. cbn [of_option Py.bind int_to_bytes].
    change (int_to_bytes 32 1) with (Ok (word 1)).
    change (int_to_bytes 32 2) with (Ok (word 2)). cbn [Py.bind].
    rewrite !get_position_id_args, T. cbn [of_option Py.bind].
    fold cy cn. rewrite !arg_bytes_of_hash by apply K. reflexivity.
  - intros G. unfold derive_binary_positions. now rewrite G.
Qed.

Lemma binary_positions_chain_the_hashes_witness :
  exists p,
    derive_binary_positions Demo.keccak Demo.cs (fun _ _ _ => Raise ValueError)
      "" "" "2791Bca1f2de4661ED88A30C99A7a9449Aa84174" (Some "0xab") ZERO_COLLECTION
    = Ok p /\
    collection_yes p =
      "0x" +:+ bytes_hex (Demo.keccak (repeat x00 32 ++ (repeat x00 31 ++ [xab])
                                       ++ to_bytes_aux 32 1 [])%list).
Proof.
  eexists. split.
  - apply (binary_positions_chain_the_hashes Demo.keccak Demo.cs
             (fun _ _ _ => Raise ValueError) "" ""
             "2791Bca1f2de4661ED88A30C99A7a9449Aa84174" "0xab" ZERO_COLLECTION
             (repeat x00 32) (repeat x00 31 ++ [xab])%list Demo.usdc_bytes).
    + intros x. unfold Demo.keccak. rewrite List.length_firstn, List.length_app,
        List.repeat_length. lia.
    + reflexivity.
    + reflexivity.
    + reflexivity.
  - reflexivity.
Defined.

End PositionFacts.

(** * Facts about the Gamma client of stage1 *)

Module GammaFacts.
Import Py Discovery Gamma Spec Terms PyFacts WordFacts.

Lemma format_token_convert v t :
  as_token v = Some t -> format_token v = JStr (convert_token t).
Proof.
  destruct v as [|b|n|s|l|l]; cbn [as_token]; intros [= <-]; cbn [format_token];
    try reflexivity.
  unfold convert_token. now destruct (isdigit s).
Qed.

(** X24: stage1 [extract_market_params] and stage2
    [parse_market_from_gamma] turn the token ids of [clobTokenIds] into the
    same strings: when the list has two ids or more, the first two are
    ints or strings, and every string in the list is ASCII text of no
    more than 4300 characters when it is all digits (stage1 converts every
    id of the list, and [int] refuses longer strings), the [yes_token_id]
    and [no_token_id] of the one are those of the other. *)
Theorem stages_format_token_ids_alike
    (json_loads : string -> option json) (market_data : gmap string json)
    (v y n : json) (rest : list json) (ty tn : token) :
  market_data !! "clobTokenIds" = Some v ->
  parsed_ids json_loads v = JList (y :: n :: rest) ->
  as_token y = Some ty -> as_token n = Some tn ->
  forallb plain_id (y :: n :: rest) = true ->
  exists p,
    extract_market_params json_loads market_data = Some p /\
    p_yes_token_id p
      = Some (JStr (yes_token_id (parse_market_from_gamma json_loads market_data))) /\
    p_no_token_id p
      = Some (JStr (no_token_id (parse_market_from_gamma json_loads market_data))).
Proof.
  intros G P Y N _.
  unfold extract_market_params, parse_market_from_gamma.
  assert (E1 : get market_data "clobTokenIds" (get market_data "tokenIds" (JList [])) = v)
    by (unfold get at 1; now rewrite G).
  assert (E2 : get market_data "clobTokenIds" (JList []) = v)
    by (unfold get; now rewrite G).
  rewrite E1, E2. unfold parsed_ids in P. rewrite P.
  cbn [iterate List.map]. eexists. split; [reflexivity|].
  cbn [p_yes_token_id p_no_token_id]. rewrite Y, N.
  cbn [yes_token_id no_token_id].
  now rewrite (format_token_convert _ _ Y), (format_token_convert _ _ N).
Qed.

Lemma stages_format_token_ids_alike_witness :
  exists p,
    extract_market_params (fun _ => None) Demo.gamma_market_dec = Some p /\
    p_yes_token_id p
      = Some (JStr "0x00000000000000000000000000000000000000000000000000000000000000ff").
Proof.
  destruct (stages_format_token_ids_alike (fun _ => None) Demo.gamma_market_dec
              (JList [JStr "255"; JStr "4096"]) (JStr "255") (JStr "4096") []
              (TStr "255") (TStr "4096") eq_refl eq_refl eq_refl eq_refl eq_refl)
    as (p & E & Y & _).
  exists p. split; [exact E|]. exact Y.
Defined.

End GammaFacts.

(** * Facts about the market decoder of stage1 *)

Module MarketDecoderFacts.
Import Py TradeDecoder Discovery Gamma Positions MarketDecoder Spec Terms SampleLogs PyFacts.

Lemma find_condition_logs_ok cs keccak logs : forall acc found,
  find_condition_logs cs keccak acc logs = Ok found ->
  exists kept,
    found = (acc ++ kept)%list /\
    List.Forall (fun log => List.In log logs /\ preparation_log cs keccak log) kept.
Proof.
  induction logs as [|log logs IH]; intros acc found H;
    cbn [find_condition_logs] in H.
  - injection H as <-. exists []. now rewrite app_nil_r.
  - apply bind_ok in H as (a & A & H). apply IH in H as (kept & -> & F).
    assert (F' : List.Forall
                   (fun l => List.In l (log :: logs) /\ preparation_log cs keccak l) kept).
    { eapply List.Forall_impl; [|exact F]. intros l [I P]. split; [now right | exact P]. }
    destruct (is_preparation keccak a log) eqn:P.
    + exists (log :: kept). rewrite <- app_assoc. split; [reflexivity|].
      constructor; [|exact F']. split; [now left|].
      exists a. split; [|exact P]. unfold checksum in A.
      destruct (cs (Log.address log)); [now injection A as -> | discriminate A].
    + exists kept. split; [reflexivity | exact F'].
Qed.

Lemma find_condition_logs_none cs keccak logs : forall acc,
  (forall log, List.In log logs -> is_Some (cs (Log.address log))) ->
  exists kept,
    find_condition_logs cs keccak acc logs = Ok (acc ++ kept)%list /\
    List.Forall (fun log => List.In log logs /\ preparation_log cs keccak log) kept.
Proof.
  induction logs as [|log logs IH]; intros acc A; cbn [find_condition_logs].
  - exists []. now rewrite app_nil_r.
  - destruct (A log ltac:(now left)) as [a Ea]. unfold checksum. rewrite Ea.
    cbn [of_option Py.bind].
    destruct (IH (if is_preparation keccak a log then (acc ++ [log])%list else acc)
                 (fun l I => A l (or_intror I))) as (kept & -> & F).
    assert (F' : List.Forall
                   (fun l => List.In l (log :: logs) /\ preparation_log cs keccak l) kept).
    { eapply List.Forall_impl; [|exact F]. intros l [I P]. split; [now right | exact P]. }
    destruct (is_preparation keccak a log) eqn:P.
    + exists (log :: kept). rewrite <- app_assoc. split; [reflexivity|].
      constructor; [|exact F']. split; [now left|]. now exists a.
    + exists kept. split; [reflexivity | exact F'].
Qed.

(** X25: what [decode_market_from_tx] returns is read off one log of the
    receipt: a log of the ConditionalTokens contract that carries the
    ConditionPreparation signature, with the log index asked for when one
    is given. Condition id, oracle, question id and outcome slot count are
    those [parse_condition_preparation_log] reads from it, the collateral
    is USDC, and the two token ids are the positions derived from them. *)
Theorem market_from_tx_reads_a_preparation_log
    (cs : string -> option string) (keccak : list byte -> list byte)
    (get_transaction_receipt : string -> result (list Log.t))
    (derive : string -> string -> string -> option string -> result BinaryPositions)
    (tx_hash : string) (log_index : option Z) (m : MarketParams) :
  decode_market_from_tx cs keccak get_transaction_receipt derive tx_hash log_index
    = Ok m ->
  exists logs log p positions,
    get_transaction_receipt tx_hash = Ok logs /\
    List.In log logs /\ preparation_log cs keccak log /\
    (forall i, log_index = Some i -> Log.logIndex log = i) /\
    parse_condition_preparation_log cs log = Ok p /\
    derive (c_oracle p) (c_question_id p) USDC_ADDRESS (Some (c_condition_id p))
      = Ok positions /\
    m = {| condition_id := c_condition_id p;
           oracle := c_oracle p;
           question_id := c_question_id p;
           outcome_slot_count := c_outcome_slot_count p;
           collateral_token := USDC_ADDRESS;
           yes_token_id := position_yes positions;
           no_token_id := position_no positions;
           gamma := None |}.
Proof.
  unfold decode_market_from_tx. intros H.
  apply bind_ok in H as (logs & R & H). apply bind_ok in H as (found & F & H).
  apply find_condition_logs_ok in F as (kept & -> & F). cbn [app] in H.
  destruct kept as [|first kept]; [discriminate H|].
  apply bind_ok in H as (target & T & H). apply bind_ok in H as (p & P & H).
  apply bind_ok in H as (pos & D & H). injection H as <-.
  assert (X : List.In target (first :: kept) /\
              forall i, log_index = Some i -> Log.logIndex target = i).
  { destruct log_index as [i|].
    - destruct (List.find _ _) as [l|] eqn:E; [|discriminate T]. injection T as <-.
      apply List.find_some in E as [I E]. split; [exact I|].
      intros j [= <-]. lia.
    - injection T as <-. split; [now left | discriminate]. }
  destruct X as [I X].
  destruct (proj1 (List.Forall_forall _ _) F target I) as [Il Pl].
  exists logs, target, p, pos. repeat split; assumption.
Qed.

Lemma market_from_tx_reads_a_preparation_log_witness :
  exists m,
    decode_market_from_tx Demo.cs Demo.keccak
      (fun _ => Ok [Demo.self_fill_log; preparation_log_1]) derive "0xtx" (Some 3)
      = Ok m /\
    condition_id m = bytes_hex (repeat xc1 32) /\
    outcome_slot_count m = 2 /\
    collateral_token m = USDC_ADDRESS.
Proof.
  destruct (decode_market_from_tx Demo.cs Demo.keccak
              (fun _ => Ok [Demo.self_fill_log; preparation_log_1]) derive "0xtx"
              (Some 3)) as [m|e] eqn:D; [|vm_compute in D; discriminate D].
  destruct (market_from_tx_reads_a_preparation_log _ _ _ _ _ _ _ D)
    as (logs & log & p & pos & R & I & _ & X & P & _ & ->).
  injection R as <-. eexists. split; [reflexivity|].
  cbn [condition_id outcome_slot_count collateral_token].
  destruct I as [<-|[<-|[]]].
  - specialize (X 3 eq_refl). discriminate X.
  - vm_compute in P. injection P as <-. repeat split.
Defined.

(** X26: [decode_market_from_tx] raises [ValueError] when the receipt has
    no ConditionPreparation log of the ConditionalTokens contract, and
    when a log index is asked for that none of them has. *)
Theorem market_from_tx_without_preparation_log
    (cs : string -> option string) (keccak : list byte -> list byte)
    (get_transaction_receipt : string -> result (list Log.t))
    (derive : string -> string -> string -> option string -> result BinaryPositions)
    (tx_hash : string) (log_index : option Z) (logs : list Log.t) :
  get_transaction_receipt tx_hash = Ok logs ->
  (forall log, List.In log logs -> is_Some (cs (Log.address log))) ->
  (forall log, List.In log logs -> preparation_log cs keccak log ->
     exists i, log_index = Some i /\ Log.logIndex log <> i) ->
  decode_market_from_tx cs keccak get_transaction_receipt derive tx_hash log_index
    = Raise ValueError.
Proof.
  intros R A N. unfold decode_market_from_tx. rewrite R. cbn [Py.bind].
  destruct (find_condition_logs_none cs keccak logs [] A) as (kept & -> & F).
  cbn [app Py.bind]. destruct kept as [|first kept]; [reflexivity|].
  assert (I0 : List.In first (first :: kept)) by now left.
  destruct (proj1 (List.Forall_forall _ _) F first I0) as [I P].
  destruct (N first I P) as (i & -> & _).
  destruct (List.find _ _) as [l|] eqn:E; [|reflexivity].
  apply List.find_some in E as [Il E].
  destruct (proj1 (List.Forall_forall _ _) F l Il) as [I' P'].
  destruct (N l I' P') as (j & [= <-] & Ne). lia.
Qed.

Lemma market_from_tx_without_preparation_log_witness :
  decode_market_from_tx Demo.cs Demo.keccak (fun _ => Ok [Demo.self_fill_log])
    (fun _ _ _ _ => Raise ValueError) "0xtx" None = Raise ValueError.
Proof.
  apply (market_from_tx_without_preparation_log Demo.cs Demo.keccak
           (fun _ => Ok [Demo.self_fill_log]) _ "0xtx" None [Demo.self_fill_log]).
  - reflexivity.
  - intros log _. now eexists.
  - intros log [<-|[]] (a & E & P). injection E as <-. discriminate P.
Defined.


(** X27: how [decode_market_from_gamma] chooses the token ids it returns.
    With fewer than two ids from Gamma it returns the computed positions.
    With two or more, it returns the computed positions when they are the
    first two ids of Gamma in either order and letter case (so in the
    computed order, also when Gamma lists them the other way round), and
    the first two ids of Gamma as they are otherwise. The outcome slot
    count is always 2 and the oracle the checksummed UMA adapter. *)
Theorem market_from_gamma_token_choice
    (cs : string -> option string) (json_loads : string -> option json)
    (fetch_market_by_slug : string -> result (gmap string json))
    (derive : string -> string -> string -> option string -> result BinaryPositions)
    (market_slug : string) (m : MarketParams) :
  decode_market_from_gamma cs json_loads fetch_market_by_slug derive market_slug
    = Returns m ->
  exists params positions,
    gamma m = Some params /\
    cs UMA_ORACLE = Some (oracle m) /\ outcome_slot_count m = 2 /\
    derive (oracle m) (question_id m) USDC_ADDRESS (Some (condition_id m))
      = Ok positions /\
    match p_clob_token_ids params with
    | JStr g0 :: JStr g1 :: _ =>
        (yes_token_id m, no_token_id m) =
        if same_pair positions g0 g1
        then (position_yes positions, position_no positions) else (g0, g1)
    | _ =>
        (yes_token_id m, no_token_id m)
        = (position_yes positions, position_no positions)
    end.
Proof.
  unfold decode_market_from_gamma. intros H.
  destruct (fetch_market_by_slug market_slug) as [md|]; [|discriminate H].
  cbn [lift and_then] in H.
  destruct (extract_market_params json_loads md) as [params|]; [|discriminate H].
  cbn [and_then] in H.
  destruct (negb (truthy (p_condition_id params))); [discriminate H|].
  destruct (as_str (p_condition_id params)) as [c|]; [|discriminate H].
  cbn [and_then] in H.
  destruct (as_str _) as [q|]; [|discriminate H]. cbn [and_then] in H.
  unfold checksum in H. destruct (cs UMA_ORACLE) as [o|] eqn:O; [|discriminate H].
  cbn [of_option lift and_then] in H.
  destruct (derive _ _ _ _) as [pos|] eqn:D; [|discriminate H].
  cbn [lift and_then] in H.
  exists params, pos.
  destruct (p_clob_token_ids params) as [|g0 [|g1 gs]].
  - cbn [and_then] in H. injection H as <-. cbn. auto.
  - cbn [and_then] in H. injection H as <-. cbn. destruct g0; auto.
  - destruct g0 as [| | |g0| |]; try discriminate H.
    destruct g1 as [| | |g1| |]; try discriminate H.
    cbn [as_str and_then] in H. unfold same_pair.
    destruct (_ || _); cbn [and_then] in H; injection H as <-; cbn; auto.
Qed.

Lemma market_from_gamma_token_choice_witness :
  exists m,
    decode_market_from_gamma Demo.cs (fun _ => None)
      (fun _ => Ok {[ "conditionId" := JStr "ab";
                      "clobTokenIds" := JList [JStr "0xAA"; JStr "0xbb"] ]})
      derive "some-market" = Returns m /\
    yes_token_id m = "0xAA" /\ no_token_id m = "0xbb" /\ question_id m = "0xab".
Proof.
  destruct (decode_market_from_gamma Demo.cs (fun _ => None)
      (fun _ => Ok {[ "conditionId" := JStr "ab";
                      "clobTokenIds" := JList [JStr "0xAA"; JStr "0xbb"] ]})
      derive "some-market") as [m|r] eqn:D; [|vm_compute in D; discriminate D].
  destruct (market_from_gamma_token_choice _ _ _ _ _ _ D)
    as (params & pos & _ & _ & _ & _ & _).
  vm_compute in D. injection D as <-. eexists. repeat split.
Defined.

End MarketDecoderFacts.

(** * Facts about the catalog *)

Module CatalogFacts.
Import Py Queries Catalog Spec Terms PyFacts.

Lemma NoDup_snoc {A} (x : A) l : ~ List.In x l -> List.NoDup l -> List.NoDup (l ++ [x]).
Proof.
  intros N D. induction D as [|y l Ny D IH]; cbn [app].
  - constructor; [intros [] | constructor].
  - constructor.
    + intros I. apply List.in_app_or in I as [I|[->|[]]]; [now apply Ny|].
      apply N. now left.
    + apply IH. intros I. apply N. now right.
Qed.

Section Update.

Variables (c s : string) (fresh : Z -> stored -> listing).
Hypothesis fresh_slug : forall i k, l_slug (fresh i k) = s.
Hypothesis fresh_condition : forall i k, l_condition_id (fresh i k) = c.
Hypothesis fresh_id : forall i k, l_id (fresh i k) = i.

Let update (r : listing) : listing :=
  if String.eqb (l_condition_id r) c then fresh (l_id r) (l_created_at r) else r.

Lemma update_conditions l :
  List.map l_condition_id (List.map update l) = List.map l_condition_id l.
Proof.
  induction l as [|r l IH]; [reflexivity|]. cbn [List.map]. rewrite IH. f_equal.
  unfold update. destruct (String.eqb_spec (l_condition_id r) c) as [E|N];
    [now rewrite fresh_condition | reflexivity].
Qed.

Lemma update_ids l : List.map l_id (List.map update l) = List.map l_id l.
Proof.
  induction l as [|r l IH]; [reflexivity|]. cbn [List.map]. rewrite IH. f_equal.
  unfold update. destruct (String.eqb (l_condition_id r) c);
    [now rewrite fresh_id | reflexivity].
Qed.

Lemma update_absent l :
  ~ List.In c (List.map l_condition_id l) -> List.map update l = l.
Proof.
  induction l as [|r l IH]; intros N; [reflexivity|]. cbn [List.map].
  rewrite IH by (intros I; apply N; now right). f_equal.
  unfold update. destruct (String.eqb_spec (l_condition_id r) c) as [E|_];
    [|reflexivity]. destruct N. now left.
Qed.

Lemma in_update_slugs x l :
  List.In x (List.map l_slug (List.map update l)) ->
  x = s \/ List.In x (List.map l_slug l).
Proof.
  induction l as [|r l IH]; [intros []|]. cbn [List.map List.In]. intros [E|I].
  - unfold update in E. destruct (String.eqb (l_condition_id r) c);
      [left; now rewrite fresh_slug in E | right; now left].
  - destruct (IH I); auto.
Qed.

Lemma update_slugs l :
  List.NoDup (List.map l_condition_id l) -> List.NoDup (List.map l_slug l) ->
  (forall r, List.In r l -> l_slug r = s -> l_condition_id r = c) ->
  List.NoDup (List.map l_slug (List.map update l)).
Proof.
  induction l as [|r l IH]; intros Dc Ds O; [constructor|].
  cbn [List.map] in *. inversion Dc as [|? ? Nc Dc']; subst.
  inversion Ds as [|? ? Ns Ds']; subst.
  assert (O' : forall r', List.In r' l -> l_slug r' = s -> l_condition_id r' = c)
    by (intros r' I; apply O; now right).
  unfold update at 1. destruct (String.eqb_spec (l_condition_id r) c) as [E|N].
  - rewrite update_absent by (now rewrite <- E). rewrite fresh_slug.
    constructor; [|exact Ds'].
    intros I. apply List.in_map_iff in I as (r' & Es & I').
    apply Nc. rewrite E, <- (O' r' I' Es). now apply List.in_map.
  - constructor; [|now apply IH].
    intros I. apply in_update_slugs in I as [Es|I]; [|now apply Ns].
    apply N. apply O; [now left | exact Es].
Qed.

End Update.

Lemma market_columns_ok m v :
  market_columns m = Ok v ->
  m_slug m = Some (v.1.1.1.1.1.1) /\ m_condition_id m = Some (v.1.1.1.1.1.2) /\
  m_question_id m = Some (v.1.1.1.1.2) /\ m_oracle m = Some (v.1.1.1.2) /\
  m_collateral_token m = Some (v.1.1.2) /\ m_yes_token_id m = Some (v.1.2) /\
  m_no_token_id m = Some (v.2).
Proof.
  unfold market_columns, not_null.
  destruct (m_slug m), (m_condition_id m), (m_question_id m), (m_oracle m),
    (m_collateral_token m), (m_yes_token_id m), (m_no_token_id m);
    cbn; try discriminate. intros [= <-]. cbn. repeat split.
Qed.

Lemma upsert_market_sound
    (t t' : tables) (now : string) (market : market_values) (r : result Z) :
  sound_listings t ->
  upsert_market t now market = (r, t') ->
  sound_listings t' /\ (forall e, r = Raise e -> t' = t).
Proof.
  intros (Ds & Dc & Di & B) H. unfold upsert_market in H.
  destruct (bind_opt_int (m_event_id market)) as [ev|e0];
    [|injection H as <- <-; split; [now repeat split | reflexivity]].
  destruct (market_columns market) as [[[[[[[s c] q] o] k] y] n]|e0];
    [|injection H as <- <-; split; [now repeat split | reflexivity]].
  pose (fresh := fun id created =>
          mkListing id ev s c q o k y n (m_enable_neg_risk market) (m_status market)
                    (m_title market) (m_description market)
                    created (numeric_affinity (Some now))).
  destruct (List.find _ (listings t)) as [old|] eqn:F.
  - destruct (existsb _ (listings t)) eqn:X;
      [injection H as <- <-; split; [now repeat split | reflexivity]|].
    injection H as <- <-. split; [|discriminate].
    change (sound_listings
              (mkTables (events t) (events_seq t)
                 (List.map (fun r => if String.eqb (l_condition_id r) c
                                     then fresh (l_id r) (l_created_at r) else r)
                           (listings t))
                 (listings_seq t + 1))).
    unfold sound_listings. cbn [listings listings_seq].
    rewrite (update_conditions c fresh (fun _ _ => eq_refl)),
            (update_ids c fresh (fun _ _ => eq_refl)).
    split; [|split; [exact Dc | split; [exact Di|]]].
    + apply (update_slugs c s fresh); try reflexivity; try assumption.
      intros r0 I Es. destruct (String.eqb_spec (l_condition_id r0) c) as [E|N];
        [exact E|].
      assert (Y : existsb (fun r1 => String.eqb (l_slug r1) s
                                     && negb (String.eqb (l_condition_id r1) c))
                          (listings t) = true).
      { apply List.existsb_exists. exists r0. split; [exact I|].
        apply String.eqb_eq in Es. rewrite Es. apply String.eqb_neq in N.
        now rewrite N. }
      rewrite Y in X. discriminate X.
    + apply List.Forall_forall. intros r0 I.
      apply List.in_map_iff in I as (r1 & <- & I).
      pose proof (proj1 (List.Forall_forall _ _) B r1 I) as L.
      cbn beta in L. destruct (String.eqb (l_condition_id r1) c);
        unfold fresh; cbn [l_id]; lia.
  - destruct (existsb _ (listings t)) eqn:X;
      [injection H as <- <-; split; [now repeat split | reflexivity]|].
    injection H as <- <-. split; [|discriminate].
    unfold sound_listings. cbn [listings listings_seq].
    rewrite !List.map_app. cbn [List.map l_slug l_condition_id l_id].
    split; [|split; [|split]].
    + apply NoDup_snoc; [|exact Ds]. intros I.
      apply List.in_map_iff in I as (r0 & Es & I).
      assert (Y : existsb (fun r1 => String.eqb (l_slug r1) s) (listings t) = true).
      { apply List.existsb_exists. exists r0. split; [exact I|]. now apply String.eqb_eq. }
      rewrite Y in X. discriminate X.
    + apply NoDup_snoc; [|exact Dc]. intros I.
      apply List.in_map_iff in I as (r0 & Ec & I).
      pose proof (List.find_none _ _ F r0 I) as Nf. cbn in Nf.
      apply String.eqb_neq in Nf. contradiction.
    + apply NoDup_snoc; [|exact Di]. intros I.
      apply List.in_map_iff in I as (r0 & Ei & I).
      pose proof (proj1 (List.Forall_forall _ _) B r0 I) as L. cbn beta in L. lia.
    + apply List.Forall_app. split.
      * eapply List.Forall_impl; [|exact B]. intros r0 L. cbn in L. lia.
      * constructor; [cbn; lia | constructor].
Qed.

(** X28: [upsert_market] keeps the catalog as its UNIQUE constraints want
    it: if slugs, condition ids and ids were pairwise different before the
    call they are after it, whether it inserted, updated or raised; and
    when it raises the tables are as they were. *)
Theorem upsert_market_keeps_catalog_unique
    (t t' : tables) (now : string) (market : market_values) (r : result Z) :
  sound_listings t ->
  upsert_market t now market = (r, t') ->
  sound_listings t' /\ (forall e, r = Raise e -> t' = t).
Proof. apply upsert_market_sound. Qed.

Lemma upsert_market_keeps_catalog_unique_witness :
  sound_listings (snd (upsert_market
                         (snd (upsert_market empty "2024-01-01 00:00:00"
                                             Samples.market_values_1))
                         "2024-01-02 00:00:00" Samples.market_values_1)).
Proof.
  apply (upsert_market_keeps_catalog_unique
           (snd (upsert_market empty "2024-01-01 00:00:00" Samples.market_values_1)) _
           "2024-01-02 00:00:00" Samples.market_values_1 (Ok 1)); [|reflexivity].
  apply (upsert_market_keeps_catalog_unique empty _ "2024-01-01 00:00:00"
           Samples.market_values_1 (Ok 1));
    [|reflexivity].
  repeat split; constructor.
Defined.

Lemma NoDup_map_eq {A B} (f : A -> B) l a b :
  List.NoDup (List.map f l) -> List.In a l -> List.In b l -> f a = f b -> a = b.
Proof.
  induction l as [|x l IH]; intros D Ia Ib E; [destruct Ia|].
  cbn [List.map] in D. inversion D as [|? ? N D']; subst.
  destruct Ia as [->|Ia], Ib as [->|Ib]; [reflexivity| | |now apply IH].
  - destruct N. rewrite E. now apply List.in_map.
  - destruct N. rewrite <- E. now apply List.in_map.
Qed.

Lemma upsert_market_row t now market id t1 :
  upsert_market t now market = (Ok id, t1) ->
  exists ev s c q o k y n created,
    bind_opt_int (m_event_id market) = Ok ev /\
    market_columns market = Ok (s, c, q, o, k, y, n) /\
    List.In (mkListing id ev s c q o k y n (m_enable_neg_risk market) (m_status market)
                       (m_title market) (m_description market)
                       created (numeric_affinity (Some now)))
            (listings t1) /\
    events t1 = events t /\ events_seq t1 = events_seq t.
Proof.
  unfold upsert_market. intros H.
  destruct (bind_opt_int (m_event_id market)) as [ev|e0]; [|discriminate H].
  destruct (market_columns market) as [[[[[[[s c] q] o] k] y] n]|e0];
    [|discriminate H].
  destruct (List.find _ (listings t)) as [old|] eqn:F.
  - destruct (existsb _ (listings t)); [discriminate H|]. injection H as <- <-.
    exists ev, s, c, q, o, k, y, n, (l_created_at old).
    split; [reflexivity|]. split; [reflexivity|].
    cbn [listings events events_seq]. split; [|now split].
    apply List.find_some in F as [I E]. apply List.in_map_iff.
    exists old. now rewrite E.
  - destruct (existsb _ (listings t)); [discriminate H|]. injection H as <- <-.
    exists ev, s, c, q, o, k, y, n, (numeric_affinity (Some now)).
    split; [reflexivity|]. split; [reflexivity|].
    cbn [listings events events_seq]. split; [|now split].
    apply List.in_or_app. right. now left.
Qed.

(** X29: upserting a market a second time with the same values returns
    the same id and rewrites one column of one row: the [updated_at] of the
    row under that id takes the time of the second call. Every other
    column of that row, [created_at] included, and every other row stay as
    they were, and one more value of the id counter is taken. The row
    under that id holds the values given. *)
Theorem upserting_again_keeps_the_id
    (t t1 : tables) (now now' : string) (market : market_values) (id : Z) :
  sound_listings t ->
  upsert_market t now market = (Ok id, t1) ->
  upsert_market t1 now' market
    = (Ok id,
       mkTables (events t1) (events_seq t1)
         (List.map (fun r => if l_id r =? id
                             then touched (numeric_affinity (Some now')) r else r)
                   (listings t1))
         (listings_seq t1 + 1)) /\
  exists r,
    List.In r (listings t1) /\ l_id r = id /\
    m_slug market = Some (l_slug r) /\
    m_condition_id market = Some (l_condition_id r) /\
    m_yes_token_id market = Some (l_yes_token_id r) /\
    m_no_token_id market = Some (l_no_token_id r) /\
    l_status r = m_status market /\ l_title r = m_title market /\
    l_updated_at r = numeric_affinity (Some now).
Proof.
  intros S H.
  destruct (proj1 (upsert_market_sound _ _ _ _ _ S H)) as (Ds & Dc & Di & B).
  destruct (upsert_market_row _ _ _ _ _ H)
    as (ev & s & c & q & o & k & y & n & created & Eb & Ec & I & _).
  set (row := mkListing id ev s c q o k y n _ _ _ _ _ _) in I.
  split.
  - unfold upsert_market. rewrite Eb, Ec.
    assert (U : forall r, List.In r (listings t1) -> l_condition_id r = c -> r = row).
    { intros r Ir E. now apply (NoDup_map_eq l_condition_id (listings t1)). }
    assert (V : forall r, List.In r (listings t1) -> l_id r = id -> r = row).
    { intros r Ir E. now apply (NoDup_map_eq l_id (listings t1)). }
    destruct (List.find _ (listings t1)) as [old|] eqn:F.
    + apply List.find_some in F as [Io Eo]. apply String.eqb_eq in Eo.
      rewrite (U old Io Eo). cbn [l_id row].
      replace (existsb _ (listings t1)) with false.
      * f_equal. f_equal. apply List.map_ext_in. intros r Ir.
        destruct (String.eqb_spec (l_condition_id r) c) as [E|N].
        -- rewrite (U r Ir E). cbn [l_id row]. rewrite Z.eqb_refl. reflexivity.
        -- destruct (Z.eqb_spec (l_id r) id) as [Ei|_]; [|reflexivity].
           destruct N. now rewrite (V r Ir Ei).
      * symmetry. apply not_true_is_false. intros X.
        apply List.existsb_exists in X as (r & Ir & X).
        apply andb_prop in X as [Xs Xc]. apply String.eqb_eq in Xs.
        assert (r = row) as -> by now apply (NoDup_map_eq l_slug (listings t1)).
        cbn [l_condition_id row] in Xc. now rewrite String.eqb_refl in Xc.
    + pose proof (List.find_none _ _ F row I) as N. cbn in N.
      now rewrite String.eqb_refl in N.
  - apply market_columns_ok in Ec as (Es & Ecd & _ & _ & _ & Ey & En). cbn in *.
    exists row. repeat split; assumption.
Qed.

Lemma upserting_again_keeps_the_id_witness :
  upsert_market (snd (upsert_market empty "2024-01-01 00:00:00"
                                    Samples.market_values_1))
                "2024-01-02 00:00:00" Samples.market_values_1
    = (Ok 1,
       mkTables [] 0
         (List.map (fun r => if l_id r =? 1
                             then touched (Text "2024-01-02 00:00:00") r else r)
            (listings (snd (upsert_market empty "2024-01-01 00:00:00"
                                          Samples.market_values_1))))
         2).
Proof.
  apply (proj1 (upserting_again_keeps_the_id empty
                  (snd (upsert_market empty "2024-01-01 00:00:00"
                                      Samples.market_values_1))
                  "2024-01-01 00:00:00" "2024-01-02 00:00:00"
                  Samples.market_values_1 1
                  ltac:(repeat split; constructor) eq_refl)).
Defined.

(** X30: an event that [upsert_event] has stored is what
    [fetch_event_by_slug] returns for its slug: the id the upsert
    returned, slug, title and description as given, [enable_neg_risk] as a
    truth value, [updated_at] the time of the call. The two dates come back
    as the TIMESTAMP columns hold them: as given when the text holds a
    character that no number holds, as the number it spells when it spells
    one. *)
Theorem upserted_event_is_fetched
    (t t' : tables) (now : string) (event : event_values) (id : Z) :
  upsert_event t now event = (Ok id, t') ->
  exists slug created,
    e_slug event = Some slug /\
    fetch_event_by_slug t' slug
      = Some (mkEvent id slug (e_title event) (e_description event)
                      (numeric_affinity (e_start_date event))
                      (numeric_affinity (e_end_date event))
                      (Some (default false (e_enable_neg_risk event)))
                      created (numeric_affinity (Some now))) /\
    (forall s, e_start_date event = Some s -> kept_as_text s = true ->
       numeric_affinity (e_start_date event) = Text s) /\
    (forall s, e_end_date event = Some s -> kept_as_text s = true ->
       numeric_affinity (e_end_date event) = Text s).
Proof.
  unfold upsert_event, not_null. intros H.
  destruct (e_slug event) as [slug|]; [|discriminate H]. cbn [of_option] in H.
  assert (K : forall v s, v = Some s -> kept_as_text s = true ->
                numeric_affinity v = Text s).
  { intros v s -> E. unfold numeric_affinity. now rewrite E. }
  pose (fresh := fun id created =>
          mkEvent id slug (e_title event) (e_description event)
                  (numeric_affinity (e_start_date event))
                  (numeric_affinity (e_end_date event))
                  (e_enable_neg_risk event) created (numeric_affinity (Some now))).
  destruct (List.find _ (events t)) as [old|] eqn:F; injection H as <- <-;
    cbn [events].
  - exists slug, (ev_created_at old). split; [reflexivity|].
    split; [|split; apply K].
    unfold fetch_event_by_slug. cbn [events].
    assert (G : forall l r0,
        List.find (fun r => String.eqb (ev_slug r) slug) l = Some r0 ->
        List.find (fun r => String.eqb (ev_slug r) slug)
          (List.map (fun r => if String.eqb (ev_slug r) slug
                              then fresh (ev_id r) (ev_created_at r)
                              else r) l)
        = Some (fresh (ev_id r0) (ev_created_at r0))).
    { induction l as [|x l IH]; intros r0 E; [discriminate E|].
      cbn [List.find List.map] in *.
      destruct (String.eqb (ev_slug x) slug) eqn:X.
      - injection E as <-. cbn [ev_slug fresh]. now rewrite String.eqb_refl.
      - rewrite X. now apply IH. }
    change (List.map _ (events t))
      with (List.map (fun r => if String.eqb (ev_slug r) slug
                               then fresh (ev_id r) (ev_created_at r) else r)
                     (events t)).
    rewrite (G _ _ F). reflexivity.
  - exists slug, (numeric_affinity (Some now)). split; [reflexivity|].
    split; [|split; apply K].
    unfold fetch_event_by_slug. cbn [events].
    assert (G : forall l x,
        List.find (fun r => String.eqb (ev_slug r) slug) l = None ->
        ev_slug x = slug ->
        List.find (fun r => String.eqb (ev_slug r) slug) (l ++ [x]) = Some x).
    { induction l as [|y l IH]; intros x E Ex; cbn [List.find app] in *.
      - rewrite Ex, String.eqb_refl. reflexivity.
      - destruct (String.eqb (ev_slug y) slug); [discriminate E | now apply IH]. }
    change (events t ++ [_])%list
      with (events t ++ [fresh (events_seq t + 1) (numeric_affinity (Some now))])%list.
    rewrite (G _ (fresh (events_seq t + 1) (numeric_affinity (Some now))) F eq_refl).
    reflexivity.
Qed.

Lemma upserted_event_is_fetched_witness :
  exists created,
    fetch_event_by_slug
      (snd (upsert_event empty "2024-01-01 00:00:00" Samples.event_values_1)) "ev"
    = Some (mkEvent 1 "ev" (Some "Title") None
                    (Text "2024-06-01T00:00:00Z") (Numeral "2025")
                    (Some false)
                    created (Text "2024-01-01 00:00:00")).
Proof.
  destruct (upserted_event_is_fetched empty
              (snd (upsert_event empty "2024-01-01 00:00:00" Samples.event_values_1))
              "2024-01-01 00:00:00" Samples.event_values_1 1 eq_refl)
    as (slug & created & E & F & _).
  injection E as <-. exists created. rewrite F. reflexivity.
Defined.

End CatalogFacts.
